(** * MiraTTS Studio ([app_mira.py]): sentence splitting, output rotation,
      history listing and the generate handler.

    Python [str] values are sequences of Unicode code points; they are
    modelled as lists of code points ([N]).  File contents are byte lists.
    The host is taken to be POSIX with a UTF-8 locale (paths joined with
    [/], text files written as UTF-8 with no newline translation).

    The file system is a list of paths with their nodes, threaded through
    a state-and-exception monad; what the host may refuse (reading,
    overwriting, unlinking an entry, enumerating the output folder) is part
    of the state.  The engine, [numpy] and [soundfile] are outside the
    repository: they enter as functions that return or raise, and the
    readings of the clock enter as inputs of each request. *)

From Stdlib Require Import String Ascii.
From Stdlib Require Import List Bool Arith NArith ZArith Lia Permutation.
Import ListNotations.

Set Implicit Arguments.
Unset Strict Implicit.

(* ================================================================== *)
(** * Python strings *)
(* ================================================================== *)

Abbreviation pystr := (list N) (only parsing).

(** A literal: the code points of an ASCII string. *)
Definition lit (s : string) : pystr :=
  map N_of_ascii (list_ascii_of_string s).

Fixpoint str_eqb (a b : pystr) : bool :=
  match a, b with
  | [], [] => true
  | x :: a', y :: b' => N.eqb x y && str_eqb a' b'
  | _, _ => false
  end.

(** [drop_prefix pre s] is [Some r] when [s = pre ++ r]. *)
Fixpoint drop_prefix (pre s : pystr) : option pystr :=
  match pre with
  | [] => Some s
  | x :: pre' =>
      match s with
      | [] => None
      | y :: s' => if N.eqb x y then drop_prefix pre' s' else None
      end
  end.

Definition startswith (pre s : pystr) : bool :=
  match drop_prefix pre s with Some _ => true | None => false end.

Definition endswith (suf s : pystr) : bool :=
  startswith (rev suf) (rev s).

Definition in_range (lo hi c : N) : bool := N.leb lo c && N.leb c hi.

(** [str.isspace] on one code point, which is also what [\s] matches in a
    [str] pattern (Unicode 14 tables). *)
Definition isspace (c : N) : bool :=
  in_range 9 13 c || in_range 28 32 c || N.eqb c 133 || N.eqb c 160
  || N.eqb c 5760 || in_range 8192 8202 c || N.eqb c 8232 || N.eqb c 8233
  || N.eqb c 8239 || N.eqb c 8287 || N.eqb c 12288.

(** First code point of each run of ten decimal digits (category Nd). *)
Definition digit_runs : list N :=
  [48; 1632; 1776; 1984; 2406; 2534; 2662; 2790; 2918; 3046; 3174; 3302;
   3430; 3558; 3664; 3792; 3872; 4160; 4240; 6112; 6160; 6470; 6608; 6784;
   6800; 6992; 7088; 7232; 7248; 42528; 43216; 43264; 43472; 43504; 43600;
   44016; 65296; 66720; 68912; 69734; 69872; 69942; 70096; 70384; 70736;
   70864; 71248; 71360; 71472; 71904; 72016; 72784; 73040; 73120; 92768;
   92864; 93008; 120782; 120792; 120802; 120812; 120822; 123200; 123632;
   125264; 130032]%N.

(** What [\d] matches in a [str] pattern. *)
Definition isdecimal (c : N) : bool :=
  existsb (fun lo => in_range lo (lo + 9) c) digit_runs.

Fixpoint lstrip (s : pystr) : pystr :=
  match s with
  | [] => []
  | c :: s' => if isspace c then lstrip s' else s
  end.

Definition rstrip (s : pystr) : pystr := rev (lstrip (rev s)).

(** [s.strip()] *)
Definition strip (s : pystr) : pystr := rstrip (lstrip s).

(** Truth value of a string: non-empty. *)
Definition truthy (s : pystr) : bool :=
  match s with [] => false | _ :: _ => true end.

(** [s.replace(old, new)] for a non-empty [old]: occurrences are found left
    to right and do not overlap. [skip] counts the code points of an
    occurrence that are still to be dropped. *)
Fixpoint replace_from (old new : pystr) (skip : nat) (s : pystr) : pystr :=
  match s with
  | [] => []
  | c :: s' =>
      match skip with
      | S k => replace_from old new k s'
      | O =>
          if startswith old s
          then new ++ replace_from old new (length old - 1) s'
          else c :: replace_from old new 0 s'
      end
  end.

Definition str_replace (old new s : pystr) : pystr :=
  replace_from old new 0 s.

(** Decimal rendering of a natural number, as [str(n)] does. *)
Fixpoint digits_of_uint (d : Decimal.uint) : pystr :=
  match d with
  | Decimal.Nil => []
  | Decimal.D0 d' => 48%N :: digits_of_uint d'
  | Decimal.D1 d' => 49%N :: digits_of_uint d'
  | Decimal.D2 d' => 50%N :: digits_of_uint d'
  | Decimal.D3 d' => 51%N :: digits_of_uint d'
  | Decimal.D4 d' => 52%N :: digits_of_uint d'
  | Decimal.D5 d' => 53%N :: digits_of_uint d'
  | Decimal.D6 d' => 54%N :: digits_of_uint d'
  | Decimal.D7 d' => 55%N :: digits_of_uint d'
  | Decimal.D8 d' => 56%N :: digits_of_uint d'
  | Decimal.D9 d' => 57%N :: digits_of_uint d'
  end.

Definition str_of_nat (n : nat) : pystr := digits_of_uint (Nat.to_uint n).

(* ================================================================== *)
(** * Sentence splitter ([split_text]) *)
(* ================================================================== *)

(** The class [[.!?]] of the look-behind. *)
Definition is_ender (c : N) : bool :=
  N.eqb c 46 || N.eqb c 33 || N.eqb c 63.

(** [re.split(r'(?<=[.!?])\s+', text)].  The pattern matches a maximal run
    of whitespace that starts right after an ender; the pieces between the
    matches are returned, the matched whitespace is not.

    [re_split_go after_ender in_sep s] scans [s] and returns the piece under
    construction and the pieces after it.  [after_ender] tells whether the
    code point before [s] is an ender, [in_sep] whether the scan is inside a
    match. *)
Fixpoint re_split_go (after_ender in_sep : bool) (s : pystr)
  : pystr * list pystr :=
  match s with
  | [] => ([], [])
  | c :: rest =>
      if isspace c then
        if in_sep then re_split_go false true rest
        else if after_ender then
          let (p, ps) := re_split_go false true rest in ([], p :: ps)
        else
          let (p, ps) := re_split_go false false rest in (c :: p, ps)
      else
        let (p, ps) := re_split_go (is_ender c) false rest in (c :: p, ps)
  end.

Definition re_split (text : pystr) : list pystr :=
  let (p, ps) := re_split_go false false text in p :: ps.

(** [[s.strip() for s in re.split(...) if s.strip()]] *)
Definition split_text (text : pystr) : list pystr :=
  map strip (filter (fun s => truthy (strip s)) (re_split text)).

(** ** The splitter as the specification words it *)

(** A split point of [s]: an ender immediately followed by whitespace. *)
Fixpoint has_split_point (s : pystr) : bool :=
  match s with
  | [] => false
  | a :: tl =>
      match tl with
      | [] => false
      | b :: _ => (is_ender a && isspace b) || has_split_point tl
      end
  end.

Definition starts_with_space (s : pystr) : bool :=
  match s with [] => false | c :: _ => isspace c end.

(** [Pieces text ps]: [ps] are the pieces of [text] cut at every split
    point, the whitespace run at each split point belonging to no piece. *)
Inductive Pieces : pystr -> list pystr -> Prop :=
| Pieces_whole p :
    has_split_point p = false -> Pieces p [p]
| Pieces_cut p e w rest ps :
    has_split_point (p ++ [e]) = false ->
    is_ender e = true ->
    w <> [] -> forallb isspace w = true ->
    starts_with_space rest = false ->
    Pieces rest ps ->
    Pieces ((p ++ [e]) ++ w ++ rest) ((p ++ [e]) :: ps).

Definition whitespace_only (s : pystr) : bool := forallb isspace s.

(** The specification's splitter: cut at split points, trim, drop empties. *)
Definition spec_split (pieces : list pystr) : list pystr :=
  filter truthy (map strip pieces).

(** ** Trimming as the specification words it *)

Definition ends_with_space (s : pystr) : bool := starts_with_space (rev s).

(** [Trimmed p s]: [s] is [p] without the whitespace at its two ends.  [p]
    is [s] between two runs of whitespace, and [s] neither starts nor ends
    with whitespace. *)
Definition Trimmed (p s : pystr) : Prop :=
  exists l r,
    p = l ++ s ++ r /\
    whitespace_only l = true /\ whitespace_only r = true /\
    starts_with_space s = false /\ ends_with_space s = false.

(** [Sentences pieces out]: [out] lists the pieces in order, each one
    trimmed, those that are empty once trimmed left out. *)
Inductive Sentences : list pystr -> list pystr -> Prop :=
| Sentences_nil : Sentences [] []
| Sentences_skip p ps out :
    Trimmed p [] -> Sentences ps out -> Sentences (p :: ps) out
| Sentences_keep p s ps out :
    Trimmed p s -> s <> [] -> Sentences ps out ->
    Sentences (p :: ps) (s :: out).

(* ================================================================== *)
(** * Configuration and naming *)
(* ================================================================== *)

Definition REFERENCE_FOLDER : pystr := lit "./static/reference_audio/".
Definition OUTPUT_FOLDER : pystr := lit "./static/output/".
Definition MAX_HISTORY : nat := 5.
Definition SAMPLE_RATE : N := 48000.

Arguments REFERENCE_FOLDER : simpl never.
Arguments OUTPUT_FOLDER : simpl never.

Definition slash : N := 47.
Definition newline : N := 10.

(** [os.path.join(a, b)] (posixpath). *)
Definition os_path_join (a b : pystr) : pystr :=
  if startswith [slash] b then b
  else if negb (truthy a) || endswith [slash] a then a ++ b
  else a ++ [slash] ++ b.

(** [os.path.basename(p)]: what follows the last [/]. *)
Fixpoint basename (p : pystr) : pystr :=
  match p with
  | [] => []
  | _ :: p' => if existsb (N.eqb slash) p then basename p' else p
  end.

(** [\d{n}] at the head of [s]: what is left after exactly [n] decimal
    digits. *)
Fixpoint take_digits (n : nat) (s : pystr) : option pystr :=
  match n with
  | O => Some s
  | S k =>
      match s with
      | c :: s' => if isdecimal c then take_digits k s' else None
      | [] => None
      end
  end.

(** [$] without the MULTILINE flag: the end of the string, or the position
    just before a newline that ends the string. *)
Definition at_dollar (s : pystr) : bool :=
  match s with
  | [] => true
  | c :: [] => N.eqb c newline
  | _ => false
  end.

Definition and_then {A B : Type} (o : option A) (f : A -> option B)
  : option B :=
  match o with Some a => f a | None => None end.

(** [re.compile(r'^mira_\d{8}-\d{6}\.(wav|txt)$').match(filename)] *)
Definition pattern_match (filename : pystr) : bool :=
  match and_then (drop_prefix (lit "mira_") filename) (fun s1 =>
        and_then (take_digits 8 s1) (fun s2 =>
        and_then (drop_prefix (lit "-") s2) (fun s3 =>
        and_then (take_digits 6 s3) (fun s4 =>
        drop_prefix (lit ".") s4)))) with
  | None => false
  | Some s5 =>
      match drop_prefix (lit "wav") s5, drop_prefix (lit "txt") s5 with
      | Some e, _ => at_dollar e
      | None, Some e => at_dollar e
      | None, None => false
      end
  end.

(** [fnmatch] of a name against [mira_*.wav], as [glob] applies it. *)
Definition fnmatch_mira_wav (name : pystr) : bool :=
  match drop_prefix (lit "mira_") name with
  | Some r => endswith (lit ".wav") r
  | None => false
  end.

(** What [datetime.now().strftime("%Y%m%d-%H%M%S")] produces: eight ASCII
    digits, a hyphen, six ASCII digits. *)
Definition ascii_digit (c : N) : bool := in_range 48 57 c.

Definition is_stamp (ts : pystr) : bool :=
  Nat.eqb (length ts) 15
  && forallb ascii_digit (firstn 8 ts)
  && str_eqb (firstn 1 (skipn 8 ts)) (lit "-")
  && forallb ascii_digit (skipn 9 ts).

(** The specification's naming convention
    [mira_<8-digit-date>-<6-digit-time>.(wav|txt)]. *)
Definition well_named (name : pystr) : bool :=
  match drop_prefix (lit "mira_") name with
  | None => false
  | Some r =>
      Nat.eqb (length r) 19
      && forallb isdecimal (firstn 8 r)
      && str_eqb (firstn 1 (skipn 8 r)) (lit "-")
      && forallb isdecimal (firstn 6 (skipn 9 r))
      && (str_eqb (skipn 15 r) (lit ".wav") || str_eqb (skipn 15 r) (lit ".txt"))
  end.

(** The naming convention read with the digits [0] to [9] only: the names
    the application itself gives to what it writes. *)
Definition plainly_named (name : pystr) : bool :=
  match drop_prefix (lit "mira_") name with
  | None => false
  | Some r =>
      is_stamp (firstn 15 r)
      && (str_eqb (skipn 15 r) (lit ".wav") || str_eqb (skipn 15 r) (lit ".txt"))
  end.

(** The names the pattern accepts, spelled out: [mira_], eight decimal
    digits, a hyphen, six decimal digits, a dot, [wav] or [txt], and then
    the end of the name or one last newline.  A decimal digit is any code
    point of category Nd, not only [0] to [9]. *)
Definition accepted_form (name : pystr) : Prop :=
  exists date time ext tail,
    name = lit "mira_" ++ date ++ lit "-" ++ time ++ lit "." ++ ext ++ tail /\
    length date = 8 /\ forallb isdecimal date = true /\
    length time = 6 /\ forallb isdecimal time = true /\
    (ext = lit "wav" \/ ext = lit "txt") /\
    (tail = [] \/ tail = [newline]).

Definition base_name (ts : pystr) : pystr := lit "mira_" ++ ts.
Definition wav_path_of (ts : pystr) : pystr :=
  os_path_join OUTPUT_FOLDER (base_name ts ++ lit ".wav").
Definition txt_path_of (ts : pystr) : pystr :=
  os_path_join OUTPUT_FOLDER (base_name ts ++ lit ".txt").

(* ================================================================== *)
(** * Text encoding *)
(* ================================================================== *)

Definition is_cont (b : N) : bool := in_range 128 191 b.

(** Strict UTF-8 decoding ([bytes.decode('utf-8')]); [None] stands for
    [UnicodeDecodeError]. *)
Fixpoint utf8_decode (b : list N) : option pystr :=
  match b with
  | [] => Some []
  | b0 :: r0 =>
      if N.ltb b0 128 then option_map (cons b0) (utf8_decode r0)
      else if in_range 194 223 b0 then
        match r0 with
        | b1 :: r1 =>
            if is_cont b1
            then option_map (cons ((b0 - 192) * 64 + (b1 - 128))%N)
                            (utf8_decode r1)
            else None
        | _ => None
        end
      else if in_range 224 239 b0 then
        match r0 with
        | b1 :: b2 :: r2 =>
            let c := ((b0 - 224) * 4096 + (b1 - 128) * 64 + (b2 - 128))%N in
            if is_cont b1 && is_cont b2
               && negb (N.ltb c 2048) && negb (in_range 55296 57343 c)
            then option_map (cons c) (utf8_decode r2)
            else None
        | _ => None
        end
      else if in_range 240 244 b0 then
        match r0 with
        | b1 :: b2 :: b3 :: r3 =>
            let c := ((b0 - 240) * 262144 + (b1 - 128) * 4096
                      + (b2 - 128) * 64 + (b3 - 128))%N in
            if is_cont b1 && is_cont b2 && is_cont b3
               && negb (N.ltb c 65536) && N.leb c 1114111
            then option_map (cons c) (utf8_decode r3)
            else None
        | _ => None
        end
      else None
  end.

Definition utf8_encode_char (c : N) : option (list N) :=
  if N.ltb c 128 then Some [c]
  else if N.ltb c 2048 then Some [192 + c / 64; 128 + c mod 64]%N
  else if N.ltb c 65536 then
    if in_range 55296 57343 c then None
    else Some [224 + c / 4096; 128 + (c / 64) mod 64; 128 + c mod 64]%N
  else if N.leb c 1114111 then
    Some [240 + c / 262144; 128 + (c / 4096) mod 64;
          128 + (c / 64) mod 64; 128 + c mod 64]%N
  else None.

(** [str.encode('utf-8')]; [None] stands for [UnicodeEncodeError]. *)
Fixpoint utf8_encode (s : pystr) : option (list N) :=
  match s with
  | [] => Some []
  | c :: s' =>
      match utf8_encode_char c, utf8_encode s' with
      | Some b, Some bs => Some (b ++ bs)
      | _, _ => None
      end
  end.

(** Universal newlines on reading in text mode: [\r\n] and [\r] are read
    as [\n]. *)
Fixpoint universal_newlines (s : pystr) : pystr :=
  match s with
  | [] => []
  | c :: r =>
      if N.eqb c 13 then
        newline :: match r with
                   | d :: r' => if N.eqb d newline then universal_newlines r'
                                else universal_newlines r
                   | [] => []
                   end
      else c :: universal_newlines r
  end.

(* ================================================================== *)
(** * Files *)
(* ================================================================== *)

(** What [os.stat], which follows symbolic links, finds behind a directory
    entry: a regular file, a directory, a special file (FIFO, socket or
    device), or nothing at all, when the entry is a symbolic link whose
    target is missing. *)
Inductive kind := RegularFile | Directory | Special | Dangling.

(** A directory entry.  [n_symlink] tells whether the entry itself is a
    symbolic link ([os.lstat]); the other fields describe what is seen
    through it.  [n_mtime] is the value [os.path.getmtime] returns; the
    three flags tell whether the host lets the process read and overwrite
    what the entry leads to, and unlink the entry. *)
Record node := {
  n_kind : kind;
  n_symlink : bool;
  n_mtime : Z;
  n_data : list N;
  n_readable : bool;
  n_writable : bool;
  n_deletable : bool
}.

(** Paths with their nodes, in the order in which the host enumerates
    them.  Each path stands for a file of its own: the target of a symbolic
    link is described by the link's node and is not looked up in the
    store. *)
Definition store := list (pystr * node).

Record world := {
  files : store;
  out_listable : bool;   (** can [OUTPUT_FOLDER] be enumerated *)
  stdout : list pystr    (** lines printed so far *)
}.

(** The entry at [p] itself, as [os.lstat] and [unlink] find it. *)
Fixpoint entry_at (p : pystr) (st : store) : option node :=
  match st with
  | [] => None
  | (q, n) :: st' => if str_eqb p q then Some n else entry_at p st'
  end.

(** What [os.stat] finds at [p]: the entry, unless it is a link that leads
    nowhere. *)
Definition lookup (p : pystr) (st : store) : option node :=
  match entry_at p st with
  | Some n => match n_kind n with Dangling => None | _ => Some n end
  | None => None
  end.

Definition remove_key (p : pystr) (st : store) : store :=
  filter (fun e => negb (str_eqb p (fst e))) st.

Fixpoint replace_node (p : pystr) (n : node) (st : store) : store :=
  match st with
  | [] => []
  | (q, m) :: st' =>
      if str_eqb p q then (q, n) :: st' else (q, m) :: replace_node p n st'
  end.

Definition fresh_file (now : Z) (data : list N) : node :=
  {| n_kind := RegularFile; n_symlink := false; n_mtime := now;
     n_data := data;
     n_readable := true; n_writable := true; n_deletable := true |}.

(** The name of [p] inside [OUTPUT_FOLDER], when [p] is one of its direct
    entries. *)
Definition output_name (p : pystr) : option pystr :=
  match drop_prefix OUTPUT_FOLDER p with
  | Some name =>
      if truthy name && negb (existsb (N.eqb slash) name)
      then Some name else None
  | None => None
  end.

Fixpoint output_names (st : store) : list pystr :=
  match st with
  | [] => []
  | (p, _) :: st' =>
      match output_name p with
      | Some name => name :: output_names st'
      | None => output_names st'
      end
  end.

(* ================================================================== *)
(** * Exceptions and the state monad *)
(* ================================================================== *)

(** The exception classes that occur; [RuntimeError] stands for whatever a
    collaborator raises.  All of them derive from [Exception]. *)
Inductive exn_class :=
| FileNotFoundError | IsADirectoryError | PermissionError | OSError
| UnicodeDecodeError | UnicodeEncodeError
| RuntimeError.

(** An exception: its class and the text [str(e)] gives. *)
Record exn := { exn_class_of : exn_class; exn_str : pystr }.

Definition os_error (c : exn_class) (what path : pystr) : exn :=
  {| exn_class_of := c; exn_str := what ++ lit ": '" ++ path ++ lit "'" |}.

Inductive outcome (A : Type) :=
| Ok (a : A)
| Raise (e : exn).
Arguments Ok {A} a.
Arguments Raise {A} e.

(** Computations over a state [S] that return or raise. *)
Definition M (S A : Type) : Type := S -> outcome A * S.

Definition ret {S A : Type} (a : A) : M S A := fun s => (Ok a, s).

Definition raise {S A : Type} (e : exn) : M S A := fun s => (Raise e, s).

Definition bind {S A B : Type} (m : M S A) (k : A -> M S B) : M S B :=
  fun s =>
    match m s with
    | (Ok a, s') => k a s'
    | (Raise e, s') => (Raise e, s')
    end.

(** [try: m except Exception as e: h e] *)
Definition try_except {S A : Type} (m : M S A) (h : exn -> M S A) : M S A :=
  fun s =>
    match m s with
    | (Ok a, s') => (Ok a, s')
    | (Raise e, s') => h e s'
    end.

Declare Scope monad_scope.
Delimit Scope monad_scope with monad.
Notation "x <- m ;; k" := (bind m (fun x => k))
  (at level 61, m at next level, right associativity) : monad_scope.
Notation "m ;; k" := (bind m (fun _ => k))
  (at level 61, right associativity) : monad_scope.
Open Scope monad_scope.

(** [for x in xs: body x] *)
Fixpoint for_each {S X : Type} (xs : list X) (body : X -> M S unit)
  : M S unit :=
  match xs with
  | [] => ret tt
  | x :: xs' => body x ;; for_each xs' body
  end.

(** A loop that collects one result per element. *)
Fixpoint map_m {S X Y : Type} (f : X -> M S Y) (xs : list X)
  : M S (list Y) :=
  match xs with
  | [] => ret []
  | x :: xs' => y <- f x ;; ys <- map_m f xs' ;; ret (y :: ys)
  end.

Definition lift_outcome {S A : Type} (o : outcome A) : M S A :=
  fun s => (o, s).

(* ================================================================== *)
(** * Operating-system calls *)
(* ================================================================== *)

Definition print (line : pystr) : M world unit :=
  fun w => (Ok tt, {| files := files w; out_listable := out_listable w;
                      stdout := stdout w ++ [line] |}).

Definition set_files (st : store) : M world unit :=
  fun w => (Ok tt, {| files := st; out_listable := out_listable w;
                      stdout := stdout w |}).

Definition get_files : M world store := fun w => (Ok (files w), w).

(** [os.listdir(OUTPUT_FOLDER)] *)
Definition listdir_output : M world (list pystr) :=
  fun w =>
    if out_listable w then (Ok (output_names (files w)), w)
    else (Raise (os_error PermissionError
                   (lit "[Errno 13] Permission denied") OUTPUT_FOLDER), w).

(** [glob.glob(os.path.join(OUTPUT_FOLDER, "mira_*.wav"))]: the entries of
    the folder whose name matches, whatever their kind, as paths; [glob]
    swallows the error of a folder that cannot be enumerated and yields no
    path. *)
Definition glob_output_wavs : M world (list pystr) :=
  fun w =>
    if out_listable w
    then (Ok (map (os_path_join OUTPUT_FOLDER)
                  (filter fnmatch_mira_wav (output_names (files w)))), w)
    else (Ok [], w).

Definition os_path_exists (p : pystr) : M world bool :=
  st <- get_files ;;
  ret (match lookup p st with Some _ => true | None => false end).

Definition os_path_isfile (p : pystr) : M world bool :=
  st <- get_files ;;
  ret (match lookup p st with
       | Some n => match n_kind n with RegularFile => true | _ => false end
       | None => false
       end).

Definition os_path_getmtime (p : pystr) : M world Z :=
  st <- get_files ;;
  match lookup p st with
  | Some n => ret (n_mtime n)
  | None => raise (os_error FileNotFoundError
                     (lit "[Errno 2] No such file or directory") p)
  end.

(** An entry that is a directory itself, not a link to one. *)
Definition is_directory (n : node) : bool :=
  match n_kind n with
  | Directory => negb (n_symlink n)
  | _ => false
  end.

(** [os.remove(p)] unlinks the entry at [p]: a file, a special file or a
    symbolic link, whatever the link leads to; it refuses a directory. *)
Definition os_remove (p : pystr) : M world unit :=
  st <- get_files ;;
  match entry_at p st with
  | None => raise (os_error FileNotFoundError
                     (lit "[Errno 2] No such file or directory") p)
  | Some n =>
      if is_directory n then
        raise (os_error IsADirectoryError (lit "[Errno 21] Is a directory") p)
      else if n_deletable n then set_files (remove_key p st)
      else raise (os_error PermissionError
                    (lit "[Errno 13] Permission denied") p)
  end.

(** Opening [p] for writing and writing [data].  [open] follows symbolic
    links: a regular file is overwritten in place; a missing path is
    created (the folder exists); through a link whose target is missing the
    target is created, where the host allows it.  A directory and a special
    file refuse (the answer of a socket is taken for every special file; a
    FIFO without a reader would make [open] wait instead). *)
Definition write_file (p : pystr) (data : list N) (now : Z) : M world unit :=
  st <- get_files ;;
  match entry_at p st with
  | None => set_files (st ++ [(p, fresh_file now data)])
  | Some n =>
      match n_kind n with
      | Directory => raise (os_error IsADirectoryError
                              (lit "[Errno 21] Is a directory") p)
      | Special => raise (os_error OSError
                            (lit "[Errno 6] No such device or address") p)
      | RegularFile =>
          if n_writable n
          then set_files (replace_node p
                 {| n_kind := RegularFile; n_symlink := n_symlink n;
                    n_mtime := now; n_data := data;
                    n_readable := n_readable n; n_writable := true;
                    n_deletable := n_deletable n |} st)
          else raise (os_error PermissionError
                        (lit "[Errno 13] Permission denied") p)
      | Dangling =>
          if n_writable n
          then set_files (replace_node p
                 {| n_kind := RegularFile; n_symlink := n_symlink n;
                    n_mtime := now; n_data := data;
                    n_readable := true; n_writable := true;
                    n_deletable := n_deletable n |} st)
          else raise (os_error FileNotFoundError
                        (lit "[Errno 2] No such file or directory") p)
      end
  end.

(** [with open(p, "w") as f: f.write(text)] *)
Definition write_text (p : pystr) (text : pystr) (now : Z) : M world unit :=
  match utf8_encode text with
  | Some data => write_file p data now
  | None =>
      (* the file is opened, and so created or truncated, before the
         encoding fails *)
      write_file p [] now ;;
      raise {| exn_class_of := UnicodeEncodeError;
               exn_str := lit "'utf-8' codec can't encode character" |}
  end.

(** [with open(p, 'r', encoding='utf-8') as f: f.read()]; [open] follows
    symbolic links, and a special file refuses as in [write_file]. *)
Definition read_text (p : pystr) : M world pystr :=
  st <- get_files ;;
  match lookup p st with
  | None => raise (os_error FileNotFoundError
                     (lit "[Errno 2] No such file or directory") p)
  | Some n =>
      match n_kind n with
      | Directory => raise (os_error IsADirectoryError
                              (lit "[Errno 21] Is a directory") p)
      | Special => raise (os_error OSError
                            (lit "[Errno 6] No such device or address") p)
      | Dangling => raise (os_error FileNotFoundError
                             (lit "[Errno 2] No such file or directory") p)
      | RegularFile =>
          if n_readable n then
            match utf8_decode (n_data n) with
            | Some s => ret (universal_newlines s)
            | None => raise {| exn_class_of := UnicodeDecodeError;
                               exn_str := lit "'utf-8' codec can't decode byte" |}
            end
          else raise (os_error PermissionError
                        (lit "[Errno 13] Permission denied") p)
      end
  end.

(** Stable sort by decreasing key: [sorted(..., reverse=True)]. *)
Fixpoint insert_desc (x : pystr * Z) (l : list (pystr * Z))
  : list (pystr * Z) :=
  match l with
  | [] => [x]
  | y :: l' => if Z.ltb (snd x) (snd y) then y :: insert_desc x l'
               else x :: l
  end.

Definition sort_desc (l : list (pystr * Z)) : list (pystr * Z) :=
  fold_right insert_desc [] l.

(** [sorted(paths, key=os.path.getmtime, reverse=True)] *)
Definition sorted_by_mtime_desc (paths : list pystr) : M world (list pystr) :=
  keys <- map_m os_path_getmtime paths ;;
  ret (map fst (sort_desc (combine paths keys))).

(* ================================================================== *)
(** * File management *)
(* ================================================================== *)

(** The body of the loop of [cleanup_on_launch]. *)
Definition cleanup_one (filename : pystr) : M world unit :=
  let file_path := os_path_join OUTPUT_FOLDER filename in
  isfile <- os_path_isfile file_path ;;
  if isfile then
    if negb (pattern_match filename) then
      try_except (os_remove file_path) (fun _ => ret tt)
    else ret tt
  else ret tt.

(** [cleanup_on_launch()] *)
Definition cleanup_on_launch : M world unit :=
  print (lit "Performing startup cleanup...") ;;
  names <- listdir_output ;;
  for_each names cleanup_one.

(** [wav_path.replace(".wav", ".txt")] *)
Definition sidecar_of (wav_path : pystr) : pystr :=
  str_replace (lit ".wav") (lit ".txt") wav_path.

(** The body of the loop of [rotate_files]. *)
Definition rotate_one (wav_path : pystr) : M world unit :=
  try_except
    (os_remove wav_path ;;
     let txt_path := sidecar_of wav_path in
     has_txt <- os_path_exists txt_path ;;
     if has_txt then os_remove txt_path else ret tt)
    (fun e => print (lit "Error rotating files: " ++ exn_str e)).

(** [sorted(glob.glob(os.path.join(OUTPUT_FOLDER, "mira_*.wav")),
            key=os.path.getmtime, reverse=True)], the expression both
    [rotate_files] and [get_history] start with. *)
Definition wav_files_by_mtime : M world (list pystr) :=
  paths <- glob_output_wavs ;;
  sorted_by_mtime_desc paths.

(** [rotate_files()] *)
Definition rotate_files : M world unit :=
  wav_files <- wav_files_by_mtime ;;
  if Nat.ltb MAX_HISTORY (length wav_files) then
    for_each (skipn MAX_HISTORY wav_files) rotate_one
  else ret tt.

(** An item of the history: the keys ['wav'], ['text'] and ['name']. *)
Record history_item := {
  h_wav : pystr;
  h_text : pystr;
  h_name : pystr
}.

Definition NO_TEXT : pystr := lit "No text found".
Definition ELLIPSIS : pystr := lit "...".

(** [(full[:60] + '...') if len(full) > 60 else full] *)
Definition preview_of (full : pystr) : pystr :=
  if Nat.ltb 60 (length full) then firstn 60 full ++ ELLIPSIS else full.

(** The body of the loop of [get_history]. *)
Definition history_item_of (wav_path : pystr) : M world history_item :=
  let txt_path := sidecar_of wav_path in
  has_txt <- os_path_exists txt_path ;;
  preview <- (if has_txt then
                raw <- read_text txt_path ;;
                ret (preview_of (strip raw))
              else ret NO_TEXT) ;;
  ret {| h_wav := wav_path; h_text := preview; h_name := basename wav_path |}.

(** [get_history()] *)
Definition get_history : M world (list history_item) :=
  wav_files <- wav_files_by_mtime ;;
  map_m history_item_of (firstn MAX_HISTORY wav_files).

(* ================================================================== *)
(** * The generate handler *)
(* ================================================================== *)

(** What the handler does, in order: messages to the user interface
    ([st.error], [status.info], [status.success], [prog.progress]), calls
    to the engine, the two writes, the call to [rotate_files],
    [time.sleep(0.5)] and [st.rerun()]. *)
Inductive event (style : Type) :=
| StError (msg : pystr)
| StatusInfo (msg : pystr)
| StatusSuccess (msg : pystr)
| Progress (percent : nat)
| EncodeAudio (path : pystr)
| BatchGenerate (sentences : list pystr) (contexts : list style)
| SfWrite (path : pystr) (samplerate : N)
| TextWrite (path : pystr) (text : pystr)
| RotateFiles
| Sleep
| Rerun.
Arguments StError {style} msg.
Arguments StatusInfo {style} msg.
Arguments StatusSuccess {style} msg.
Arguments Progress {style} percent.
Arguments EncodeAudio {style} path.
Arguments BatchGenerate {style} sentences contexts.
Arguments SfWrite {style} path samplerate.
Arguments TextWrite {style} path text.
Arguments RotateFiles {style}.
Arguments Sleep {style}.
Arguments Rerun {style}.

(** The state of one script run: the host and the events so far. *)
Record session (style : Type) := {
  host : world;
  trace : list (event style)
}.
Arguments host {style} s.
Arguments trace {style} s.

(** The collaborators of the handler that live outside the repository: the
    engine ([encode_audio], [batch_generate]), the conversion of its result
    to a float32 array ([.cpu().numpy()] when there is one, then
    [.astype(np.float32)]) and the serialisation [soundfile] performs. *)
Record collaborators (style tensor array : Type) := {
  encode_audio : pystr -> outcome style;
  batch_generate : list pystr -> list style -> outcome tensor;
  to_float32 : tensor -> outcome array;
  wav_bytes : array -> N -> outcome (list N)
}.

(** The readings of the clock during one request: the text [strftime]
    returns and the modification time the host gives to written files. *)
Record clock := {
  stamp : pystr;
  mtime_now : Z
}.

Definition emit {style : Type} (e : event style) : M (session style) unit :=
  fun s => (Ok tt, {| host := host s; trace := trace s ++ [e] |}).

Definition on_host {style A : Type} (m : M world A) : M (session style) A :=
  fun s =>
    let (r, w) := m (host s) in (r, {| host := w; trace := trace s |}).

Definition truthy_path (p : option pystr) : bool :=
  match p with Some s => truthy s | None => false end.

Definition path_or_empty (p : option pystr) : pystr :=
  match p with Some s => s | None => [] end.

(** The body of [if st.button("Generate Audio", ...)].  [st.rerun()] ends
    the script run; it is the last statement of its branch, so nothing
    follows it here either. *)
Definition generate_clicked {style tensor array : Type}
    (ext : collaborators style tensor array)
    (user_text : pystr) (selected_ref_path : option pystr) (clk : clock)
  : M (session style) unit :=
  if negb (truthy user_text) || negb (truthy_path selected_ref_path) then
    emit (StError (lit "Please provide both text and a reference voice."))
  else
    emit (Progress 0) ;;
    try_except
      ((* 1. Encode Voice Style *)
       emit (StatusInfo (lit "Encoding reference voice...")) ;;
       emit (EncodeAudio (path_or_empty selected_ref_path)) ;;
       context_tokens <-
         lift_outcome (encode_audio ext (path_or_empty selected_ref_path)) ;;
       (* 2. Process Text (Chunked) *)
       let sentences := split_text user_text in
       let total := length sentences in
       (* 3. Batch Generation *)
       if Nat.ltb 0 total then
         emit (StatusInfo (lit "Synthesizing " ++ str_of_nat total
                           ++ lit " sentences...")) ;;
         let batch_contexts := repeat context_tokens total in
         emit (BatchGenerate sentences batch_contexts) ;;
         audio_tensor <-
           lift_outcome (batch_generate ext sentences batch_contexts) ;;
         final_audio <- lift_outcome (to_float32 ext audio_tensor) ;;
         emit (Progress 80) ;;
         (* 4. Save *)
         let timestamp := stamp clk in
         let base := lit "mira_" ++ timestamp in
         let wav_path := os_path_join OUTPUT_FOLDER (base ++ lit ".wav") in
         let txt_path := os_path_join OUTPUT_FOLDER (base ++ lit ".txt") in
         emit (SfWrite wav_path SAMPLE_RATE) ;;
         data <- lift_outcome (wav_bytes ext final_audio SAMPLE_RATE) ;;
         on_host (write_file wav_path data (mtime_now clk)) ;;
         emit (TextWrite txt_path user_text) ;;
         on_host (write_text txt_path user_text (mtime_now clk)) ;;
         emit RotateFiles ;;
         on_host rotate_files ;;
         emit (Progress 100) ;;
         emit (StatusSuccess (lit "Done!")) ;;
         emit Sleep ;;
         emit Rerun
       else ret tt)
      (fun e => emit (StError (lit "Error: " ++ exn_str e))).



(* ================================================================== *)
(** * Notions used to state the properties *)
(* ================================================================== *)

(** A store names each path once. *)
Definition unique_paths (st : store) : Prop := NoDup (map fst st).

(** What [os.path.isfile] says of an entry: it is a regular file, or a
    symbolic link that leads to one. *)
Definition is_regular (n : node) : bool :=
  match n_kind n with RegularFile => true | _ => false end.

(** An entry [cleanup_on_launch] removes: an entry of the output folder
    that [os.path.isfile] accepts, whose name the pattern rejects and that
    the host lets go. *)
Definition stray (e : pystr * node) : bool :=
  match output_name (fst e) with
  | Some name =>
      is_regular (snd e) && negb (pattern_match name) && n_deletable (snd e)
  | None => false
  end.

(** [p in paths] *)
Definition among (paths : list pystr) (p : pystr) : bool :=
  existsb (str_eqb p) paths.

(** A sidecar that [get_history] can read: absent, or a readable regular
    file holding UTF-8. *)
Definition sidecar_ok (st : store) (wav_path : pystr) : bool :=
  match lookup (sidecar_of wav_path) st with
  | None => true
  | Some n =>
      is_regular n && n_readable n
      && match utf8_decode (n_data n) with Some _ => true | None => false end
  end.

(** The steps of a generation proper. *)
Definition is_generation_step {style : Type} (e : event style) : bool :=
  match e with
  | BatchGenerate _ _ | SfWrite _ _ | TextWrite _ _ | RotateFiles => true
  | _ => false
  end.

(** An artifact as it lies in the output folder: the audio file and, when
    there is one, its sidecar. *)
Record artifact := {
  a_stamp : pystr;
  a_mtime : Z;
  a_audio : list N;
  a_text : option (list N)
}.

Definition wav_of (a : artifact) : pystr := wav_path_of (a_stamp a).
Definition txt_of (a : artifact) : pystr := txt_path_of (a_stamp a).

Definition sidecar_nodes (a : artifact) : store :=
  match a_text a with
  | Some text => [(txt_of a, fresh_file (a_mtime a) text)]
  | None => []
  end.

Definition artifact_nodes (a : artifact) : store :=
  (wav_of a, fresh_file (a_mtime a) (a_audio a)) :: sidecar_nodes a.

Definition artifact_names (a : artifact) : list pystr :=
  (base_name (a_stamp a) ++ lit ".wav")
  :: match a_text a with
     | Some _ => [base_name (a_stamp a) ++ lit ".txt"]
     | None => []
     end.

(** The last [n] elements. *)
Definition lastn {A : Type} (n : nat) (l : list A) : list A :=
  skipn (length l - n) l.

(** Strictly increasing. *)
Fixpoint increasing (l : list Z) : Prop :=
  match l with
  | [] => True
  | x :: l' => Forall (fun y => (x < y)%Z) l' /\ increasing l'
  end.



(** ** Collaborators and hosts for the examples *)

(** An engine that encodes every reference to the same style, renders a
    sentence list to its total length, and serialises a length to one
    byte per unit. *)
Definition toy : collaborators unit nat nat :=
  {| encode_audio := fun _ => Ok tt;
     batch_generate := fun ss _ => Ok (length (concat ss));
     to_float32 := fun t => Ok t;
     wav_bytes := fun a _ => Ok (repeat 0%N a) |}.

Definition empty_host : world :=
  {| files := []; out_listable := true; stdout := [] |}.

Definition fresh_session : session unit :=
  {| host := empty_host; trace := [] |}.

Definition a_reference : pystr := REFERENCE_FOLDER ++ lit "voice.wav".

Definition locked_file : node :=
  {| n_kind := RegularFile; n_symlink := false; n_mtime := 3; n_data := [];
     n_readable := true; n_writable := true; n_deletable := false |}.

Definition a_directory : node :=
  {| n_kind := Directory; n_symlink := false; n_mtime := 2; n_data := [];
     n_readable := true; n_writable := true; n_deletable := true |}.

Definition in_output (name : string) : pystr := OUTPUT_FOLDER ++ lit name.

(** An output folder with one artifact pair, a stray file, a stray file the
    host refuses to unlink, and a sub-directory. *)
Definition cluttered_host : world :=
  {| files :=
       [(in_output "mira_20240101-120000.wav", fresh_file 10 [82; 73; 70; 70]%N);
        (in_output "mira_20240101-120000.txt", fresh_file 10 (lit "Hi. Bye."));
        (in_output "notes.md", fresh_file 5 (lit "todo"));
        (in_output "busy.tmp", locked_file);
        (in_output "cache", a_directory)];
     out_listable := true;
     stdout := [] |}.

(** An output folder whose only audio file has a sidecar that is not
    UTF-8. *)
Definition undecodable_host : world :=
  {| files :=
       [(in_output "mira_20240101-120000.wav", fresh_file 10 [82; 73; 70; 70]%N);
        (in_output "mira_20240101-120000.txt", fresh_file 10 [255; 254]%N)];
     out_listable := true;
     stdout := [] |}.

(** An output folder with one audio file and a given transcript. *)
Definition host_with_transcript (text : pystr) : world :=
  {| files :=
       [(in_output "mira_20240101-120000.wav", fresh_file 10 [82; 73; 70; 70]%N);
        (in_output "mira_20240101-120000.txt", fresh_file 10 text)];
     out_listable := true;
     stdout := [] |}.

(** An output folder with one audio file and no sidecar. *)
Definition host_without_sidecar : world :=
  {| files :=
       [(in_output "mira_20240101-120000.wav", fresh_file 10 [82; 73; 70; 70]%N)];
     out_listable := true;
     stdout := [] |}.

Ltac distinct_paths :=
  unfold unique_paths; cbv;
  repeat (apply NoDup_cons; [cbn [In]; intuition discriminate|]);
  apply NoDup_nil.

(** Entries that are not direct entries of the output folder. *)
Definition outside_output (st : store) : Prop :=
  forall p n, In (p, n) st -> output_name p = None.

(** Artifacts in the order of their creation: stamps as [strftime] makes
    them, no stamp twice, modification times strictly increasing. *)
Definition orderly (gs : list artifact) : Prop :=
  Forall (fun a => is_stamp (a_stamp a) = true) gs /\
  NoDup (map a_stamp gs) /\
  increasing (map a_mtime gs).

Definition dot : N := 46.

(** Unfolds the monadic plumbing of the operating-system calls. *)
Ltac run_os :=
  cbv beta iota delta
    [bind ret raise try_except get_files set_files print lift_outcome
     os_remove os_path_exists os_path_isfile os_path_getmtime].

(** Unfolds the plumbing of the handler. *)
Ltac run_ui :=
  cbv beta iota zeta delta
    [bind ret raise try_except emit on_host lift_outcome host trace].









(** An artifact pair left by an earlier generation. *)
Definition earlier_artifact : artifact :=
  {| a_stamp := lit "20240101-115900"; a_mtime := 40;
     a_audio := [82; 73; 70; 70]%N; a_text := Some (lit "Earlier.") |}.

Definition later_clock : clock :=
  {| stamp := lit "20240101-120000"; mtime_now := 100 |}.

(** A session whose output folder holds one earlier artifact pair and whose
    reference folder holds one clip. *)
Definition used_session : session unit :=
  {| host := {| files := (a_reference, fresh_file 1 [82; 73; 70; 70]%N)
                         :: artifact_nodes earlier_artifact;
                out_listable := true;
                stdout := [] |};
     trace := [] |}.

(* ================================================================== *)
(** * The reference store, the voice tab and the start of the script *)
(* ================================================================== *)

(** [save_reference(uploaded_file)]: [name] is [uploaded_file.name], [data]
    what [uploaded_file.getbuffer()] holds. *)
Definition save_reference (name : pystr) (data : list N) (now : Z)
  : M world pystr :=
  let path := os_path_join REFERENCE_FOLDER name in
  write_file path data now ;;
  ret path.

(** The name of [p] inside [REFERENCE_FOLDER], when [p] is one of its
    direct entries. *)
Definition reference_name (p : pystr) : option pystr :=
  match drop_prefix REFERENCE_FOLDER p with
  | Some name =>
      if truthy name && negb (existsb (N.eqb slash) name)
      then Some name else None
  | None => None
  end.

Fixpoint reference_names (st : store) : list pystr :=
  match st with
  | [] => []
  | (p, _) :: st' =>
      match reference_name p with
      | Some name => name :: reference_names st'
      | None => reference_names st'
      end
  end.

(** [f.endswith(('.wav', '.mp3', '.ogg'))] *)
Definition is_voice_name (f : pystr) : bool :=
  endswith (lit ".wav") f || endswith (lit ".mp3") f
  || endswith (lit ".ogg") f.

(** [[f for f in os.listdir(REFERENCE_FOLDER) if f.endswith(...)]];
    [ref_listable] tells whether the host lets the folder be enumerated. *)
Definition list_voices (ref_listable : bool) : M world (list pystr) :=
  fun w =>
    if ref_listable
    then (Ok (filter is_voice_name (reference_names (files w))), w)
    else (Raise (os_error PermissionError
                   (lit "[Errno 13] Permission denied") REFERENCE_FOLDER), w).

(** The tab "Select Voice": [selected_ref_path] after it.  [pick] is the
    position the user chose in the select box. *)
Definition select_voice (ref_listable : bool) (pick : nat)
  : M world (option pystr) :=
  refs <- list_voices ref_listable ;;
  match refs with
  | [] => ret None
  | first :: _ =>
      ret (Some (os_path_join REFERENCE_FOLDER (nth pick refs first)))
  end.

(** [load_engine()]; [construct] is what [MiraTTS('YatharthS/MiraTTS')]
    does, return an engine or raise. *)
Definition load_engine {engine : Type} (construct : outcome engine)
  : M world engine :=
  cleanup_on_launch ;;
  print (lit "Loading MiraTTS Model...") ;;
  lift_outcome construct.

(** How the start of the script ends: with the engine, or with
    [st.error(...)] followed by [st.stop()]. *)
Inductive startup_result (engine : Type) :=
| EngineLoaded (m : engine)
| ScriptStopped (error : pystr).
Arguments EngineLoaded {engine} m.
Arguments ScriptStopped {engine} error.

(** [try: tts_engine = load_engine()
     except Exception as e: st.error(f"Failed to load engine: {e}"); st.stop()] *)
Definition startup {engine : Type} (construct : outcome engine) (w : world)
  : startup_result engine * world :=
  match load_engine construct w with
  | (Ok m, w') => (EngineLoaded m, w')
  | (Raise e, w') =>
      (ScriptStopped (lit "Failed to load engine: " ++ exn_str e), w')
  end.

(* ================================================================== *)
(** * Further notions used to state properties *)
(* ================================================================== *)

(** The code points of [s] that are not whitespace. *)
Definition visible (s : pystr) : pystr :=
  filter (fun c => negb (isspace c)) s.

Definition ends_with_ender (s : pystr) : bool :=
  match rev s with
  | c :: _ => is_ender c
  | [] => false
  end.

(** The store without the entries at the paths [removed]. *)
Definition remove_keys (removed : list pystr) (st : store) : store :=
  filter (fun e => negb (among removed (fst e))) st.

(** The modification time [os.path.getmtime] gives for [p]. *)
Definition mtime_at (st : store) (p : pystr) : Z :=
  match lookup p st with
  | Some n => n_mtime n
  | None => 0%Z
  end.

(** Never increasing. *)
Fixpoint descending (l : list Z) : Prop :=
  match l with
  | [] => True
  | x :: l' => Forall (fun y => (y <= x)%Z) l' /\ descending l'
  end.

(** Newest first. *)
Definition newest_first (st : store) (paths : list pystr) : Prop :=
  descending (map (mtime_at st) paths).

(** What [glob] finds: the paths of the entries of the output folder named
    [mira_*.wav]. *)
Definition audio_paths (w : world) : list pystr :=
  if out_listable w
  then map (os_path_join OUTPUT_FOLDER)
           (filter fnmatch_mira_wav (output_names (files w)))
  else [].

(** Whether [os.stat] succeeds at [p]. *)
Definition can_stat (st : store) (p : pystr) : bool :=
  match lookup p st with Some _ => true | None => false end.

(** Whether [os.stat] succeeds on every path [glob] finds, so that the
    audio files can be ranked by modification time. *)
Definition rankable (w : world) : bool :=
  forallb (can_stat (files w)) (audio_paths w).


(** A path [os.remove] unlinks: an entry that is not a directory and that
    the host lets go. *)
Definition removable (st : store) (p : pystr) : bool :=
  match entry_at p st with
  | Some n => negb (is_directory n) && n_deletable n
  | None => false
  end.

(** A line [rotate_files] prints when a removal fails. *)
Definition is_rotation_error (line : pystr) : bool :=
  startswith (lit "Error rotating files: ") line.

(** Sample artifacts and a host that holds them beside a reference clip. *)
Definition artifact_at (ts : string) (t : Z) (text : option pystr)
  : artifact :=
  {| a_stamp := lit ts; a_mtime := t; a_audio := [82; 73; 70; 70]%N;
     a_text := text |}.

Definition seven_artifacts : list artifact :=
  [artifact_at "20240101-120000" 100 (Some (lit "One."));
   artifact_at "20240101-120001" 101 None;
   artifact_at "20240101-120002" 102 (Some (lit "Three."));
   artifact_at "20240101-120003" 103 (Some (lit "Four."));
   artifact_at "20240101-120004" 104 None;
   artifact_at "20240101-120005" 105 (Some (lit "Six."));
   artifact_at "20240101-120006" 106 (Some (lit "Seven."))].

Definition reference_clip : store :=
  [(a_reference, fresh_file 1 [82; 73; 70; 70]%N)].

Definition archive_host (gs : list artifact) : world :=
  {| files := reference_clip ++ flat_map artifact_nodes gs;
     out_listable := true;
     stdout := [] |}.

(** No path twice, as a test. *)
Fixpoint distinct (l : list pystr) : bool :=
  match l with
  | [] => true
  | x :: l' => negb (among l' x) && distinct l'
  end.

(** A path [open(p, "wb")] can write: a new one, a regular file the host
    lets the process overwrite, or a symbolic link whose missing target the
    host lets it create. *)
Definition writable_or_new (st : store) (p : pystr) : bool :=
  match entry_at p st with
  | None => true
  | Some n => match n_kind n with
              | RegularFile | Dangling => n_writable n
              | Directory | Special => false
              end
  end.

(** A host whose output folder cannot be enumerated. *)
Definition sealed_host : world :=
  {| files := [(in_output "notes.md", fresh_file 5 (lit "todo"))];
     out_listable := false;
     stdout := [] |}.

Definition out_of_memory : exn :=
  {| exn_class_of := RuntimeError; exn_str := lit "CUDA out of memory" |}.

(** Two hosts that agree on whether the output folder can be enumerated and
    on every path that is not a direct entry of it. *)
Definition same_outside (w w' : world) : Prop :=
  out_listable w' = out_listable w /\
  forall p, output_name p = None ->
            entry_at p (files w') = entry_at p (files w).

(** A computation that changes the host, seen through [view], inside the
    output folder only. *)
Definition keeps {S A : Type} (view : S -> world) (m : M S A) : Prop :=
  forall s, same_outside (view s) (view (snd (m s))).

(** The events that write to the output folder or end the script run. *)
Definition writes_or_reruns {style : Type} (e : event style) : bool :=
  match e with
  | SfWrite _ _ | TextWrite _ _ | RotateFiles | Rerun => true
  | _ => false
  end.

(** An engine that encodes a reference and then fails to generate. *)
Definition faulty : collaborators unit nat nat :=
  {| encode_audio := fun _ => Ok tt;
     batch_generate := fun _ _ => Raise out_of_memory;
     to_float32 := fun t => Ok t;
     wav_bytes := fun a _ => Ok (repeat 0%N a) |}.


(** Decides the comparisons of the UTF-8 codec. *)
Ltac bool_true :=
  unfold is_cont, in_range;
  repeat match goal with
         | |- andb _ _ = true => apply andb_true_intro; split
         | |- negb _ = true => apply negb_true_iff
         | |- N.leb _ _ = true => apply N.leb_le; lia
         | |- N.ltb _ _ = false => apply N.ltb_ge; lia
         | |- N.ltb _ _ = true => apply N.ltb_lt; lia
         | |- N.leb _ _ = false => apply N.leb_gt; lia
         | |- andb _ _ = false =>
             apply andb_false_iff; solve [left; bool_true | right; bool_true]
         end.

(** Entries that are neither regular files nor directories. *)
Definition a_dangling_link : node :=
  {| n_kind := Dangling; n_symlink := true; n_mtime := 0; n_data := [];
     n_readable := false; n_writable := false; n_deletable := true |}.

Definition a_fifo : node :=
  {| n_kind := Special; n_symlink := false; n_mtime := 4; n_data := [];
     n_readable := true; n_writable := true; n_deletable := true |}.

Definition a_link_to_a_file : node :=
  {| n_kind := RegularFile; n_symlink := true; n_mtime := 6;
     n_data := lit "elsewhere";
     n_readable := true; n_writable := true; n_deletable := true |}.

Definition a_link_to_a_directory : node :=
  {| n_kind := Directory; n_symlink := true; n_mtime := 7; n_data := [];
     n_readable := true; n_writable := true; n_deletable := true |}.

(** An output folder with eight audio files that were not written in the
    order of their names, two of them with a sidecar, and one other
    file. *)
Definition crowded_host : world :=
  {| files :=
       [(in_output "mira_a.wav", fresh_file 60 [82; 73; 70; 70]%N);
        (in_output "mira_a.txt", fresh_file 60 (lit "A."));
        (in_output "mira_b.wav", fresh_file 10 [82; 73; 70; 70]%N);
        (in_output "mira_c.wav", fresh_file 80 [82; 73; 70; 70]%N);
        (in_output "mira_d.wav", fresh_file 20 [82; 73; 70; 70]%N);
        (in_output "mira_d.txt", fresh_file 20 (lit "D."));
        (in_output "mira_e.wav", fresh_file 40 [82; 73; 70; 70]%N);
        (in_output "mira_f.wav", fresh_file 50 [82; 73; 70; 70]%N);
        (in_output "mira_g.wav", fresh_file 30 [82; 73; 70; 70]%N);
        (in_output "mira_h.wav", fresh_file 70 [82; 73; 70; 70]%N);
        (in_output "notes.md", fresh_file 5 (lit "todo"))];
     out_listable := true;
     stdout := [] |}.



(** An output folder with one audio file and, under other names, a FIFO, a
    symbolic link whose target is gone, a symbolic link to a directory, a
    sub-directory and a symbolic link to a regular file; the host would let
    the process unlink each of them. *)
Definition mixed_host : world :=
  {| files :=
       [(in_output "mira_20240101-120000.wav", fresh_file 10 [82; 73; 70; 70]%N);
        (in_output "pipe", a_fifo);
        (in_output "gone.wav", a_dangling_link);
        (in_output "archive", a_link_to_a_directory);
        (in_output "cache", a_directory);
        (in_output "alias.md", a_link_to_a_file)];
     out_listable := true;
     stdout := [] |}.

(** An output folder with two files the host would let the process unlink
    and whose names the pattern accepts although they are not of the form
    [mira_<8 digits>-<6 digits>.(wav|txt)] in ASCII: one ends with a
    newline, the other is dated in Arabic-Indic digits. *)
Definition odd_names_host : world :=
  {| files :=
       [(OUTPUT_FOLDER ++ lit "mira_20240101-120000.wav" ++ [newline],
         fresh_file 10 [82; 73; 70; 70]%N);
        (OUTPUT_FOLDER ++ lit "mira_"
           ++ [1634; 1632; 1634; 1636; 1632; 1633; 1632; 1633]%N
           ++ lit "-120000.txt",
         fresh_file 11 (lit "Hi."))];
     out_listable := true;
     stdout := [] |}.

(** An output folder with one generation and, beside it, a symbolic link
    named like an audio file whose target is gone. *)
Definition dangling_host : world :=
  {| files :=
       [(in_output "mira_20240101-120000.wav", fresh_file 10 [82; 73; 70; 70]%N);
        (in_output "mira_20240101-120000.txt", fresh_file 10 (lit "Hi. Bye."));
        (in_output "mira_latest.wav", a_dangling_link)];
     out_listable := true;
     stdout := [] |}.

(* ================================================================== *)
(** * Strings: basic facts *)
(* ================================================================== *)

Lemma str_eqb_eq (a b : pystr) : str_eqb a b = true <-> a = b.
Proof.
  revert b; induction a as [|x a IH]; intros [|y b]; simpl;
    try (split; [discriminate | discriminate]); try tauto.
  rewrite andb_true_iff, N.eqb_eq, IH.
  split; [intros [-> ->]; reflexivity | intros E; inversion E; auto].
Qed.

Lemma str_eqb_refl (a : pystr) : str_eqb a a = true.
Proof. apply str_eqb_eq; reflexivity. Qed.

Lemma str_eqb_neq (a b : pystr) : str_eqb a b = false <-> a <> b.
Proof.
  rewrite <- str_eqb_eq. destruct (str_eqb a b); split; congruence.
Qed.

Lemma str_eqb_sym (a b : pystr) : str_eqb a b = str_eqb b a.
Proof.
  destruct (str_eqb b a) eqn:E.
  - apply str_eqb_eq in E. subst. apply str_eqb_refl.
  - apply str_eqb_neq in E. apply str_eqb_neq. congruence.
Qed.

Lemma drop_prefix_app (pre r : pystr) : drop_prefix pre (pre ++ r) = Some r.
Proof.
  induction pre as [|x pre IH]; simpl; [reflexivity|].
  rewrite N.eqb_refl; exact IH.
Qed.

Lemma drop_prefix_Some (pre s r : pystr) :
  drop_prefix pre s = Some r -> s = pre ++ r.
Proof.
  revert s; induction pre as [|x pre IH]; simpl; intros s H.
  - congruence.
  - destruct s as [|y s]; [discriminate|].
    destruct (N.eqb x y) eqn:E; [|discriminate].
    apply N.eqb_eq in E; subst y. f_equal; auto.
Qed.

Lemma is_ender_not_space (c : N) : is_ender c = true -> isspace c = false.
Proof.
  unfold is_ender. rewrite !orb_true_iff, !N.eqb_eq.
  intros [[->| ->]| ->]; reflexivity.
Qed.

Lemma lstrip_split (s : pystr) :
  exists w, s = w ++ lstrip s /\ forallb isspace w = true.
Proof.
  induction s as [|c s [w [E W]]]; simpl.
  - exists []; auto.
  - destruct (isspace c) eqn:C.
    + exists (c :: w); simpl; rewrite C, W; split; [f_equal; exact E | reflexivity].
    + exists []; auto.
Qed.

Lemma lstrip_no_space (s : pystr) : starts_with_space (lstrip s) = false.
Proof.
  induction s as [|c s IH]; simpl; [reflexivity|].
  destruct (isspace c) eqn:C; [exact IH | simpl; exact C].
Qed.

Lemma lstrip_fixed (s : pystr) : starts_with_space s = false -> lstrip s = s.
Proof. destruct s as [|c s]; simpl; [reflexivity | intros ->; reflexivity]. Qed.

Lemma lstrip_idem (s : pystr) : lstrip (lstrip s) = lstrip s.
Proof. apply lstrip_fixed, lstrip_no_space. Qed.

Lemma rstrip_split (s : pystr) :
  exists w, s = rstrip s ++ w /\ forallb isspace w = true.
Proof.
  unfold rstrip. destruct (lstrip_split (rev s)) as [w [E W]].
  exists (rev w). split.
  - rewrite <- rev_app_distr, <- E, rev_involutive; reflexivity.
  - rewrite forallb_forall in *. intros x Hx; apply W, in_rev; exact Hx.
Qed.

Lemma rstrip_keeps_head (s : pystr) :
  starts_with_space s = false -> starts_with_space (rstrip s) = false.
Proof.
  intros H. destruct (rstrip_split s) as [w [E _]].
  destruct (rstrip s) as [|c r]; [reflexivity|].
  rewrite E in H; exact H.
Qed.

(** [strip s] is a slice of [s]. *)
Lemma strip_slice (s : pystr) : exists l r, s = l ++ strip s ++ r.
Proof.
  destruct (lstrip_split s) as [l [El _]].
  destruct (rstrip_split (lstrip s)) as [r [Er _]].
  exists l, r. unfold strip. rewrite <- Er; exact El.
Qed.

Lemma strip_no_leading_space (s : pystr) : starts_with_space (strip s) = false.
Proof. apply rstrip_keeps_head, lstrip_no_space. Qed.

Lemma strip_idem (s : pystr) : strip (strip s) = strip s.
Proof.
  unfold strip at 1.
  rewrite (lstrip_fixed (strip_no_leading_space s)).
  unfold strip, rstrip. rewrite rev_involutive, lstrip_idem; reflexivity.
Qed.

Lemma strip_not_whitespace_only (s : pystr) :
  strip s <> [] -> whitespace_only (strip s) = false.
Proof.
  intros H. pose proof (strip_no_leading_space s) as L.
  destruct (strip s) as [|c r]; [congruence|].
  simpl in *. rewrite L; reflexivity.
Qed.

Lemma truthy_true (s : pystr) : truthy s = true <-> s <> [].
Proof. destruct s; simpl; split; congruence. Qed.

(* ================================================================== *)
(** * Sentence splitter *)
(* ================================================================== *)

Lemma has_split_point_cons (a : N) (s : pystr) :
  has_split_point (a :: s)
  = (is_ender a && starts_with_space s) || has_split_point s.
Proof. destruct s as [|b s]; simpl; [rewrite andb_false_r|]; reflexivity. Qed.

Lemma has_split_point_app (p q : pystr) :
  has_split_point (p ++ q) = false ->
  has_split_point p = false /\ has_split_point q = false.
Proof.
  induction p as [|a p IH]; [simpl; auto|].
  rewrite <- app_comm_cons, !has_split_point_cons, !orb_false_iff.
  intros [H1 H2]. destruct (IH H2) as [Hp Hq]. repeat split; auto.
  destruct p; simpl in *; auto.
  rewrite andb_false_r; reflexivity.
Qed.

Lemma has_split_point_slice (l m r : pystr) :
  has_split_point (l ++ m ++ r) = false -> has_split_point m = false.
Proof.
  intros H. apply has_split_point_app in H as [_ H].
  apply has_split_point_app in H as [H _]. exact H.
Qed.

(** A text without split point is returned whole. *)
Lemma re_split_go_whole (s : pystr) (ae : bool) :
  ae && starts_with_space s = false ->
  has_split_point s = false ->
  re_split_go ae false s = (s, []).
Proof.
  revert ae; induction s as [|c s IH]; intros ae Hae Hs; [reflexivity|].
  rewrite has_split_point_cons in Hs. apply orb_false_iff in Hs as [H1 H2].
  simpl in *. destruct (isspace c) eqn:C.
  - rewrite andb_true_r in Hae; subst ae.
    rewrite IH; auto.
  - rewrite IH; auto.
Qed.

Lemma re_split_whole (s : pystr) :
  has_split_point s = false -> re_split s = [s].
Proof.
  intros H. unfold re_split. rewrite re_split_go_whole; auto.
Qed.

(** Inside a match the look-behind flag is irrelevant, and the match ends
    at the first code point that is not whitespace. *)
Lemma re_split_go_in_sep (ae : bool) (w rest : pystr) :
  forallb isspace w = true ->
  starts_with_space rest = false ->
  re_split_go ae true (w ++ rest) = re_split_go false false rest.
Proof.
  intros W R. induction w as [|c w IH]; simpl in *.
  - destruct rest as [|c rest]; [reflexivity|]. simpl in *. rewrite R; reflexivity.
  - apply andb_true_iff in W as [-> W]. destruct w; simpl in *; auto.
    + destruct rest as [|d rest]; [reflexivity|]. simpl in *; rewrite R; reflexivity.
Qed.

(** The first piece ends at the first split point. *)
Lemma re_split_go_cut (p : pystr) (e : N) (w rest : pystr) (ae : bool) :
  ae && starts_with_space (p ++ [e]) = false ->
  has_split_point (p ++ [e]) = false ->
  is_ender e = true ->
  w <> [] -> forallb isspace w = true ->
  starts_with_space rest = false ->
  re_split_go ae false ((p ++ [e]) ++ w ++ rest) = (p ++ [e], re_split rest).
Proof.
  intros Hae Hp He Hw W R. revert ae Hae Hp.
  induction p as [|c p IH]; intros ae Hae Hp.
  - simpl. rewrite (is_ender_not_space He), He.
    destruct w as [|d w]; [congruence|]. simpl in W.
    apply andb_true_iff in W as [D W]. simpl. rewrite D.
    rewrite re_split_go_in_sep; auto.
    unfold re_split. destruct (re_split_go false false rest); reflexivity.
  - rewrite <- !app_comm_cons in *.
    rewrite has_split_point_cons in Hp. apply orb_false_iff in Hp as [H1 H2].
    simpl in Hae |- *. destruct (isspace c) eqn:C.
    + rewrite andb_true_r in Hae; subst ae.
      rewrite IH; auto.
    + rewrite IH; auto.
Qed.

Lemma re_split_cut (p : pystr) (e : N) (w rest : pystr) :
  has_split_point (p ++ [e]) = false ->
  is_ender e = true ->
  w <> [] -> forallb isspace w = true ->
  starts_with_space rest = false ->
  re_split ((p ++ [e]) ++ w ++ rest) = (p ++ [e]) :: re_split rest.
Proof.
  intros. unfold re_split at 1. rewrite re_split_go_cut; auto.
Qed.

(** Any cutting of the text at its split points is the one [re.split]
    computes. *)
Lemma Pieces_re_split (text : pystr) (ps : list pystr) :
  Pieces text ps -> re_split text = ps.
Proof.
  induction 1 as [p Hp | p e w rest ps Hp He Hw W R _ IH].
  - apply re_split_whole; exact Hp.
  - rewrite re_split_cut; auto. rewrite IH; reflexivity.
Qed.

Lemma first_split_point (s : pystr) :
  has_split_point s = true ->
  exists p e w rest,
    s = (p ++ [e]) ++ w ++ rest /\
    has_split_point (p ++ [e]) = false /\
    is_ender e = true /\
    w <> [] /\ forallb isspace w = true /\
    starts_with_space rest = false.
Proof.
  induction s as [|a tl IH]; [discriminate|].
  rewrite has_split_point_cons.
  destruct (is_ender a && starts_with_space tl) eqn:Hd.
  - intros _. apply andb_true_iff in Hd as [Ha Ht].
    destruct (lstrip_split tl) as [w [E W]].
    exists [], a, w, (lstrip tl). repeat split; auto.
    + simpl. f_equal. exact E.
    + intros ->. simpl in E. rewrite E, lstrip_no_space in Ht. discriminate.
    + apply lstrip_no_space.
  - simpl. intros H. destruct (IH H) as (p & e & w & rest & E & Hp & He & Hw & W & R).
    exists (a :: p), e, w, rest. repeat split; auto.
    + simpl. f_equal. exact E.
    + rewrite <- app_comm_cons, has_split_point_cons, Hp, orb_false_r.
      rewrite E in Hd. destruct p; exact Hd.
Qed.

Lemma Pieces_exist_bounded (n : nat) (s : pystr) :
  length s <= n -> Pieces s (re_split s).
Proof.
  revert s; induction n as [|n IH]; intros s Hn.
  - destruct s; [|simpl in Hn; lia]. apply Pieces_whole; reflexivity.
  - destruct (has_split_point s) eqn:Hs.
    + destruct (first_split_point Hs) as (p & e & w & rest & E & Hp & He & Hw & W & R).
      subst s. rewrite re_split_cut; auto.
      apply Pieces_cut; auto. apply IH.
      rewrite !length_app in Hn. simpl in Hn. lia.
    + rewrite re_split_whole; auto. apply Pieces_whole; exact Hs.
Qed.

Lemma Pieces_exist (s : pystr) : Pieces s (re_split s).
Proof. apply (@Pieces_exist_bounded (length s)); lia. Qed.

Lemma Pieces_no_split_point (text : pystr) (ps : list pystr) :
  Pieces text ps -> Forall (fun p => has_split_point p = false) ps.
Proof. induction 1; constructor; auto. Qed.

Lemma strip_no_split_point (s : pystr) :
  has_split_point s = false -> has_split_point (strip s) = false.
Proof.
  intros H. destruct (strip_slice s) as (l & r & E).
  rewrite E in H. exact (has_split_point_slice H).
Qed.

Lemma split_text_as_spec (text : pystr) :
  split_text text = spec_split (re_split text).
Proof.
  unfold split_text, spec_split.
  induction (re_split text) as [|p ps IH]; simpl; [reflexivity|].
  destruct (truthy (strip p)); simpl; rewrite IH; reflexivity.
Qed.

Lemma split_text_whole (text : pystr) :
  has_split_point text = false ->
  split_text text = if truthy (strip text) then [strip text] else [].
Proof.
  intros H. unfold split_text. rewrite (re_split_whole H). simpl.
  destruct (truthy (strip text)); reflexivity.
Qed.

Lemma split_text_elements (text t : pystr) :
  In t (split_text text) ->
  exists p, In p (re_split text) /\ t = strip p /\ t <> [].
Proof.
  unfold split_text. rewrite in_map_iff.
  intros (p & E & Hp). apply filter_In in Hp as [Hp T].
  exists p. repeat split; auto. subst t. apply truthy_true; exact T.
Qed.

Lemma lstrip_nil_iff (s : pystr) :
  lstrip s = [] <-> whitespace_only s = true.
Proof.
  unfold whitespace_only. induction s as [|c s IH]; cbn; [tauto|].
  destruct (isspace c); cbn; [exact IH | split; discriminate].
Qed.

Lemma whitespace_only_rev (s : pystr) :
  whitespace_only (rev s) = whitespace_only s.
Proof.
  unfold whitespace_only.
  destruct (forallb isspace s) eqn:E.
  - rewrite forallb_forall in *. intros c Hc. apply E, in_rev, Hc.
  - destruct (forallb isspace (rev s)) eqn:R; [|reflexivity].
    rewrite <- E. symmetry. rewrite forallb_forall in *.
    intros c Hc. apply R. rewrite <- in_rev. exact Hc.
Qed.

Lemma lstrip_leading (l s : pystr) :
  whitespace_only l = true -> lstrip (l ++ s) = lstrip s.
Proof.
  unfold whitespace_only. induction l as [|c l IH]; cbn; [reflexivity|].
  intros H. apply andb_true_iff in H as [-> H]. auto.
Qed.

(** Trimming as [strip] does it is trimming as the specification words
    it. *)
Lemma Trimmed_strip (p : pystr) : Trimmed p (strip p).
Proof.
  destruct (lstrip_split p) as (l & El & Wl).
  destruct (rstrip_split (lstrip p)) as (r & Er & Wr).
  exists l, r. split; [unfold strip; rewrite <- Er; exact El|].
  split; [exact Wl|]. split; [exact Wr|].
  split; [apply strip_no_leading_space|].
  unfold ends_with_space, strip, rstrip. rewrite rev_involutive.
  apply lstrip_no_space.
Qed.

(** A string has one trimmed form only. *)
Lemma Trimmed_unique (p s : pystr) : Trimmed p s -> s = strip p.
Proof.
  intros (l & r & -> & Wl & Wr & Hs & He).
  unfold strip. rewrite (lstrip_leading _ Wl).
  destruct s as [|c s].
  - cbn [app]. apply lstrip_nil_iff in Wr. rewrite Wr. reflexivity.
  - rewrite (lstrip_fixed (s := (c :: s) ++ r)) by exact Hs.
    unfold rstrip. rewrite rev_app_distr.
    rewrite lstrip_leading by (rewrite whitespace_only_rev; exact Wr).
    rewrite (lstrip_fixed He). symmetry. apply rev_involutive.
Qed.

Lemma Sentences_spec_split (pieces : list pystr) :
  Sentences pieces (spec_split pieces).
Proof.
  unfold spec_split. induction pieces as [|p ps IH]; [constructor|].
  cbn [map filter]. destruct (truthy (strip p)) eqn:T.
  - apply Sentences_keep; [apply Trimmed_strip | | exact IH].
    apply truthy_true. exact T.
  - apply Sentences_skip; [|exact IH].
    replace [] with (strip p); [apply Trimmed_strip|].
    destruct (strip p); [reflexivity | discriminate].
Qed.

Lemma Sentences_unique (pieces out : list pystr) :
  Sentences pieces out -> out = spec_split pieces.
Proof.
  unfold spec_split.
  induction 1 as [|p ps out T _ IH|p s ps out T Hs _ IH]; [reflexivity| |].
  - cbn [map filter]. rewrite <- (Trimmed_unique T). exact IH.
  - cbn [map filter]. rewrite <- (Trimmed_unique T).
    apply truthy_true in Hs. rewrite Hs, IH. reflexivity.
Qed.

(** C2. For every input, [split_text] returns the trimmed, non-empty pieces
    obtained by cutting the text at every ender ('.', '!', '?') that is
    followed by whitespace, the whitespace run belonging to no piece: the
    result lists the pieces in order, each without the whitespace at its
    two ends, the empty ones left out, and it is the only such list; a text
    without such a split point yields its trimmed self, or nothing when
    that is empty; the three examples of the specification hold, and so do
    two with whitespace around the sentences; and every element of the
    result is non-empty, not whitespace-only, and neither starts nor ends
    with whitespace. *)
Theorem split_text_spec (text : pystr) :
  (exists pieces, Pieces text pieces) /\
  (forall pieces, Pieces text pieces -> split_text text = spec_split pieces) /\
  (forall pieces, Pieces text pieces -> Sentences pieces (split_text text)) /\
  (forall pieces out,
     Pieces text pieces -> Sentences pieces out -> out = split_text text) /\
  (has_split_point text = false ->
   split_text text = if truthy (strip text) then [strip text] else []) /\
  (has_split_point text = false ->
   forall s, Trimmed text s ->
             split_text text = if truthy s then [s] else []) /\
  split_text (lit "Hello world. How are you?")
    = [lit "Hello world."; lit "How are you?"] /\
  split_text (lit "no punctuation here") = [lit "no punctuation here"] /\
  split_text (lit "   ") = [] /\
  split_text (lit "  Hi.  Bye  ") = [lit "Hi."; lit "Bye"] /\
  split_text [9; 79; 110; 101; 33; 10; 9; 84; 119; 111; 63; 13; 10]%N
    = [lit "One!"; lit "Two?"] /\
  Forall (fun s => s <> [] /\ whitespace_only s = false /\ strip s = s)
         (split_text text) /\
  (forall pieces,
     Pieces text pieces ->
     Forall (fun s => starts_with_space s = false /\
                      ends_with_space s = false /\
                      exists p l r,
                        In p pieces /\ p = l ++ s ++ r /\
                        whitespace_only l = true /\ whitespace_only r = true)
            (split_text text)).
Proof.
  split; [exists (re_split text); apply Pieces_exist|].
  split; [intros ps H; rewrite <- (Pieces_re_split H); apply split_text_as_spec|].
  split.
  { intros ps H. rewrite <- (Pieces_re_split H), split_text_as_spec.
    apply Sentences_spec_split. }
  split.
  { intros ps out H S. rewrite <- (Pieces_re_split H) in S.
    rewrite split_text_as_spec. apply Sentences_unique. exact S. }
  split; [apply split_text_whole|].
  split.
  { intros H s T. rewrite (split_text_whole H), <- (Trimmed_unique T).
    reflexivity. }
  do 5 (split; [reflexivity|]).
  split.
  - apply Forall_forall. intros t Ht.
    destruct (split_text_elements Ht) as (p & _ & E & Hne).
    subst t. repeat split; auto.
    + apply strip_not_whitespace_only; exact Hne.
    + apply strip_idem.
  - intros ps H. rewrite <- (Pieces_re_split H).
    apply Forall_forall. intros t Ht.
    destruct (split_text_elements Ht) as (p & Hp & E & Hne).
    destruct (Trimmed_strip p) as (l & r & Ep & Wl & Wr & Hs & He).
    subst t. split; [exact Hs|]. split; [exact He|].
    exists p, l, r. auto.
Qed.

(** C9. [split_text] is idempotent on its own results: every element [t] of
    [split_text x] contains no ender followed by whitespace, and
    [split_text t = [t]]. *)
Theorem split_text_idempotent (x t : pystr) :
  In t (split_text x) ->
  has_split_point t = false /\ split_text t = [t].
Proof.
  intros Ht. destruct (split_text_elements Ht) as (p & Hp & E & Hne).
  assert (Hs : has_split_point t = false).
  { subst t. apply strip_no_split_point.
    pose proof (Pieces_no_split_point (Pieces_exist x)) as F.
    rewrite Forall_forall in F. apply F; exact Hp. }
  split; [exact Hs|].
  rewrite (split_text_whole Hs). subst t. rewrite strip_idem.
  apply truthy_true in Hne. rewrite Hne. reflexivity.
Qed.

Lemma split_text_idempotent_witness :
  In (lit "Bye.") (split_text (lit "Hi. Bye.")) /\
  has_split_point (lit "Bye.") = false /\
  split_text (lit "Bye.") = [lit "Bye."].
Proof.
  split.
  - simpl. right. left. reflexivity.
  - apply (@split_text_idempotent (lit "Hi. Bye.") (lit "Bye.")).
    simpl. right. left. reflexivity.
Defined.

(* ================================================================== *)
(** * The generate handler: requests that do not generate *)
(* ================================================================== *)

Section Handler.

Context {style tensor array : Type}.
Variable ext : collaborators style tensor array.

(** C6. When the text is empty or no reference is selected, the handler
    reports the validation error and does nothing else: the host (every
    file of the reference and output folders) is unchanged, and the only
    event is the error, so neither [encode_audio] nor [batch_generate] is
    called. *)
Theorem validation_error_only
    (user_text : pystr) (selected_ref_path : option pystr) (clk : clock)
    (s : session style) :
  user_text = [] \/ selected_ref_path = None ->
  exists s',
    generate_clicked ext user_text selected_ref_path clk s = (Ok tt, s') /\
    host s' = host s /\
    trace s' = trace s
      ++ [StError (lit "Please provide both text and a reference voice.")].
Proof.
  intros H. unfold generate_clicked.
  assert (C : negb (truthy user_text) || negb (truthy_path selected_ref_path)
              = true).
  { destruct H as [-> | ->]; simpl; [reflexivity | apply orb_true_r]. }
  rewrite C. unfold emit. eexists; split; [reflexivity|]. split; reflexivity.
Qed.

(** C7. When the text is not empty but splits into no sentence, the handler
    leaves the host unchanged and performs no generation step (no
    [batch_generate], no write, no rotation); and once a reference is
    selected and [encode_audio] has returned, it reports nothing: the only
    events are the progress bar, the encoding notice and the call to
    [encode_audio]. *)
Theorem empty_split_is_silent
    (user_text : pystr) (selected_ref_path : option pystr) (clk : clock)
    (s : session style) :
  user_text <> [] ->
  split_text user_text = [] ->
  (exists r s' evs,
     generate_clicked ext user_text selected_ref_path clk s = (r, s') /\
     host s' = host s /\
     trace s' = trace s ++ evs /\
     forallb (fun e => negb (is_generation_step e)) evs = true) /\
  (forall path ctx,
     selected_ref_path = Some path -> path <> [] ->
     encode_audio ext path = Ok ctx ->
     generate_clicked ext user_text selected_ref_path clk s
     = (Ok tt,
        {| host := host s;
           trace := trace s
             ++ [Progress 0;
                 StatusInfo (lit "Encoding reference voice...");
                 EncodeAudio path] |})).
Proof.
  intros Hne Hsplit. apply truthy_true in Hne.
  unfold generate_clicked. rewrite Hne, Hsplit. simpl negb. simpl orb.
  split.
  - destruct (truthy_path selected_ref_path) eqn:Hp; simpl.
    + unfold bind, try_except, emit, lift_outcome; simpl.
      destruct (encode_audio ext (path_or_empty selected_ref_path)) as [ctx|e];
        simpl.
      * do 3 eexists. split; [reflexivity|]. simpl.
        split; [reflexivity|]. split.
        -- rewrite <- !app_assoc. simpl. reflexivity.
        -- reflexivity.
      * do 3 eexists. split; [reflexivity|]. simpl.
        split; [reflexivity|]. split.
        -- rewrite <- !app_assoc. simpl. reflexivity.
        -- reflexivity.
    + unfold emit. do 3 eexists. split; [reflexivity|]. simpl.
      split; [reflexivity|]. split; reflexivity.
  - intros path ctx -> Hpath Henc. apply truthy_true in Hpath.
    simpl. rewrite Hpath. simpl.
    unfold bind, try_except, emit, lift_outcome; simpl.
    rewrite Henc. simpl. rewrite <- !app_assoc. reflexivity.
Qed.

End Handler.

Lemma validation_error_only_witness :
  exists s',
    generate_clicked toy [] (Some a_reference)
      {| stamp := lit "20240101-120000"; mtime_now := 100 |} fresh_session
    = (Ok tt, s') /\
    host s' = host fresh_session /\
    trace s' = trace fresh_session
      ++ [StError (lit "Please provide both text and a reference voice.")].
Proof.
  apply (validation_error_only toy (user_text := [])). left. reflexivity.
Defined.

Lemma empty_split_is_silent_witness :
  lit "   " <> [] /\ split_text (lit "   ") = [] /\
  generate_clicked toy (lit "   ") (Some a_reference)
    {| stamp := lit "20240101-120000"; mtime_now := 100 |} fresh_session
  = (Ok tt,
     {| host := empty_host;
        trace := [Progress 0;
                  StatusInfo (lit "Encoding reference voice...");
                  EncodeAudio a_reference] |}).
Proof.
  split; [discriminate|]. split; [reflexivity|].
  refine (proj2 (empty_split_is_silent toy (user_text := lit "   ")
                   (Some a_reference)
                   {| stamp := lit "20240101-120000"; mtime_now := 100 |}
                   fresh_session _ _) a_reference tt _ _ _);
    try reflexivity; discriminate.
Defined.

(* ================================================================== *)
(** * Running computations *)
(* ================================================================== *)

Lemma bind_ok {S A B : Type} (m : M S A) (k : A -> M S B) (s s' : S) (a : A) :
  m s = (Ok a, s') -> bind m k s = k a s'.
Proof. unfold bind; intros ->; reflexivity. Qed.

Lemma bind_raise {S A B : Type} (m : M S A) (k : A -> M S B) (s s' : S)
      (e : exn) :
  m s = (Raise e, s') -> bind m k s = (Raise e, s').
Proof. unfold bind; intros ->; reflexivity. Qed.

Lemma world_eta (w : world) :
  {| files := files w; out_listable := out_listable w; stdout := stdout w |}
  = w.
Proof. destruct w; reflexivity. Qed.

(* ================================================================== *)
(** * Stores and paths *)
(* ================================================================== *)

Lemma entry_app (p : pystr) (a b : store) :
  entry_at p (a ++ b)
  = match entry_at p a with Some n => Some n | None => entry_at p b end.
Proof.
  induction a as [|[q n] a IH]; simpl; [reflexivity|].
  destruct (str_eqb p q); auto.
Qed.

Lemma entry_None (p : pystr) (st : store) :
  entry_at p st = None <-> ~ In p (map fst st).
Proof.
  induction st as [|[q n] st IH]; simpl; [tauto|].
  destruct (str_eqb p q) eqn:E.
  - apply str_eqb_eq in E. subst. split; [discriminate | tauto].
  - apply str_eqb_neq in E. rewrite IH. split; [intros H [C|C]; auto | tauto].
Qed.

Lemma entry_unique (p : pystr) (n : node) (st : store) :
  unique_paths st -> In (p, n) st -> entry_at p st = Some n.
Proof.
  unfold unique_paths.
  induction st as [|[q m] st IH]; simpl; [tauto|].
  intros U [H|H].
  - inversion H; subst. rewrite str_eqb_refl; reflexivity.
  - inversion U as [|? ? Hq U']; subst.
    destruct (str_eqb p q) eqn:E.
    + apply str_eqb_eq in E; subst q. exfalso. apply Hq.
      change p with (fst (p, n)). apply in_map; exact H.
    + auto.
Qed.

Lemma remove_key_app (p : pystr) (a b : store) :
  remove_key p (a ++ b) = remove_key p a ++ remove_key p b.
Proof. apply filter_app. Qed.

Lemma remove_key_absent (p : pystr) (st : store) :
  ~ In p (map fst st) -> remove_key p st = st.
Proof.
  induction st as [|[q n] st IH]; simpl; [reflexivity|].
  intros H. destruct (str_eqb p q) eqn:E.
  - apply str_eqb_eq in E. subst q. exfalso. apply H. left; reflexivity.
  - simpl. f_equal. apply IH. intros C. apply H. right; exact C.
Qed.

Lemma filter_unique (f : pystr * node -> bool) (st : store) :
  unique_paths st -> unique_paths (filter f st).
Proof.
  unfold unique_paths. induction st as [|e st IH]; simpl; [auto|].
  intros U; inversion U as [|? ? He U']; subst.
  destruct (f e); simpl; auto. constructor; auto.
  intros C. apply He. rewrite in_map_iff in *. destruct C as (x & Ex & Hx).
  apply filter_In in Hx as [Hx _]. exists x; auto.
Qed.

Lemma filter_twice {A : Type} (f g : A -> bool) (l : list A) :
  filter f (filter g l) = filter (fun x => g x && f x) l.
Proof.
  induction l as [|x l IH]; simpl; [reflexivity|].
  destruct (g x); simpl; [destruct (f x)|]; rewrite IH; reflexivity.
Qed.

Lemma startswith_slash_false (name : pystr) :
  existsb (N.eqb slash) name = false -> startswith [slash] name = false.
Proof.
  destruct name as [|c name]; [reflexivity|].
  unfold startswith; simpl. rewrite orb_false_iff. intros [-> _]. reflexivity.
Qed.

Lemma join_output (name : pystr) :
  startswith [slash] name = false ->
  os_path_join OUTPUT_FOLDER name = OUTPUT_FOLDER ++ name.
Proof. unfold os_path_join. intros ->. reflexivity. Qed.

Lemma output_name_Some (p name : pystr) :
  output_name p = Some name ->
  p = OUTPUT_FOLDER ++ name /\ os_path_join OUTPUT_FOLDER name = p /\
  name <> [] /\ existsb (N.eqb slash) name = false.
Proof.
  unfold output_name. destruct (drop_prefix OUTPUT_FOLDER p) as [r|] eqn:E;
    [|discriminate].
  apply drop_prefix_Some in E.
  destruct (truthy r) eqn:T; simpl; [|discriminate].
  destruct (existsb (N.eqb slash) r) eqn:X; simpl; [discriminate|].
  intros H; inversion H; subst r. repeat split; auto.
  - rewrite join_output; auto. apply startswith_slash_false; exact X.
  - apply truthy_true; exact T.
Qed.

Lemma output_name_join (name : pystr) :
  name <> [] -> existsb (N.eqb slash) name = false ->
  output_name (OUTPUT_FOLDER ++ name) = Some name.
Proof.
  intros H X. unfold output_name. rewrite drop_prefix_app.
  apply truthy_true in H. rewrite H, X. reflexivity.
Qed.

Lemma output_names_In (name : pystr) (st : store) :
  In name (output_names st) <->
  exists p n, In (p, n) st /\ output_name p = Some name.
Proof.
  induction st as [|[q m] st IH]; simpl.
  - split; [tauto | intros (p & n & [] & _)].
  - destruct (output_name q) as [nm|] eqn:E; simpl; rewrite ?IH; split.
    + intros [->|(p & n & H & Hp)]; [exists q, m; auto | exists p, n; auto].
    + intros (p & n & [H|H] & Hp).
      * inversion H; subst. left; congruence.
      * right; exists p, n; auto.
    + intros (p & n & H & Hp). exists p, n; auto.
    + intros (p & n & [H|H] & Hp); [inversion H; subst; congruence|].
      exists p, n; auto.
Qed.

Lemma output_names_app (a b : store) :
  output_names (a ++ b) = output_names a ++ output_names b.
Proof.
  induction a as [|[q m] a IH]; simpl; [reflexivity|].
  destruct (output_name q); simpl; rewrite IH; reflexivity.
Qed.

Lemma filter_all {A : Type} (f : A -> bool) (l : list A) :
  (forall x, In x l -> f x = true) -> filter f l = l.
Proof.
  induction l as [|x l IH]; simpl; intros H; [reflexivity|].
  rewrite (H x (or_introl eq_refl)). f_equal. apply IH. intros; apply H; auto.
Qed.

Lemma entry_of_key (st : store) (p : pystr) (n : node) (e : pystr * node) :
  unique_paths st -> entry_at p st = Some n -> In e st -> fst e = p ->
  e = (p, n).
Proof.
  intros U L He Hp. destruct e as [q m]. simpl in Hp; subst q.
  rewrite (entry_unique U He) in L. congruence.
Qed.

Lemma lookup_of_entry (p : pystr) (n : node) (st : store) :
  entry_at p st = Some n -> n_kind n <> Dangling -> lookup p st = Some n.
Proof. unfold lookup. intros -> H. destruct (n_kind n); congruence. Qed.

Lemma lookup_entry (p : pystr) (n : node) (st : store) :
  lookup p st = Some n -> entry_at p st = Some n /\ n_kind n <> Dangling.
Proof.
  unfold lookup. destruct (entry_at p st) as [m|]; [|discriminate].
  destruct (n_kind m) eqn:K; intros H; inversion H; subst;
    split; congruence.
Qed.


Lemma lookup_regular (p : pystr) (n : node) (st : store) :
  entry_at p st = Some n -> is_regular n = true -> lookup p st = Some n.
Proof.
  intros E R. apply (lookup_of_entry E). unfold is_regular in R.
  destruct (n_kind n); congruence.
Qed.

Lemma lookup_fresh (p : pystr) (now : Z) (data : list N) (st : store) :
  entry_at p st = Some (fresh_file now data) ->
  lookup p st = Some (fresh_file now data).
Proof. intros E. apply (lookup_of_entry E). discriminate. Qed.

(** Equal entries are seen alike. *)
Lemma lookup_same (p q : pystr) (a b : store) :
  entry_at p a = entry_at q b -> lookup p a = lookup q b.
Proof. unfold lookup. intros ->. reflexivity. Qed.

Lemma among_In (paths : list pystr) (p : pystr) :
  among paths p = true <-> In p paths.
Proof.
  unfold among. rewrite existsb_exists. split.
  - intros (q & Hq & E). apply str_eqb_eq in E. subst; exact Hq.
  - intros H. exists p. split; [exact H | apply str_eqb_refl].
Qed.

(* ================================================================== *)
(** * Startup cleanup *)
(* ================================================================== *)

Lemma cleanup_one_effect (name : pystr) (w : world) :
  unique_paths (files w) ->
  output_name (OUTPUT_FOLDER ++ name) = Some name ->
  cleanup_one name w
  = (Ok tt,
     {| files := filter (fun e => negb (stray e
                                        && str_eqb (OUTPUT_FOLDER ++ name) (fst e)))
                        (files w);
        out_listable := out_listable w;
        stdout := stdout w |}).
Proof.
  intros U Hn. destruct (output_name_Some Hn) as (_ & J & _ & _).
  unfold cleanup_one. rewrite J. remember (OUTPUT_FOLDER ++ name) as p eqn:Ep.
  assert (Same : forall n, entry_at p (files w) = Some n ->
            stray (p, n) = false ->
            filter (fun e => negb (stray e && str_eqb p (fst e))) (files w)
            = files w).
  { intros n L S. apply filter_all. intros e He.
    destruct (str_eqb p (fst e)) eqn:E; [|rewrite andb_false_r; reflexivity].
    apply str_eqb_eq in E. rewrite (entry_of_key U L He (eq_sym E)), S.
    reflexivity. }
  unfold os_path_isfile, os_remove, get_files, set_files, bind, try_except, ret,
    raise, lookup.
  destruct (entry_at p (files w)) as [n|] eqn:L.
  - assert (Sn : stray (p, n)
                 = is_regular n && negb (pattern_match name) && n_deletable n).
    { unfold stray. simpl. rewrite Hn. reflexivity. }
    unfold is_regular in Sn. unfold is_directory.
    destruct (n_kind n) eqn:K; cbv beta iota; rewrite ?K; cbv beta iota;
      try (rewrite (Same n eq_refl);
           [rewrite world_eta; reflexivity | rewrite Sn; reflexivity]).
    destruct (pattern_match name) eqn:P; cbn [negb andb] in *.
    + rewrite (Same n eq_refl); [rewrite world_eta; reflexivity|].
      rewrite Sn; reflexivity.
    + rewrite L. cbv beta iota. rewrite K. cbv beta iota.
      destruct (n_deletable n) eqn:D.
      * do 2 f_equal. unfold remove_key. apply filter_ext_in.
        intros e He. destruct (str_eqb p (fst e)) eqn:E.
        -- apply str_eqb_eq in E.
           rewrite (entry_of_key U L He (eq_sym E)), Sn. reflexivity.
        -- rewrite andb_false_r. reflexivity.
      * rewrite (Same n eq_refl); [rewrite world_eta; reflexivity|].
        rewrite Sn. reflexivity.
  - rewrite filter_all; [rewrite world_eta; reflexivity|].
    intros e He. destruct (str_eqb p (fst e)) eqn:E;
      [|rewrite andb_false_r; reflexivity].
    apply str_eqb_eq in E. apply entry_None in L. exfalso. apply L.
    rewrite E. apply in_map; exact He.
Qed.

Lemma cleanup_loop (names : list pystr) (w : world) :
  unique_paths (files w) ->
  (forall name, In name names ->
     output_name (OUTPUT_FOLDER ++ name) = Some name) ->
  for_each names cleanup_one w
  = (Ok tt,
     {| files := filter (fun e => negb (stray e
                    && among (map (app OUTPUT_FOLDER) names) (fst e)))
                        (files w);
        out_listable := out_listable w;
        stdout := stdout w |}).
Proof.
  revert w; induction names as [|name names IH]; intros w U Hn.
  - simpl. unfold ret. rewrite filter_all; [rewrite world_eta; reflexivity|].
    intros e _. rewrite andb_false_r; reflexivity.
  - simpl for_each.
    rewrite (bind_ok _ (cleanup_one_effect U (Hn name (or_introl eq_refl)))).
    rewrite IH; cbn [files out_listable stdout];
      [|apply filter_unique; exact U|intros; apply Hn; right; auto].
    do 2 f_equal. rewrite filter_twice. apply filter_ext.
    intros e. cbn [map among existsb]. rewrite (str_eqb_sym (fst e)).
    destruct (stray e); cbn [andb negb]; [|reflexivity].
    destruct (str_eqb (OUTPUT_FOLDER ++ name) (fst e)); reflexivity.
Qed.

Lemma cleanup_on_launch_effect (w : world) :
  out_listable w = true ->
  unique_paths (files w) ->
  cleanup_on_launch w
  = (Ok tt,
     {| files := filter (fun e => negb (stray e)) (files w);
        out_listable := true;
        stdout := stdout w ++ [lit "Performing startup cleanup..."] |}).
Proof.
  intros Hl U. unfold cleanup_on_launch, print, listdir_output, bind.
  cbn [out_listable files]. rewrite Hl.
  rewrite cleanup_loop; cbn [files out_listable stdout]; auto.
  - do 2 f_equal. apply filter_ext_in. intros e He. f_equal.
    destruct (stray e) eqn:S; [|reflexivity]. cbn [andb].
    unfold stray in S. destruct (output_name (fst e)) as [name|] eqn:N;
      [|discriminate].
    apply among_In, in_map_iff. exists name.
    destruct (output_name_Some N) as (E & _). split; [auto|].
    apply output_names_In. exists (fst e), (snd e).
    rewrite <- surjective_pairing. auto.
  - intros name Hn. apply output_names_In in Hn as (p & n & _ & Hp).
    destruct (output_name_Some Hp) as (E & _). rewrite <- E. exact Hp.
Qed.

Lemma cleanup_on_launch_unlistable (w : world) :
  out_listable w = false ->
  files (snd (cleanup_on_launch w)) = files w.
Proof.
  intros Hl. unfold cleanup_on_launch, print, listdir_output, bind.
  cbn [out_listable files]. rewrite Hl. reflexivity.
Qed.

Lemma take_digits_app (ds rest : pystr) :
  forallb isdecimal ds = true ->
  take_digits (length ds) (ds ++ rest) = Some rest.
Proof.
  induction ds as [|d ds IH]; simpl; [reflexivity|].
  intros H. apply andb_true_iff in H as [-> H]. auto.
Qed.


(** The pattern ends in [$], which also matches just before a final
    newline: such a name is kept although it is not of the documented
    form. *)
Example pattern_match_trailing_newline :
  pattern_match (lit "mira_20240101-120000.wav" ++ [newline]) = true /\
  well_named (lit "mira_20240101-120000.wav" ++ [newline]) = false.
Proof. split; reflexivity. Qed.

Lemma take_digits_Some (n : nat) (s r : pystr) :
  take_digits n s = Some r ->
  exists ds, s = ds ++ r /\ length ds = n /\ forallb isdecimal ds = true.
Proof.
  revert s. induction n as [|n IH]; intros s; cbn [take_digits].
  - intros H. injection H as ->. exists []. auto.
  - destruct s as [|c s]; [discriminate|].
    destruct (isdecimal c) eqn:C; [|discriminate].
    intros H. destruct (IH s H) as (ds & -> & L & F).
    exists (c :: ds). cbn [app length forallb]. rewrite C, L, F. auto.
Qed.

Lemma at_dollar_cases (s : pystr) :
  at_dollar s = true <-> s = [] \/ s = [newline].
Proof.
  destruct s as [|c [|d s]]; cbn [at_dollar].
  - split; auto.
  - rewrite N.eqb_eq. split.
    + intros ->. auto.
    + intros [H|H]; [discriminate | congruence].
  - split; [discriminate | intros [H|H]; discriminate].
Qed.

(** The pattern accepts the names of the form [accepted_form] spells out,
    and no other. *)
Lemma pattern_match_accepted (name : pystr) :
  pattern_match name = true <-> accepted_form name.
Proof.
  unfold pattern_match, accepted_form. split.
  - destruct (drop_prefix (lit "mira_") name) as [s1|] eqn:D1;
      cbn [and_then]; [|discriminate].
    destruct (take_digits 8 s1) as [s2|] eqn:T8;
      cbn [and_then]; [|discriminate].
    destruct (drop_prefix (lit "-") s2) as [s3|] eqn:D2;
      cbn [and_then]; [|discriminate].
    destruct (take_digits 6 s3) as [s4|] eqn:T6;
      cbn [and_then]; [|discriminate].
    destruct (drop_prefix (lit ".") s4) as [s5|] eqn:D3; [|discriminate].
    apply drop_prefix_Some in D1, D2, D3.
    apply take_digits_Some in T8 as (date & E8 & L8 & F8).
    apply take_digits_Some in T6 as (time & E6 & L6 & F6).
    destruct (drop_prefix (lit "wav") s5) as [e|] eqn:W.
    + intros A. apply at_dollar_cases in A. apply drop_prefix_Some in W.
      exists date, time, (lit "wav"), e. subst. repeat split; auto.
    + destruct (drop_prefix (lit "txt") s5) as [e|] eqn:X; [|discriminate].
      intros A. apply at_dollar_cases in A. apply drop_prefix_Some in X.
      exists date, time, (lit "txt"), e. subst. repeat split; auto.
  - intros (date & time & ext & tail & -> & L8 & F8 & L6 & F6 & E & T).
    rewrite drop_prefix_app. cbn [and_then].
    pose proof (take_digits_app (lit "-" ++ time ++ lit "." ++ ext ++ tail)
                  F8) as T8.
    rewrite L8 in T8. rewrite T8. cbn [and_then].
    rewrite drop_prefix_app. cbn [and_then].
    pose proof (take_digits_app (lit "." ++ ext ++ tail) F6) as T6.
    rewrite L6 in T6. rewrite T6. cbn [and_then].
    rewrite drop_prefix_app.
    apply at_dollar_cases in T.
    destruct E as [-> | ->].
    + rewrite drop_prefix_app. exact T.
    + replace (drop_prefix (lit "wav") (lit "txt" ++ tail)) with (@None pystr)
        by reflexivity.
      rewrite drop_prefix_app. exact T.
Qed.





(** In [cluttered_host] the cleanup removes [notes.md] and keeps the
    artifact pair. *)
Example cleanup_on_launch_on_a_cluttered_folder :
  ~ accepted_form (lit "notes.md") /\
  map fst (files (snd (cleanup_on_launch cluttered_host)))
  = [in_output "mira_20240101-120000.wav";
     in_output "mira_20240101-120000.txt";
     in_output "busy.tmp";
     in_output "cache"].
Proof.
  split; [|reflexivity].
  intros A. apply pattern_match_accepted in A. discriminate A.
Qed.

(** Two names that are not of the documented form stay, because the
    pattern accepts them: a name that ends with a newline, and a name
    dated in digits other than [0] to [9]. *)
Example cleanup_on_launch_keeps_odd_names :
  Forall (fun e => exists name,
            output_name (fst e) = Some name /\
            accepted_form name /\ plainly_named name = false /\
            removable (files odd_names_host) (fst e) = true)
         (files odd_names_host) /\
  cleanup_on_launch odd_names_host
  = (Ok tt, {| files := files odd_names_host;
               out_listable := true;
               stdout := [lit "Performing startup cleanup..."] |}).
Proof.
  split; [|reflexivity].
  repeat (apply Forall_cons;
          [eexists; split; [reflexivity|];
           split; [apply pattern_match_accepted; reflexivity|];
           split; reflexivity|]).
  apply Forall_nil.
Qed.


(** C10 (amended). [cleanup_on_launch] only removes entries that
    [os.path.isfile] accepts, which are the regular files and the symbolic
    links that lead to one: an entry of any other kind (a directory, a
    FIFO, socket or device, a symbolic link to a directory or to nothing)
    is still there afterwards, unchanged, whatever its name and even where
    [os.remove] would unlink it, and every entry that is gone was one
    [os.path.isfile] accepts. *)
Theorem cleanup_on_launch_spares_non_files (w : world) (e : pystr * node) :
  unique_paths (files w) ->
  In e (files w) ->
  (is_regular (snd e) = false ->
   In e (files (snd (cleanup_on_launch w))) /\
   entry_at (fst e) (files (snd (cleanup_on_launch w))) = Some (snd e)) /\
  (~ In e (files (snd (cleanup_on_launch w))) ->
   n_kind (snd e) = RegularFile /\
   os_path_isfile (fst e) w = (Ok true, w)).
Proof.
  intros U He.
  assert (K : is_regular (snd e) = false ->
              In e (files (snd (cleanup_on_launch w)))).
  { intros R. destruct (out_listable w) eqn:Hl.
    - rewrite (cleanup_on_launch_effect Hl U). cbn [snd files].
      apply filter_In. split; [exact He|].
      unfold stray. destruct (output_name (fst e)); [|reflexivity].
      rewrite R. reflexivity.
    - rewrite (cleanup_on_launch_unlistable Hl). exact He. }
  split.
  - intros R. split; [auto|].
    apply entry_unique.
    + destruct (out_listable w) eqn:Hl.
      * rewrite (cleanup_on_launch_effect Hl U). cbn [snd files].
        apply filter_unique; exact U.
      * rewrite (cleanup_on_launch_unlistable Hl). exact U.
    + rewrite <- surjective_pairing. auto.
  - intros H. assert (R : n_kind (snd e) = RegularFile).
    { unfold is_regular in K. destruct (n_kind (snd e)); auto;
        exfalso; apply H; auto. }
    split; [exact R|]. destruct e as [p n]. cbn [fst snd] in *.
    unfold os_path_isfile. run_os. unfold lookup.
    rewrite (entry_unique U He), R. cbv beta iota. rewrite R. reflexivity.
Qed.

Lemma cleanup_on_launch_spares_non_files_witness :
  In (in_output "pipe", a_fifo)
     (files (snd (cleanup_on_launch mixed_host))) /\
  entry_at (in_output "pipe") (files (snd (cleanup_on_launch mixed_host)))
  = Some a_fifo.
Proof.
  refine (proj1 (@cleanup_on_launch_spares_non_files mixed_host
                   (in_output "pipe", a_fifo) _ _) _).
  - distinct_paths.
  - cbv. tauto.
  - reflexivity.
Defined.

(** In [mixed_host] the guard decides: [os.remove] would unlink the FIFO,
    the two symbolic links that [os.path.isfile] rejects, and refuse only
    the directory; the cleanup leaves all four. *)
Example cleanup_on_launch_guard_decides :
  map (removable (files mixed_host))
      [in_output "pipe"; in_output "gone.wav"; in_output "archive";
       in_output "cache"]
  = [true; true; true; false] /\
  map fst (files (snd (cleanup_on_launch mixed_host)))
  = [in_output "mira_20240101-120000.wav"; in_output "pipe";
     in_output "gone.wav"; in_output "archive"; in_output "cache"].
Proof. split; reflexivity. Qed.

(** The symbolic link [alias.md] of [mixed_host] leads to a regular file:
    the entry is a link, not a regular file, and [cleanup_on_launch]
    unlinks it. *)
Lemma cleanup_on_launch_unlinks_a_link :
  In (in_output "alias.md", a_link_to_a_file) (files mixed_host) /\
  n_symlink a_link_to_a_file = true /\
  pattern_match (lit "alias.md") = false /\
  fst (cleanup_on_launch mixed_host) = Ok tt /\
  entry_at (in_output "alias.md") (files (snd (cleanup_on_launch mixed_host)))
  = None.
Proof.
  split; [cbv; tauto|]. repeat split; reflexivity.
Qed.

(* ================================================================== *)
(** * Listing the audio files *)
(* ================================================================== *)

Lemma glob_paths_exist (w : world) (paths : list pystr) (w' : world) :
  glob_output_wavs w = (Ok paths, w') ->
  w' = w /\ forall p, In p paths -> exists n, In (p, n) (files w).
Proof.
  unfold glob_output_wavs. destruct (out_listable w).
  - intros H; inversion H; subst. split; [reflexivity|].
    intros p Hp. apply in_map_iff in Hp as (name & E & Hn).
    apply filter_In in Hn as [Hn _].
    apply output_names_In in Hn as (q & n & Hq & Ho).
    destruct (output_name_Some Ho) as (_ & J & _). exists n. congruence.
  - intros H; inversion H; subst. split; [reflexivity | intros p []].
Qed.

Lemma insert_desc_perm (x : pystr * Z) (l : list (pystr * Z)) :
  Permutation (insert_desc x l) (x :: l).
Proof.
  induction l as [|y l IH]; cbn [insert_desc]; [reflexivity|].
  destruct (Z.ltb (snd x) (snd y)); [|reflexivity].
  rewrite IH. apply perm_swap.
Qed.

Lemma sort_desc_perm (l : list (pystr * Z)) : Permutation (sort_desc l) l.
Proof.
  induction l as [|x l IH]; [reflexivity|].
  cbn [sort_desc fold_right]. fold (sort_desc l).
  rewrite insert_desc_perm. constructor. exact IH.
Qed.

Lemma insert_desc_sorted (x : pystr * Z) (l : list (pystr * Z)) :
  descending (map snd l) -> descending (map snd (insert_desc x l)).
Proof.
  induction l as [|y l IH]; cbn [insert_desc map descending].
  - intros _. split; [constructor | exact I].
  - intros [Hy Hl]. rewrite Forall_forall in Hy.
    destruct (Z.ltb_spec (snd x) (snd y)) as [Lt|Ge].
    + cbn [map descending]. split; [|auto].
      apply Forall_forall. intros z Hz.
      apply in_map_iff in Hz as (e & <- & He).
      apply (Permutation_in _ (insert_desc_perm x l)) in He.
      destruct He as [<-|He]; [lia|].
      apply Hy. apply in_map; exact He.
    + cbn [map descending]. repeat split; auto.
      * constructor; [exact Ge|].
        apply Forall_forall. intros z Hz. specialize (Hy z Hz). lia.
      * apply Forall_forall; exact Hy.
Qed.

Lemma sort_desc_sorted (l : list (pystr * Z)) :
  descending (map snd (sort_desc l)).
Proof.
  induction l as [|x l IH]; [exact I|].
  cbn [sort_desc fold_right]. apply insert_desc_sorted. exact IH.
Qed.

Lemma descending_app (a b : list Z) :
  descending (a ++ b) ->
  descending a /\ descending b /\
  forall x y, In x a -> In y b -> (y <= x)%Z.
Proof.
  induction a as [|z a IH]; cbn [app descending].
  - intros H. repeat split; auto. intros x y [].
  - intros [Hz H]. destruct (IH H) as (Ha & Hb & Hab).
    apply Forall_app in Hz as [Hza Hzb]. repeat split; auto.
    intros x y [<-|Hx] Hy; [|auto].
    rewrite Forall_forall in Hzb. auto.
Qed.

Lemma glob_is_audio_paths (w : world) :
  glob_output_wavs w = (Ok (audio_paths w), w).
Proof.
  unfold glob_output_wavs, audio_paths. destruct (out_listable w); reflexivity.
Qed.

Lemma audio_paths_exist (w : world) (p : pystr) :
  In p (audio_paths w) -> exists n, In (p, n) (files w).
Proof.
  intros H. exact (proj2 (glob_paths_exist (glob_is_audio_paths w)) p H).
Qed.

Lemma combine_with_map {A B : Type} (g : A -> B) (l : list A) :
  combine l (map g l) = map (fun x => (x, g x)) l.
Proof. induction l; cbn; congruence. Qed.

Lemma getmtime_cases (p : pystr) (w : world) :
  match lookup p (files w) with
  | Some n => os_path_getmtime p w = (Ok (n_mtime n), w)
  | None => exists e, os_path_getmtime p w = (Raise e, w) /\
                      exn_class_of e = FileNotFoundError
  end.
Proof.
  unfold os_path_getmtime, bind, get_files.
  destruct (lookup p (files w)); [reflexivity|].
  eexists. split; reflexivity.
Qed.

Lemma getmtime_outcome (paths : list pystr) (w : world) :
  if forallb (can_stat (files w)) paths
  then map_m os_path_getmtime paths w
       = (Ok (map (mtime_at (files w)) paths), w)
  else exists e,
         map_m os_path_getmtime paths w = (Raise e, w) /\
         exn_class_of e = FileNotFoundError.
Proof.
  induction paths as [|p paths IH]; [reflexivity|].
  cbn [forallb map map_m]. unfold can_stat at 1, mtime_at at 1.
  pose proof (getmtime_cases p w) as C.
  destruct (lookup p (files w)) as [n|]; cbn [andb].
  - rewrite (bind_ok _ C).
    destruct (forallb (can_stat (files w)) paths).
    + rewrite (bind_ok _ IH). reflexivity.
    + destruct IH as (e & E & K). exists e.
      rewrite (bind_raise _ E). auto.
  - destruct C as (e & E & K). exists e. rewrite (bind_raise _ E). auto.
Qed.

(** The ranking both [rotate_files] and [get_history] start with: it
    returns the audio files sorted when [os.stat] succeeds on each of
    them, and raises [FileNotFoundError] otherwise, nothing being
    changed. *)
Lemma wav_files_by_mtime_outcome (w : world) :
  if rankable w
  then wav_files_by_mtime w
       = (Ok (map fst (sort_desc
                (map (fun p => (p, mtime_at (files w) p)) (audio_paths w)))),
          w)
  else exists e,
         wav_files_by_mtime w = (Raise e, w) /\
         exn_class_of e = FileNotFoundError.
Proof.
  unfold wav_files_by_mtime. rewrite (bind_ok _ (glob_is_audio_paths w)).
  unfold sorted_by_mtime_desc, rankable.
  pose proof (getmtime_outcome (audio_paths w) w) as G.
  destruct (forallb (can_stat (files w)) (audio_paths w)).
  - rewrite (bind_ok _ G). unfold ret. rewrite combine_with_map. reflexivity.
  - destruct G as (e & E & C). exists e. rewrite (bind_raise _ E). auto.
Qed.

Lemma wav_files_by_mtime_world (w : world) :
  snd (wav_files_by_mtime w) = w.
Proof.
  pose proof (wav_files_by_mtime_outcome w) as H.
  destruct (rankable w); [rewrite H; reflexivity|].
  destruct H as (e & -> & _). reflexivity.
Qed.

Lemma wav_files_Ok_rankable (w w' : world) (ranked : list pystr) :
  wav_files_by_mtime w = (Ok ranked, w') -> rankable w = true.
Proof.
  intros H. pose proof (wav_files_by_mtime_outcome w) as O.
  destruct (rankable w); [reflexivity|].
  destruct O as (e & E & _). congruence.
Qed.

(** The listing is the audio files of the folder, newest first. *)
Lemma wav_files_ranked (w w' : world) (ranked : list pystr) :
  wav_files_by_mtime w = (Ok ranked, w') ->
  w' = w /\ Permutation ranked (audio_paths w) /\
  newest_first (files w) ranked.
Proof.
  intros H. pose proof (wav_files_by_mtime_outcome w) as O.
  rewrite (wav_files_Ok_rankable H) in O. rewrite O in H.
  injection H as <- <-.
  set (l := map (fun p => (p, mtime_at (files w) p)) (audio_paths w)).
  assert (Hl : forall e, In e (sort_desc l) ->
                         snd e = mtime_at (files w) (fst e)).
  { intros e He. apply (Permutation_in _ (sort_desc_perm l)) in He.
    apply in_map_iff in He as (p & <- & _). reflexivity. }
  split; [reflexivity|]. split.
  - rewrite (Permutation_map fst (sort_desc_perm l)). unfold l.
    rewrite map_map. cbn [fst]. rewrite map_id. reflexivity.
  - unfold newest_first. rewrite map_map.
    rewrite <- (map_ext_in _ _ _ Hl). apply sort_desc_sorted.
Qed.

Lemma rankable_forall (w : world) :
  rankable w = true <->
  forall p, In p (audio_paths w) -> lookup p (files w) <> None.
Proof.
  unfold rankable. rewrite forallb_forall. unfold can_stat.
  split; intros H p Hp; specialize (H p Hp);
    destruct (lookup p (files w)); congruence.
Qed.

Lemma forallb_false_exists {A : Type} (f : A -> bool) (l : list A) :
  forallb f l = false -> exists x, In x l /\ f x = false.
Proof.
  induction l as [|x l IH]; [discriminate|].
  cbn [forallb]. destruct (f x) eqn:F; cbn [andb].
  - intros H. destruct (IH H) as (y & Hy & Fy). exists y. split; [right|]; auto.
  - intros _. exists x. split; [left; reflexivity | exact F].
Qed.

Lemma not_rankable_exists (w : world) :
  rankable w = false <->
  exists p, In p (audio_paths w) /\ lookup p (files w) = None.
Proof.
  unfold rankable. split.
  - intros H. destruct (forallb_false_exists H) as (p & Hp & C).
    exists p. split; [exact Hp|]. unfold can_stat in C.
    destruct (lookup p (files w)); [discriminate | reflexivity].
  - intros (p & Hp & L).
    destruct (forallb (can_stat (files w)) (audio_paths w)) eqn:F;
      [|reflexivity].
    rewrite forallb_forall in F. specialize (F p Hp).
    unfold can_stat in F. rewrite L in F. discriminate.
Qed.

Lemma wav_files_by_mtime_unlistable (w : world) :
  out_listable w = false -> wav_files_by_mtime w = (Ok [], w).
Proof.
  intros H. unfold wav_files_by_mtime, glob_output_wavs, bind. rewrite H.
  reflexivity.
Qed.

(* ================================================================== *)
(** * History *)
(* ================================================================== *)

(** The three ways [history_item_of] can end. *)
Lemma history_item_of_cases (p : pystr) (w : world) :
  match lookup (sidecar_of p) (files w) with
  | None =>
      history_item_of p w
      = (Ok {| h_wav := p; h_text := NO_TEXT; h_name := basename p |}, w)
  | Some n =>
      match utf8_decode (n_data n) with
      | Some raw =>
          if is_regular n && n_readable n then
            history_item_of p w
            = (Ok {| h_wav := p;
                     h_text := preview_of (strip (universal_newlines raw));
                     h_name := basename p |}, w)
          else exists e, history_item_of p w = (Raise e, w)
      | None => exists e, history_item_of p w = (Raise e, w)
      end
  end.
Proof.
  unfold history_item_of, os_path_exists, read_text, get_files, bind, ret,
    raise, is_regular.
  destruct (lookup (sidecar_of p) (files w)) as [n|] eqn:L; [|reflexivity].
  rewrite L.
  destruct (utf8_decode (n_data n)) as [raw|];
    destruct (n_kind n); cbn [andb]; try (eexists; reflexivity);
    destruct (n_readable n); try (eexists; reflexivity); reflexivity.
Qed.

Lemma history_item_of_Ok (p : pystr) (w w' : world) (it : history_item) :
  history_item_of p w = (Ok it, w') ->
  w' = w /\ h_wav it = p /\ h_name it = basename p /\
  match lookup (sidecar_of p) (files w) with
  | None => h_text it = NO_TEXT
  | Some n =>
      exists raw, utf8_decode (n_data n) = Some raw /\
        h_text it = preview_of (strip (universal_newlines raw))
  end.
Proof.
  intros H. pose proof (history_item_of_cases p w) as C.
  destruct (lookup (sidecar_of p) (files w)) as [n|].
  - destruct (utf8_decode (n_data n)) as [raw|].
    + destruct (is_regular n && n_readable n).
      * rewrite C in H. inversion H; subst. repeat split; auto.
        exists raw; auto.
      * destruct C as (e & C). congruence.
    + destruct C as (e & C). congruence.
  - rewrite C in H. inversion H; subst. repeat split; auto.
Qed.

Lemma history_item_of_sidecar_ok (p : pystr) (w : world) :
  sidecar_ok (files w) p = true ->
  exists it, history_item_of p w = (Ok it, w).
Proof.
  unfold sidecar_ok. intros H. pose proof (history_item_of_cases p w) as C.
  destruct (lookup (sidecar_of p) (files w)) as [n|].
  - destruct (utf8_decode (n_data n)) as [raw|].
    + apply andb_true_iff in H as [H _]. rewrite H in C. eauto.
    + rewrite andb_false_r in H. discriminate.
  - eauto.
Qed.

Lemma history_items_Ok (ps : list pystr) (w w' : world)
      (h : list history_item) :
  map_m history_item_of ps w = (Ok h, w') ->
  w' = w /\ Forall2 (fun p it => history_item_of p w = (Ok it, w)) ps h.
Proof.
  revert h w'; induction ps as [|p ps IH]; intros h w' H.
  - inversion H; subst. split; [reflexivity | constructor].
  - cbn [map_m] in H. unfold bind at 1 in H.
    destruct (history_item_of p w) as [[it|e] w1] eqn:E; [|discriminate].
    destruct (history_item_of_Ok E) as (-> & _).
    unfold bind at 1 in H.
    destruct (map_m history_item_of ps w) as [[h1|e] w2] eqn:E1; [|discriminate].
    destruct (IH _ _ eq_refl) as [-> F].
    inversion H; subst. split; [reflexivity|]. constructor; auto.
Qed.

Lemma history_items_total (ps : list pystr) (w : world) :
  Forall (fun p => sidecar_ok (files w) p = true) ps ->
  exists h, map_m history_item_of ps w = (Ok h, w).
Proof.
  induction 1 as [|p ps Hp _ (h & IH)].
  - exists []. reflexivity.
  - destruct (history_item_of_sidecar_ok Hp) as (it & E).
    exists (it :: h). cbn [map_m].
    rewrite (bind_ok _ E), (bind_ok _ IH). reflexivity.
Qed.

Lemma history_item_not_ok (p : pystr) (w : world) :
  sidecar_ok (files w) p = false ->
  exists e, history_item_of p w = (Raise e, w).
Proof.
  unfold sidecar_ok. intros H. pose proof (history_item_of_cases p w) as C.
  destruct (lookup (sidecar_of p) (files w)) as [n|]; [|discriminate].
  destruct (utf8_decode (n_data n)) as [raw|]; [|exact C].
  rewrite andb_true_r in H. rewrite H in C. exact C.
Qed.

Lemma history_items_raise (ps : list pystr) (w : world) :
  Exists (fun p => sidecar_ok (files w) p = false) ps ->
  exists e, map_m history_item_of ps w = (Raise e, w).
Proof.
  induction ps as [|p ps IH]; intros H; [inversion H|].
  cbn [map_m]. destruct (sidecar_ok (files w) p) eqn:S.
  - destruct (history_item_of_sidecar_ok S) as (it & E).
    rewrite (bind_ok _ E).
    destruct IH as (e & IH); [inversion H; subst; [congruence | assumption]|].
    exists e. rewrite (bind_raise _ IH). reflexivity.
  - destruct (history_item_not_ok S) as (e & E).
    exists e. rewrite (bind_raise _ E). reflexivity.
Qed.

(** C3 (amended). [get_history] has no exception handling of its own.  When
    the output folder cannot be enumerated, [glob] yields nothing and the
    empty list is returned.  When [os.stat] fails on a listed audio file, a
    symbolic link whose target is gone, ranking the files raises
    [FileNotFoundError], whatever the sidecars are.  Otherwise the audio
    files are ranked newest first, and [get_history] returns one item for
    each of the first five as long as every sidecar present among them is
    a readable regular file holding UTF-8, an item whose sidecar is absent
    carrying the placeholder ["No text found"]; when one of these sidecars
    cannot be read or decoded, the exception propagates and no list is
    returned.  The host is unchanged in every case. *)
Theorem get_history_outcomes (w : world) :
  (out_listable w = false -> get_history w = (Ok [], w)) /\
  ((exists p, In p (audio_paths w) /\ lookup p (files w) = None) ->
   exists e,
     get_history w = (Raise e, w) /\
     exn_class_of e = FileNotFoundError) /\
  ((forall p, In p (audio_paths w) -> lookup p (files w) <> None) ->
   exists ranked,
     wav_files_by_mtime w = (Ok ranked, w) /\
     Permutation ranked (audio_paths w) /\
     newest_first (files w) ranked /\
     (Forall (fun p => sidecar_ok (files w) p = true)
             (firstn MAX_HISTORY ranked) ->
      exists h,
        get_history w = (Ok h, w) /\
        map h_wav h = firstn MAX_HISTORY ranked /\
        Forall (fun it =>
                  lookup (sidecar_of (h_wav it)) (files w) = None ->
                  h_text it = NO_TEXT) h) /\
     (Exists (fun p => sidecar_ok (files w) p = false)
             (firstn MAX_HISTORY ranked) ->
      exists e, get_history w = (Raise e, w))).
Proof.
  split; [|split].
  - intros H. unfold get_history.
    rewrite (bind_ok _ (wav_files_by_mtime_unlistable H)). reflexivity.
  - intros H. apply not_rankable_exists in H.
    pose proof (wav_files_by_mtime_outcome w) as O. rewrite H in O.
    destruct O as (e & E & C). exists e. unfold get_history.
    rewrite (bind_raise _ E). auto.
  - intros H. apply rankable_forall in H.
    pose proof (wav_files_by_mtime_outcome w) as R. rewrite H in R.
    eexists. split; [exact R|].
    destruct (wav_files_ranked R) as (_ & P & S).
    split; [exact P|]. split; [exact S|]. split.
    + intros Hs. destruct (history_items_total Hs) as (h & E).
      exists h. unfold get_history. rewrite (bind_ok _ R).
      split; [exact E|].
      destruct (history_items_Ok E) as [_ F].
      clear E Hs. induction F as [|p it ps h Hit F [IH1 IH2]].
      * split; [reflexivity | constructor].
      * destruct (history_item_of_Ok Hit) as (_ & Hw & _ & Ht).
        split; [cbn [map]; congruence|].
        constructor; [|exact IH2].
        intros L. rewrite Hw in L. rewrite L in Ht. exact Ht.
    + intros Hs. destruct (history_items_raise Hs) as (e & E).
      exists e. unfold get_history. rewrite (bind_ok _ R). exact E.
Qed.

(** An audio file without sidecar is listed with the placeholder. *)
Example get_history_without_sidecar :
  get_history host_without_sidecar
  = (Ok [{| h_wav := in_output "mira_20240101-120000.wav";
            h_text := lit "No text found";
            h_name := lit "mira_20240101-120000.wav" |}],
     host_without_sidecar).
Proof. reflexivity. Qed.

(** The audio file of [undecodable_host] has a sidecar whose bytes are not
    UTF-8: reading it fails, and [get_history] raises instead of returning
    a list. *)
Lemma get_history_raises :
  lookup (sidecar_of (in_output "mira_20240101-120000.wav"))
         (files undecodable_host)
  = Some (fresh_file 10 [255; 254]%N) /\
  utf8_decode [255; 254]%N = None /\
  exists e,
    get_history undecodable_host = (Raise e, undecodable_host) /\
    exn_class_of e = UnicodeDecodeError.
Proof.
  split; [reflexivity|]. split; [reflexivity|].
  eexists. split; reflexivity.
Qed.

(** A symbolic link named like an audio file whose target is gone:
    [get_history] raises while ranking, although every sidecar is fine. *)
Example get_history_raises_on_a_dangling_link :
  In (in_output "mira_latest.wav") (audio_paths dangling_host) /\
  entry_at (in_output "mira_latest.wav") (files dangling_host)
  = Some a_dangling_link /\
  lookup (in_output "mira_latest.wav") (files dangling_host) = None /\
  exists e,
    get_history dangling_host = (Raise e, dangling_host) /\
    exn_class_of e = FileNotFoundError.
Proof.
  split; [right; left; reflexivity|]. do 2 (split; [reflexivity|]).
  eexists. split; reflexivity.
Qed.

(** C4 (amended). The preview of an item of [get_history] whose sidecar
    decodes to [raw] is computed from the transcript as read and trimmed
    of surrounding whitespace: the trimmed transcript itself when it has at
    most 60 characters, its first 60 characters followed by ["..."] when it
    has more; so a trimmed transcript of 61 characters is cut and one of 60
    is shown whole. *)
Theorem history_preview (w w' : world) (h : list history_item)
    (it : history_item) (n : node) (raw : pystr) :
  get_history w = (Ok h, w') ->
  In it h ->
  lookup (sidecar_of (h_wav it)) (files w) = Some n ->
  utf8_decode (n_data n) = Some raw ->
  let full := strip (universal_newlines raw) in
  (length full <= 60 -> h_text it = full) /\
  (60 < length full -> h_text it = firstn 60 full ++ lit "...") /\
  (length full = 61 -> h_text it = firstn 60 full ++ lit "...") /\
  (length full = 60 -> h_text it = full).
Proof.
  intros G Hin L D full.
  assert (T : h_text it = preview_of full).
  { unfold get_history in G. unfold bind at 1 in G.
    destruct (wav_files_by_mtime w) as [[ranked|e] w1] eqn:R; [|discriminate].
    destruct (wav_files_ranked R) as (-> & _).
    destruct (history_items_Ok G) as [_ F].
    clear G R. induction F as [|p it' ps h Hit F IH]; [destruct Hin|].
    destruct Hin as [->|Hin]; [|auto].
    destruct (history_item_of_Ok Hit) as (_ & Hw & _ & Ht).
    rewrite Hw in L. rewrite L in Ht. destruct Ht as (raw' & D' & Ht).
    rewrite D in D'. inversion D'; subst raw'. exact Ht. }
  rewrite T. unfold preview_of.
  repeat split; intros H.
  - destruct (Nat.ltb_spec 60 (length full)); [lia | reflexivity].
  - destruct (Nat.ltb_spec 60 (length full)); [reflexivity | lia].
  - rewrite H. reflexivity.
  - rewrite H. reflexivity.
Qed.

Lemma history_preview_witness :
  let item := {| h_wav := in_output "mira_20240101-120000.wav";
                 h_text := repeat 97%N 60 ++ lit "...";
                 h_name := lit "mira_20240101-120000.wav" |} in
  get_history (host_with_transcript (repeat 97%N 61))
  = (Ok [item], host_with_transcript (repeat 97%N 61)) /\
  h_text item = firstn 60 (repeat 97%N 61) ++ lit "...".
Proof.
  intros item.
  assert (G : get_history (host_with_transcript (repeat 97%N 61))
              = (Ok [item], host_with_transcript (repeat 97%N 61)))
    by reflexivity.
  split; [exact G|].
  refine (proj1 (proj2 (proj2
    (@history_preview _ _ [item] item (fresh_file 10 (repeat 97%N 61))
       (repeat 97%N 61) G _ _ _))) _).
  - left; reflexivity.
  - reflexivity.
  - reflexivity.
  - reflexivity.
Defined.

(** The transcript made of sixty letters and a final newline has 61
    characters, and its preview is the sixty letters with no ellipsis. *)
Lemma preview_of_61_characters_not_cut :
  let transcript := repeat 97%N 60 ++ [newline] in
  length transcript = 61 /\
  utf8_encode transcript = Some transcript /\
  exists item,
    get_history (host_with_transcript transcript)
    = (Ok [item], host_with_transcript transcript) /\
    h_text item = repeat 97%N 60 /\
    h_text item <> firstn 60 transcript ++ lit "...".
Proof.
  split; [reflexivity|]. split; [reflexivity|].
  eexists. split; [reflexivity|]. split; [reflexivity|].
  cbv. discriminate.
Qed.

(* ================================================================== *)
(** * Artifact names *)
(* ================================================================== *)

Lemma wav_path_of_eq (ts : pystr) :
  wav_path_of ts = OUTPUT_FOLDER ++ base_name ts ++ lit ".wav".
Proof. reflexivity. Qed.

Lemma txt_path_of_eq (ts : pystr) :
  txt_path_of ts = OUTPUT_FOLDER ++ base_name ts ++ lit ".txt".
Proof. reflexivity. Qed.

Lemma wav_path_of_inj (a b : pystr) : wav_path_of a = wav_path_of b -> a = b.
Proof.
  rewrite !wav_path_of_eq. unfold base_name. intros H.
  apply app_inv_head in H. rewrite <- !app_assoc in H.
  apply app_inv_head in H. apply app_inv_tail in H. exact H.
Qed.

Lemma txt_path_of_inj (a b : pystr) : txt_path_of a = txt_path_of b -> a = b.
Proof.
  rewrite !txt_path_of_eq. unfold base_name. intros H.
  apply app_inv_head in H. rewrite <- !app_assoc in H.
  apply app_inv_head in H. apply app_inv_tail in H. exact H.
Qed.

Lemma wav_path_not_txt_path (a b : pystr) : wav_path_of a <> txt_path_of b.
Proof.
  rewrite wav_path_of_eq, txt_path_of_eq. intros H.
  apply (f_equal (@rev N)) in H. rewrite !rev_app_distr in H.
  cbn in H. discriminate.
Qed.

Lemma is_stamp_chars (ts : pystr) :
  is_stamp ts = true ->
  Forall (fun c => ascii_digit c = true \/ c = 45%N) ts.
Proof.
  unfold is_stamp. rewrite !andb_true_iff. intros [[[_ D8] H] D6].
  rewrite <- (firstn_skipn 8 ts). apply Forall_app. split.
  - apply Forall_forall. intros c Hc. left.
    rewrite forallb_forall in D8. auto.
  - rewrite <- (firstn_skipn 1 (skipn 8 ts)), skipn_skipn.
    apply Forall_app. split.
    + apply str_eqb_eq in H. rewrite H. constructor; [right; reflexivity|constructor].
    + apply Forall_forall. intros c Hc. left.
      rewrite forallb_forall in D6. auto.
Qed.

Lemma stamp_char_cases (c : N) :
  ascii_digit c = true \/ c = 45%N ->
  N.eqb slash c = false /\ N.eqb dot c = false /\ isdecimal c = true \/ c = 45%N.
Proof.
  intros [H|H]; [left | right; exact H].
  unfold ascii_digit, in_range in H. apply andb_true_iff in H as [H1 H2].
  apply N.leb_le in H1, H2. repeat split.
  - apply N.eqb_neq. unfold slash. lia.
  - apply N.eqb_neq. unfold dot. lia.
  - unfold isdecimal. apply existsb_exists. exists 48%N.
    split; [left; reflexivity|]. unfold in_range.
    apply andb_true_iff; split; apply N.leb_le; lia.
Qed.

Lemma is_stamp_no_slash (ts : pystr) :
  is_stamp ts = true -> existsb (N.eqb slash) ts = false.
Proof.
  intros H. apply is_stamp_chars in H.
  induction H as [|c ts Hc _ IH]; [reflexivity|].
  cbn [existsb]. rewrite IH, orb_false_r.
  destruct (stamp_char_cases Hc) as [(S & _)| ->]; [exact S | reflexivity].
Qed.

Lemma is_stamp_no_dot (ts : pystr) :
  is_stamp ts = true -> existsb (N.eqb dot) ts = false.
Proof.
  intros H. apply is_stamp_chars in H.
  induction H as [|c ts Hc _ IH]; [reflexivity|].
  cbn [existsb]. rewrite IH, orb_false_r.
  destruct (stamp_char_cases Hc) as [(_ & D & _)| ->]; [exact D | reflexivity].
Qed.

Lemma existsb_app_false {A : Type} (f : A -> bool) (a b : list A) :
  existsb f a = false -> existsb f b = false -> existsb f (a ++ b) = false.
Proof. intros Ha Hb. rewrite existsb_app, Ha, Hb. reflexivity. Qed.

Lemma output_name_wav (ts : pystr) :
  is_stamp ts = true ->
  output_name (wav_path_of ts) = Some (base_name ts ++ lit ".wav").
Proof.
  intros H. rewrite wav_path_of_eq. apply output_name_join.
  - unfold base_name. discriminate.
  - unfold base_name. rewrite <- app_assoc.
    apply existsb_app_false; [reflexivity|].
    apply existsb_app_false; [apply is_stamp_no_slash; exact H | reflexivity].
Qed.

Lemma output_name_txt (ts : pystr) :
  is_stamp ts = true ->
  output_name (txt_path_of ts) = Some (base_name ts ++ lit ".txt").
Proof.
  intros H. rewrite txt_path_of_eq. apply output_name_join.
  - unfold base_name. discriminate.
  - unfold base_name. rewrite <- app_assoc.
    apply existsb_app_false; [reflexivity|].
    apply existsb_app_false; [apply is_stamp_no_slash; exact H | reflexivity].
Qed.

Lemma fnmatch_wav_name (ts : pystr) :
  fnmatch_mira_wav (base_name ts ++ lit ".wav") = true.
Proof.
  unfold fnmatch_mira_wav, base_name. rewrite <- app_assoc, drop_prefix_app.
  unfold endswith, startswith. rewrite rev_app_distr.
  change (rev (lit ".wav") ++ rev ts) with (rev (lit ".wav") ++ rev ts).
  rewrite drop_prefix_app. reflexivity.
Qed.

Lemma fnmatch_txt_name (ts : pystr) :
  fnmatch_mira_wav (base_name ts ++ lit ".txt") = false.
Proof.
  unfold fnmatch_mira_wav, base_name. rewrite <- app_assoc, drop_prefix_app.
  unfold endswith, startswith. rewrite rev_app_distr. reflexivity.
Qed.

Lemma basename_no_slash (s : pystr) :
  existsb (N.eqb slash) s = false -> basename s = s.
Proof. destruct s as [|c s]; [reflexivity|]. cbn [basename]. intros ->. reflexivity. Qed.

Lemma basename_after_slash (pre s : pystr) :
  existsb (N.eqb slash) s = false ->
  basename (pre ++ slash :: s) = s.
Proof.
  intros H. induction pre as [|c pre IH].
  - cbn [app basename existsb]. rewrite N.eqb_refl. cbn [orb].
    apply basename_no_slash; exact H.
  - cbn [app basename]. rewrite IH.
    replace (existsb (N.eqb slash) (c :: pre ++ slash :: s)) with true;
      [reflexivity|].
    symmetry. cbn [existsb]. rewrite existsb_app. cbn [existsb].
    rewrite N.eqb_refl. rewrite !orb_true_r. reflexivity.
Qed.


Lemma replace_from_no_match (old new : pystr) (c : N) (s : pystr) :
  startswith old (c :: s) = false ->
  replace_from old new 0 (c :: s) = c :: replace_from old new 0 s.
Proof. cbn [replace_from]. intros ->. reflexivity. Qed.

Lemma replace_from_no_dot (old new s rest : pystr) :
  existsb (N.eqb dot) s = false ->
  replace_from (dot :: old) new 0 (s ++ rest)
  = s ++ replace_from (dot :: old) new 0 rest.
Proof.
  induction s as [|c s IH]; [reflexivity|].
  cbn [existsb]. rewrite orb_false_iff. intros [C H].
  cbn [app]. rewrite replace_from_no_match.
  - rewrite IH; auto.
  - unfold startswith. cbn [drop_prefix]. rewrite C. reflexivity.
Qed.

Lemma sidecar_of_wav (ts : pystr) :
  is_stamp ts = true -> sidecar_of (wav_path_of ts) = txt_path_of ts.
Proof.
  intros H. rewrite wav_path_of_eq, txt_path_of_eq.
  unfold sidecar_of, str_replace.
  change (OUTPUT_FOLDER ++ base_name ts ++ lit ".wav")
    with (dot :: (lit "/static/output/" ++ base_name ts) ++ lit ".wav").
  rewrite replace_from_no_match by reflexivity.
  change (lit ".wav") with (dot :: lit "wav") at 1.
  rewrite replace_from_no_dot.
  - reflexivity.
  - apply existsb_app_false; [reflexivity|]. unfold base_name.
    apply existsb_app_false; [reflexivity | apply is_stamp_no_dot; exact H].
Qed.

Lemma is_stamp_split (ts : pystr) :
  is_stamp ts = true ->
  exists d8 d6,
    ts = d8 ++ 45%N :: d6 /\ length d8 = 8 /\ length d6 = 6 /\
    forallb isdecimal d8 = true /\ forallb isdecimal d6 = true.
Proof.
  intros H. pose proof (is_stamp_chars H) as C.
  unfold is_stamp in H. rewrite !andb_true_iff in H.
  destruct H as [[[L D8] Hy] D6]. apply Nat.eqb_eq in L.
  apply str_eqb_eq in Hy.
  assert (Dec : forall l, forallb ascii_digit l = true ->
                          forallb isdecimal l = true).
  { intros l Hl. rewrite forallb_forall in *. intros c Hc.
    destruct (@stamp_char_cases c (or_introl (Hl c Hc))) as [(_ & _ & D)|E];
      [exact D | subst c; specialize (Hl _ Hc); discriminate]. }
  exists (firstn 8 ts), (skipn 9 ts). repeat split.
  - rewrite <- (firstn_skipn 8 ts) at 1. f_equal.
    rewrite <- (firstn_skipn 1 (skipn 8 ts)) at 1.
    rewrite Hy, skipn_skipn. reflexivity.
  - rewrite length_firstn. lia.
  - rewrite length_skipn. lia.
  - auto.
  - auto.
Qed.

Lemma pattern_match_artifact (ts : pystr) :
  is_stamp ts = true ->
  pattern_match (base_name ts ++ lit ".wav") = true /\
  pattern_match (base_name ts ++ lit ".txt") = true.
Proof.
  intros H. destruct (is_stamp_split H) as (d8 & d6 & -> & L8 & L6 & D8 & D6).
  assert (P : forall ext,
             ext = lit "wav" \/ ext = lit "txt" ->
             pattern_match (base_name (d8 ++ 45%N :: d6) ++ dot :: ext) = true).
  { intros ext He. unfold pattern_match, base_name.
    rewrite <- !app_assoc, drop_prefix_app. cbn [and_then].
    rewrite <- L8 at 1. rewrite (take_digits_app _ D8). cbn [and_then].
    change (lit "-") with [45%N]. change (lit ".") with [dot].
    cbn [app drop_prefix]. rewrite N.eqb_refl. cbn [and_then].
    rewrite <- L6 at 1. rewrite (take_digits_app _ D6).
    cbn [and_then drop_prefix]. rewrite N.eqb_refl.
    destruct He as [-> | ->]; reflexivity. }
  split; apply P; auto.
Qed.

(* ================================================================== *)
(** * Stores of artifacts *)
(* ================================================================== *)

Lemma entry_skip (p : pystr) (a b : store) :
  ~ In p (map fst a) -> entry_at p (a ++ b) = entry_at p b.
Proof.
  intros H. rewrite entry_app. apply entry_None in H. rewrite H. reflexivity.
Qed.

Lemma artifact_key_cases (p : pystr) (gs : list artifact) :
  In p (map fst (flat_map artifact_nodes gs)) ->
  exists g, In g gs /\ (p = wav_of g \/ p = txt_of g).
Proof.
  intros H. apply in_map_iff in H as (e & <- & He).
  apply in_flat_map in He as (g & Hg & He). exists g. split; [exact Hg|].
  unfold artifact_nodes, sidecar_nodes in He. destruct He as [<-|He].
  - left; reflexivity.
  - destruct (a_text g); [|destruct He].
    destruct He as [<-|[]]. right; reflexivity.
Qed.

Lemma wav_key_absent (ts : pystr) (gs : list artifact) :
  ~ In ts (map a_stamp gs) ->
  ~ In (wav_path_of ts) (map fst (flat_map artifact_nodes gs)).
Proof.
  intros H C. apply artifact_key_cases in C as (g & Hg & [C|C]).
  - apply wav_path_of_inj in C. apply H. rewrite C. apply in_map; exact Hg.
  - exact (wav_path_not_txt_path C).
Qed.

Lemma txt_key_absent (ts : pystr) (gs : list artifact) :
  ~ In ts (map a_stamp gs) ->
  ~ In (txt_path_of ts) (map fst (flat_map artifact_nodes gs)).
Proof.
  intros H C. apply artifact_key_cases in C as (g & Hg & [C|C]).
  - symmetry in C. exact (wav_path_not_txt_path C).
  - apply txt_path_of_inj in C. apply H. rewrite C. apply in_map; exact Hg.
Qed.

Lemma outside_absent (st0 : store) (p name : pystr) :
  outside_output st0 -> output_name p = Some name -> ~ In p (map fst st0).
Proof.
  intros O Hp C. apply in_map_iff in C as ([q n] & E & Hq). simpl in E; subst q.
  rewrite (O _ _ Hq) in Hp. discriminate.
Qed.

Lemma outside_names (st0 : store) :
  outside_output st0 -> output_names st0 = [].
Proof.
  intros O. induction st0 as [|[p n] st0 IH]; [reflexivity|].
  cbn [output_names]. rewrite (O p n (or_introl eq_refl)).
  apply IH. intros q m H. apply (O q m). right; exact H.
Qed.

Lemma artifact_names_listed (gs : list artifact) :
  Forall (fun a => is_stamp (a_stamp a) = true) gs ->
  output_names (flat_map artifact_nodes gs) = flat_map artifact_names gs.
Proof.
  induction 1 as [|g gs Hg _ IH]; [reflexivity|].
  cbn [flat_map]. rewrite output_names_app, IH. f_equal.
  unfold artifact_nodes, sidecar_nodes, artifact_names, wav_of, txt_of.
  cbn [output_names]. rewrite (output_name_wav Hg).
  destruct (a_text g); cbn [output_names]; [rewrite (output_name_txt Hg)|];
    reflexivity.
Qed.

Lemma artifact_wavs_globbed (gs : list artifact) :
  map (os_path_join OUTPUT_FOLDER)
      (filter fnmatch_mira_wav (flat_map artifact_names gs))
  = map wav_of gs.
Proof.
  induction gs as [|g gs IH]; [reflexivity|].
  cbn [flat_map]. rewrite filter_app, map_app, IH.
  unfold artifact_names. cbn [filter]. rewrite fnmatch_wav_name.
  destruct (a_text g); cbn [filter]; [rewrite fnmatch_txt_name|]; reflexivity.
Qed.

(* ================================================================== *)
(** * Sorting by modification time *)
(* ================================================================== *)

Lemma insert_desc_last (x : pystr * Z) (l : list (pystr * Z)) :
  Forall (fun y => (snd x < snd y)%Z) l -> insert_desc x l = l ++ [x].
Proof.
  induction 1 as [|y l Hy _ IH]; [reflexivity|].
  cbn [insert_desc app]. apply Z.ltb_lt in Hy. rewrite Hy, IH. reflexivity.
Qed.

Lemma sort_desc_increasing (l : list (pystr * Z)) :
  increasing (map snd l) -> sort_desc l = rev l.
Proof.
  induction l as [|x l IH]; [reflexivity|].
  cbn [map increasing]. intros [Hx Hl].
  cbn [sort_desc fold_right rev]. fold (sort_desc l). rewrite (IH Hl).
  apply insert_desc_last. apply Forall_rev.
  rewrite Forall_map in Hx. exact Hx.
Qed.

Lemma increasing_app (a b : list Z) :
  increasing (a ++ b) -> increasing a /\ increasing b.
Proof.
  induction a as [|x a IH]; [cbn; auto|].
  cbn [app increasing]. intros [Hx H]. destruct (IH H) as [Ha Hb].
  apply Forall_app in Hx as [Hx _]. auto.
Qed.

Lemma stamp_not_among (olds : list artifact) (g : artifact)
      (rest : list artifact) :
  NoDup (map a_stamp (olds ++ g :: rest)) ->
  ~ In (a_stamp g) (map a_stamp olds) /\
  ~ In (a_stamp g) (map a_stamp rest) /\
  NoDup (map a_stamp (olds ++ rest)).
Proof.
  rewrite !map_app. cbn [map]. intros H.
  apply NoDup_remove in H as [N H]. repeat split; auto.
  - intros C. apply H, in_or_app. left; exact C.
  - intros C. apply H, in_or_app. right; exact C.
Qed.

Lemma entry_artifact_wav (st0 : store) (olds : list artifact) (g : artifact)
      (rest : list artifact) :
  outside_output st0 ->
  is_stamp (a_stamp g) = true ->
  ~ In (a_stamp g) (map a_stamp olds) ->
  entry_at (wav_of g) (st0 ++ flat_map artifact_nodes (olds ++ g :: rest))
  = Some (fresh_file (a_mtime g) (a_audio g)).
Proof.
  intros O S H. unfold wav_of.
  rewrite entry_skip by (exact (outside_absent O (output_name_wav S))).
  rewrite flat_map_app, entry_skip by (apply wav_key_absent; exact H).
  cbn [flat_map artifact_nodes app entry_at]. rewrite str_eqb_refl. reflexivity.
Qed.

Lemma sidecar_keys (g : artifact) (p : pystr) :
  In p (map fst (sidecar_nodes g)) -> p = txt_of g.
Proof.
  unfold sidecar_nodes. destruct (a_text g); [|intros []].
  intros [<-|[]]. reflexivity.
Qed.

Lemma remove_artifact_wav (st0 : store) (olds : list artifact) (g : artifact)
      (rest : list artifact) :
  outside_output st0 ->
  is_stamp (a_stamp g) = true ->
  ~ In (a_stamp g) (map a_stamp olds) ->
  ~ In (a_stamp g) (map a_stamp rest) ->
  remove_key (wav_of g) (st0 ++ flat_map artifact_nodes (olds ++ g :: rest))
  = st0 ++ flat_map artifact_nodes olds
    ++ sidecar_nodes g ++ flat_map artifact_nodes rest.
Proof.
  intros O S H1 H2. unfold wav_of.
  rewrite flat_map_app, !remove_key_app.
  rewrite (remove_key_absent (outside_absent O (output_name_wav S))).
  rewrite (remove_key_absent (wav_key_absent H1)).
  cbn [flat_map].
  change (artifact_nodes g)
    with ((wav_path_of (a_stamp g), fresh_file (a_mtime g) (a_audio g))
          :: sidecar_nodes g).
  cbn [app]. unfold remove_key at 1. cbn [filter fst].
  rewrite str_eqb_refl. cbn [negb].
  fold (remove_key (wav_path_of (a_stamp g))
          (sidecar_nodes g ++ flat_map artifact_nodes rest)).
  rewrite remove_key_app, (remove_key_absent (wav_key_absent H2)).
  rewrite remove_key_absent; [reflexivity|].
  intros C. apply sidecar_keys in C. exact (wav_path_not_txt_path C).
Qed.

Lemma entry_sidecar_absent (st0 : store) (olds : list artifact)
      (ts : pystr) (rest : list artifact) :
  outside_output st0 ->
  is_stamp ts = true ->
  ~ In ts (map a_stamp olds) ->
  ~ In ts (map a_stamp rest) ->
  entry_at (txt_path_of ts)
         (st0 ++ flat_map artifact_nodes olds ++ flat_map artifact_nodes rest)
  = None.
Proof.
  intros O S H1 H2. apply entry_None. rewrite !map_app. intros C.
  apply in_app_or in C as [C|C]; [|apply in_app_or in C as [C|C]].
  - exact (outside_absent O (output_name_txt S) C).
  - exact (txt_key_absent H1 C).
  - exact (txt_key_absent H2 C).
Qed.

Lemma entry_artifact_txt (st0 : store) (olds : list artifact)
      (ts : pystr) (n : node) (rest : store) :
  outside_output st0 ->
  is_stamp ts = true ->
  ~ In ts (map a_stamp olds) ->
  entry_at (txt_path_of ts)
         (st0 ++ flat_map artifact_nodes olds ++ (txt_path_of ts, n) :: rest)
  = Some n.
Proof.
  intros O S H.
  rewrite entry_skip by (exact (outside_absent O (output_name_txt S))).
  rewrite entry_skip by (apply txt_key_absent; exact H).
  cbn [entry_at]. rewrite str_eqb_refl. reflexivity.
Qed.

Lemma remove_artifact_txt (st0 : store) (olds : list artifact) (ts : pystr)
      (n : node) (rest : list artifact) :
  outside_output st0 ->
  is_stamp ts = true ->
  ~ In ts (map a_stamp olds) ->
  ~ In ts (map a_stamp rest) ->
  remove_key (txt_path_of ts)
    (st0 ++ flat_map artifact_nodes olds
     ++ (txt_path_of ts, n) :: flat_map artifact_nodes rest)
  = st0 ++ flat_map artifact_nodes (olds ++ rest).
Proof.
  intros O S H1 H2. rewrite !remove_key_app.
  rewrite (remove_key_absent (outside_absent O (output_name_txt S))).
  rewrite (remove_key_absent (txt_key_absent H1)).
  unfold remove_key at 1. cbn [filter fst]. rewrite str_eqb_refl. cbn [negb].
  fold (remove_key (txt_path_of ts) (flat_map artifact_nodes rest)).
  rewrite (remove_key_absent (txt_key_absent H2)), flat_map_app. reflexivity.
Qed.

(* ================================================================== *)
(** * Rotation over a store of artifacts *)
(* ================================================================== *)

Lemma rotate_one_artifact (w : world) (st0 : store) (olds : list artifact)
      (g : artifact) (rest : list artifact) :
  files w = st0 ++ flat_map artifact_nodes (olds ++ g :: rest) ->
  outside_output st0 ->
  is_stamp (a_stamp g) = true ->
  NoDup (map a_stamp (olds ++ g :: rest)) ->
  rotate_one (wav_of g) w
  = (Ok tt,
     {| files := st0 ++ flat_map artifact_nodes (olds ++ rest);
        out_listable := out_listable w;
        stdout := stdout w |}).
Proof.
  intros Hf O S N. destruct (stamp_not_among N) as (H1 & H2 & _).
  unfold rotate_one. run_os. unfold lookup.
  rewrite Hf, (entry_artifact_wav rest O S H1).
  cbn [is_directory n_kind n_symlink n_deletable fresh_file files
       out_listable stdout].
  rewrite (remove_artifact_wav O S H1 H2).
  unfold wav_of. rewrite (sidecar_of_wav S).
  unfold sidecar_nodes, txt_of. destruct (a_text g) as [text|]; cbn [app].
  - rewrite (entry_artifact_txt _ _ O S H1).
    cbn [is_directory n_kind n_symlink n_deletable fresh_file files
         out_listable stdout].
    rewrite (entry_artifact_txt _ _ O S H1).
    cbn [is_directory n_kind n_symlink n_deletable fresh_file files
         out_listable stdout].
    rewrite (remove_artifact_txt _ O S H1 H2). reflexivity.
  - rewrite (entry_sidecar_absent O S H1 H2), flat_map_app. reflexivity.
Qed.

Lemma rotate_loop (st0 : store) (olds : list artifact) :
  forall (rest : list artifact) (w : world),
  files w = st0 ++ flat_map artifact_nodes (olds ++ rest) ->
  outside_output st0 ->
  Forall (fun a => is_stamp (a_stamp a) = true) olds ->
  NoDup (map a_stamp (olds ++ rest)) ->
  for_each (map wav_of (rev olds)) rotate_one w
  = (Ok tt,
     {| files := st0 ++ flat_map artifact_nodes rest;
        out_listable := out_listable w;
        stdout := stdout w |}).
Proof.
  induction olds as [|g olds IH] using rev_ind; intros rest w Hf O S N.
  - cbn [rev map for_each app] in *. unfold ret. rewrite <- Hf, world_eta.
    reflexivity.
  - rewrite rev_app_distr. cbn [rev app map for_each].
    rewrite <- app_assoc in Hf, N. cbn [app] in Hf, N.
    apply Forall_app in S as [S Sg]. inversion Sg as [|? ? Sg' _]; subst.
    rewrite (bind_ok _ (rotate_one_artifact Hf O Sg' N)).
    destruct (stamp_not_among N) as (_ & _ & N').
    rewrite (IH rest); auto.
Qed.

Lemma getmtime_artifacts (w : world) (gs : list artifact) :
  (forall g, In g gs ->
     exists n, lookup (wav_of g) (files w) = Some n /\ n_mtime n = a_mtime g) ->
  map_m os_path_getmtime (map wav_of gs) w = (Ok (map a_mtime gs), w).
Proof.
  induction gs as [|g gs IH]; intros H; [reflexivity|].
  cbn [map map_m].
  destruct (H g (or_introl eq_refl)) as (n & L & T).
  unfold bind at 1. unfold os_path_getmtime at 1. unfold bind at 1.
  unfold get_files at 1. rewrite L. unfold ret at 1.
  rewrite (bind_ok _ (IH (fun g' Hg' => H g' (or_intror Hg')))).
  rewrite T. reflexivity.
Qed.

Lemma combine_maps {A B C : Type} (f : A -> B) (g : A -> C) (l : list A) :
  combine (map f l) (map g l) = map (fun x => (f x, g x)) l.
Proof. induction l; cbn; congruence. Qed.

Lemma wav_files_artifacts (w : world) (st0 : store) (gs : list artifact) :
  files w = st0 ++ flat_map artifact_nodes gs ->
  out_listable w = true ->
  outside_output st0 ->
  orderly gs ->
  wav_files_by_mtime w = (Ok (rev (map wav_of gs)), w).
Proof.
  intros Hf Hl O (S & N & I).
  unfold wav_files_by_mtime, glob_output_wavs. unfold bind at 1.
  rewrite Hl, Hf, output_names_app, (outside_names O).
  rewrite (artifact_names_listed S). cbn [app].
  rewrite artifact_wavs_globbed.
  unfold sorted_by_mtime_desc.
  erewrite bind_ok; [|apply getmtime_artifacts].
  - unfold ret. rewrite combine_maps, sort_desc_increasing.
    + rewrite <- map_rev, map_map. cbn [fst]. rewrite map_rev. reflexivity.
    + rewrite map_map. exact I.
  - intros g Hg. apply in_split in Hg as (olds & rest & ->).
    destruct (stamp_not_among N) as (H1 & _).
    rewrite Forall_forall in S.
    exists (fresh_file (a_mtime g) (a_audio g)). split; [|reflexivity].
    rewrite Hf. apply lookup_fresh. apply entry_artifact_wav; auto.
    apply S, in_or_app. right; left; reflexivity.
Qed.

Lemma lastn_all {A : Type} (n : nat) (l : list A) :
  length l <= n -> lastn n l = l.
Proof.
  intros H. unfold lastn. replace (length l - n) with 0 by lia. reflexivity.
Qed.

Lemma lastn_length {A : Type} (n : nat) (l : list A) :
  length (lastn n l) = Nat.min (length l) n.
Proof. unfold lastn. rewrite length_skipn. lia. Qed.

Lemma orderly_app (a b : list artifact) :
  orderly (a ++ b) -> orderly a /\ orderly b.
Proof.
  intros (S & N & I). apply Forall_app in S as [Sa Sb].
  rewrite map_app in N, I.
  destruct (increasing_app I) as [Ia Ib].
  split; (split; [|split]); auto.
  - exact (NoDup_app_remove_r _ _ N).
  - exact (NoDup_app_remove_l _ _ N).
Qed.

(** On a folder that holds artifacts only, [rotate_files] keeps the last
    five of them and removes both files of every older one. *)
Lemma rotate_files_artifacts (w : world) (st0 : store) (gs : list artifact) :
  files w = st0 ++ flat_map artifact_nodes gs ->
  out_listable w = true ->
  outside_output st0 ->
  orderly gs ->
  rotate_files w
  = (Ok tt,
     {| files := st0 ++ flat_map artifact_nodes (lastn MAX_HISTORY gs);
        out_listable := true;
        stdout := stdout w |}).
Proof.
  intros Hf Hl O Ord. unfold rotate_files.
  rewrite (bind_ok _ (wav_files_artifacts Hf Hl O Ord)).
  rewrite length_rev, length_map.
  destruct (Nat.ltb_spec MAX_HISTORY (length gs)) as [Hlt|Hle].
  - rewrite skipn_rev, length_map, firstn_map, <- map_rev.
    rewrite <- (firstn_skipn (length gs - MAX_HISTORY) gs) in Hf, Ord.
    destruct Ord as (S & N & _).
    rewrite (rotate_loop Hf O); auto.
    + rewrite Hl. reflexivity.
    + apply Forall_app in S as [S _]. exact S.
  - rewrite lastn_all by exact Hle. unfold ret.
    rewrite <- Hf, <- Hl, world_eta. reflexivity.
Qed.

(* ================================================================== *)
(** * A request that generates *)
(* ================================================================== *)







Lemma orderly_lastn (n : nat) (gs : list artifact) :
  orderly gs -> orderly (lastn n gs).
Proof.
  intros H. unfold lastn.
  rewrite <- (firstn_skipn (length gs - n) gs) in H.
  exact (proj2 (orderly_app H)).
Qed.



Section Generation.

Context {style tensor array : Type}.
Variable ext : collaborators style tensor array.











End Generation.





(* ================================================================== *)
(** * End to end *)
(* ================================================================== *)




Lemma in_firstn {A : Type} (n : nat) (l : list A) (x : A) :
  In x (firstn n l) -> In x l.
Proof.
  intros H. rewrite <- (firstn_skipn n l). apply in_or_app. left; exact H.
Qed.


Section EndToEnd.

Context {style tensor array : Type}.
Variable ext : collaborators style tensor array.


End EndToEnd.



(* ================================================================== *)
(** * More on the sentence splitter *)
(* ================================================================== *)

Lemma strip_nil_iff (s : pystr) :
  strip s = [] <-> whitespace_only s = true.
Proof.
  unfold strip, rstrip. split.
  - intros H. apply (f_equal (@rev N)) in H. rewrite rev_involutive in H.
    cbn in H. apply lstrip_nil_iff in H. rewrite whitespace_only_rev in H.
    apply lstrip_nil_iff. pose proof (lstrip_no_space s) as L.
    destruct (lstrip s) as [|c u]; [reflexivity|].
    cbn in H, L. rewrite L in H. discriminate.
  - intros H. apply lstrip_nil_iff in H. rewrite H. reflexivity.
Qed.

Lemma whitespace_only_no_split_point (s : pystr) :
  whitespace_only s = true -> has_split_point s = false.
Proof.
  unfold whitespace_only. induction s as [|c s IH]; [reflexivity|].
  cbn [forallb]. intros H. apply andb_true_iff in H as [C H].
  rewrite has_split_point_cons, (IH H), orb_false_r.
  destruct (is_ender c) eqn:E; [|reflexivity].
  rewrite (is_ender_not_space E) in C. discriminate.
Qed.

Lemma truthy_true_false (s : pystr) : truthy s = false -> s = [].
Proof. destruct s; [reflexivity | discriminate]. Qed.

Lemma lstrip_snoc (p : pystr) (e : N) :
  isspace e = false -> lstrip (p ++ [e]) = lstrip p ++ [e].
Proof.
  intros E. induction p as [|c p IH]; cbn; [rewrite E; reflexivity|].
  destruct (isspace c); [exact IH | reflexivity].
Qed.

Lemma rstrip_snoc (s : pystr) (e : N) :
  isspace e = false -> rstrip (s ++ [e]) = s ++ [e].
Proof.
  intros E. unfold rstrip. rewrite rev_app_distr. cbn. rewrite E.
  cbn. rewrite rev_involutive. reflexivity.
Qed.

(** A piece that ends with an ender keeps it when trimmed. *)
Lemma strip_snoc (p : pystr) (e : N) :
  isspace e = false -> strip (p ++ [e]) = lstrip p ++ [e].
Proof.
  intros E. unfold strip. rewrite (lstrip_snoc _ E). apply rstrip_snoc, E.
Qed.

Lemma visible_app (a b : pystr) : visible (a ++ b) = visible a ++ visible b.
Proof. apply filter_app. Qed.

Lemma visible_whitespace (w : pystr) :
  whitespace_only w = true -> visible w = [].
Proof.
  unfold whitespace_only, visible. induction w as [|c w IH]; [reflexivity|].
  cbn. intros H. apply andb_true_iff in H as [-> H]. cbn. auto.
Qed.

Lemma visible_strip (s : pystr) : visible (strip s) = visible s.
Proof.
  destruct (lstrip_split s) as (l & El & Wl).
  destruct (rstrip_split (lstrip s)) as (r & Er & Wr).
  rewrite El at 2. rewrite Er. unfold strip.
  rewrite !visible_app, (visible_whitespace Wl), (visible_whitespace Wr).
  rewrite app_nil_r. reflexivity.
Qed.

Lemma visible_spec_split (ps : list pystr) :
  concat (map visible (spec_split ps)) = concat (map visible ps).
Proof.
  unfold spec_split. induction ps as [|p ps IH]; [reflexivity|].
  cbn [map filter]. destruct (truthy (strip p)) eqn:T; cbn [map concat].
  - rewrite IH, visible_strip. reflexivity.
  - rewrite IH. apply truthy_true_false in T.
    rewrite <- (visible_strip p), T. reflexivity.
Qed.

Lemma visible_pieces (text : pystr) (ps : list pystr) :
  Pieces text ps -> visible text = concat (map visible ps).
Proof.
  induction 1 as [p Hp | p e w rest ps Hp He Hw W R _ IH].
  - cbn. rewrite app_nil_r. reflexivity.
  - cbn [map concat]. rewrite !visible_app, <- IH.
    rewrite (visible_whitespace (w := w)) by exact W. reflexivity.
Qed.

(** X1. [split_text] returns no sentence exactly when the text is empty or
    made of whitespace only. *)
Theorem split_text_nil_iff (text : pystr) :
  split_text text = [] <-> whitespace_only text = true.
Proof.
  split.
  - intros H. rewrite split_text_as_spec in H.
    destruct (has_split_point text) eqn:Hs.
    + destruct (first_split_point Hs)
        as (p & e & w & rest & -> & Hp & He & Hw & W & R).
      rewrite (re_split_cut Hp He Hw W R) in H.
      unfold spec_split in H. cbn [map filter] in H.
      rewrite (strip_snoc _ (is_ender_not_space He)) in H.
      destruct (lstrip p); discriminate.
    + rewrite (re_split_whole Hs) in H. unfold spec_split in H. cbn in H.
      destruct (truthy (strip text)) eqn:T; [discriminate|].
      apply strip_nil_iff, truthy_true_false, T.
  - intros H. rewrite (split_text_whole (whitespace_only_no_split_point H)).
    apply strip_nil_iff in H. rewrite H. reflexivity.
Qed.

(** X2. Splitting loses nothing but whitespace: the code points of the
    text that are not whitespace are those of the sentences, in the same
    order. *)
Theorem split_text_keeps_visible (text : pystr) :
  concat (map visible (split_text text)) = visible text.
Proof.
  rewrite split_text_as_spec, visible_spec_split.
  symmetry. apply visible_pieces, Pieces_exist.
Qed.

Lemma spec_split_app (a b : list pystr) :
  spec_split (a ++ b) = spec_split a ++ spec_split b.
Proof. unfold spec_split. rewrite map_app, filter_app. reflexivity. Qed.

Lemma re_split_go_leading (l s : pystr) :
  whitespace_only l = true ->
  re_split_go false false (l ++ s)
  = let (p, ps) := re_split_go false false s in (l ++ p, ps).
Proof.
  unfold whitespace_only. induction l as [|c l IH]; cbn [app forallb].
  - intros _. destruct (re_split_go false false s); reflexivity.
  - intros H. apply andb_true_iff in H as [C H]. cbn [re_split_go].
    rewrite C, (IH H). destruct (re_split_go false false s); reflexivity.
Qed.

(** Whitespace in front of the text changes nothing. *)
Lemma split_text_leading (l s : pystr) :
  whitespace_only l = true -> split_text (l ++ s) = split_text s.
Proof.
  intros H. rewrite !split_text_as_spec. unfold re_split.
  rewrite (re_split_go_leading _ H).
  destruct (re_split_go false false s) as [p ps].
  unfold spec_split. cbn [map]. unfold strip.
  rewrite (lstrip_leading _ H). reflexivity.
Qed.

Lemma ends_with_ender_app (a b : pystr) :
  b <> [] -> ends_with_ender (a ++ b) = ends_with_ender b.
Proof.
  intros H. unfold ends_with_ender. rewrite rev_app_distr.
  destruct (rev b) as [|c r] eqn:E; [|reflexivity].
  apply (f_equal (@rev N)) in E. rewrite rev_involutive in E. contradiction.
Qed.

Lemma ends_with_ender_inv (s : pystr) :
  ends_with_ender s = true -> exists p e, s = p ++ [e] /\ is_ender e = true.
Proof.
  unfold ends_with_ender. destruct (rev s) as [|c r] eqn:E; [discriminate|].
  intros H. exists (rev r), c. split; [|exact H].
  apply (f_equal (@rev N)) in E. rewrite rev_involutive in E. exact E.
Qed.

Lemma ends_with_ender_snoc (p : pystr) (e : N) :
  ends_with_ender (p ++ [e]) = is_ender e.
Proof. unfold ends_with_ender. rewrite rev_app_distr. reflexivity. Qed.

Lemma whitespace_not_ender_end (w : pystr) :
  whitespace_only w = true -> ends_with_ender w = false.
Proof.
  intros W. destruct (ends_with_ender w) eqn:E; [|reflexivity].
  destruct (ends_with_ender_inv E) as (p & e & -> & He).
  unfold whitespace_only in W. rewrite forallb_app in W.
  apply andb_true_iff in W as [_ W]. cbn in W.
  rewrite (is_ender_not_space He) in W. discriminate.
Qed.

Lemma Pieces_append (a : pystr) (pa : list pystr) :
  Pieces a pa ->
  ends_with_ender a = true ->
  forall w rest ps,
    w <> [] -> forallb isspace w = true ->
    starts_with_space rest = false ->
    Pieces rest ps ->
    Pieces (a ++ w ++ rest) (pa ++ ps).
Proof.
  induction 1 as [p Hp | p e w1 rest1 ps1 Hp He Hw1 W1 R1 P1 IH];
    intros E w rest ps Hw W R P.
  - destruct (ends_with_ender_inv E) as (q & e & -> & He).
    apply Pieces_cut; auto.
  - assert (N1 : rest1 <> []).
    { intros ->. rewrite app_nil_r in E.
      rewrite ends_with_ender_app in E by exact Hw1.
      rewrite (whitespace_not_ender_end (w := w1)) in E by exact W1.
      discriminate. }
    rewrite !ends_with_ender_app in E; auto;
      [|intros C; apply app_eq_nil in C as [C _]; contradiction].
    rewrite <- !app_assoc. cbn [app].
    replace (p ++ e :: w1 ++ rest1 ++ w ++ rest)
      with ((p ++ [e]) ++ w1 ++ (rest1 ++ w ++ rest))
      by (rewrite <- !app_assoc; reflexivity).
    apply Pieces_cut; auto.
    destruct rest1; [contradiction | exact R1].
Qed.

(** X3. Sentence splitting composes: when [a] ends with an ender and [w] is
    a non-empty run of whitespace, the sentences of [a ++ w ++ b] are those
    of [a] followed by those of [b]. *)
Theorem split_text_app (a w b : pystr) :
  ends_with_ender a = true ->
  w <> [] -> whitespace_only w = true ->
  split_text (a ++ w ++ b) = split_text a ++ split_text b.
Proof.
  intros E Hw W.
  destruct (lstrip_split b) as (l & El & Wl).
  assert (Hb : split_text b = split_text (lstrip b)).
  { rewrite El at 1. apply split_text_leading. exact Wl. }
  rewrite Hb. pose proof (lstrip_no_space b) as R.
  remember (lstrip b) as b' eqn:Eb. clear Eb Hb. subst b.
  rewrite !split_text_as_spec, <- spec_split_app. f_equal.
  replace (a ++ w ++ l ++ b') with (a ++ (w ++ l) ++ b')
    by (rewrite <- !app_assoc; reflexivity).
  apply Pieces_re_split.
  apply (Pieces_append (Pieces_exist a) E).
  - intros C. apply app_eq_nil in C as [C _]. contradiction.
  - rewrite forallb_app. unfold whitespace_only in W. rewrite W, Wl.
    reflexivity.
  - exact R.
  - apply Pieces_exist.
Qed.

Lemma split_text_app_witness :
  split_text (lit "Hi." ++ lit "  " ++ lit "Bye. Now!")
  = split_text (lit "Hi.") ++ split_text (lit "Bye. Now!").
Proof.
  apply (@split_text_app (lit "Hi.") (lit "  ") (lit "Bye. Now!")).
  - reflexivity.
  - discriminate.
  - reflexivity.
Defined.

Lemma split_text_cut (p : pystr) (e : N) (w rest : pystr) :
  has_split_point (p ++ [e]) = false ->
  is_ender e = true ->
  w <> [] -> forallb isspace w = true ->
  starts_with_space rest = false ->
  split_text ((p ++ [e]) ++ w ++ rest)
  = (lstrip p ++ [e]) :: split_text rest.
Proof.
  intros Hp He Hw W R. rewrite !split_text_as_spec.
  rewrite (re_split_cut Hp He Hw W R). unfold spec_split. cbn [map filter].
  rewrite (strip_snoc _ (is_ender_not_space He)).
  destruct (lstrip p); reflexivity.
Qed.

Lemma sentences_end_bounded (n : nat) (text : pystr) :
  length text <= n ->
  Forall (fun s => ends_with_ender s = true) (removelast (split_text text)).
Proof.
  revert text. induction n as [|n IH]; intros text Hn.
  - destruct text; [constructor | cbn in Hn; lia].
  - destruct (has_split_point text) eqn:Hs.
    + destruct (first_split_point Hs)
        as (p & e & w & rest & -> & Hp & He & Hw & W & R).
      rewrite (split_text_cut Hp He Hw W R).
      assert (Hr : length rest <= n).
      { rewrite !length_app in Hn. cbn in Hn.
        destruct w; [contradiction | cbn in Hn; lia]. }
      specialize (IH rest Hr).
      destruct (split_text rest) as [|s ss] eqn:Er; [constructor|].
      cbn [removelast]. constructor; [|exact IH].
      rewrite ends_with_ender_snoc. exact He.
    + rewrite (split_text_whole Hs).
      destruct (truthy (strip text)); constructor.
Qed.

(** X4. Every sentence but the last ends with ['.'], ['!'] or ['?']. *)
Theorem sentences_end_with_ender (text : pystr) :
  Forall (fun s => ends_with_ender s = true) (removelast (split_text text)).
Proof. apply (@sentences_end_bounded (length text)). lia. Qed.

(* ================================================================== *)
(** * More on the listing and the history *)
(* ================================================================== *)

Lemma history_item_of_world (p : pystr) (w : world) :
  snd (history_item_of p w) = w.
Proof.
  pose proof (history_item_of_cases p w) as C.
  destruct (lookup (sidecar_of p) (files w)) as [n|]; [|rewrite C; reflexivity].
  destruct (utf8_decode (n_data n));
    [destruct (is_regular n && n_readable n)|];
    try (rewrite C; reflexivity); destruct C as (e & ->); reflexivity.
Qed.

Lemma history_items_world (ps : list pystr) (w : world) :
  snd (map_m history_item_of ps w) = w.
Proof.
  induction ps as [|p ps IH]; [reflexivity|].
  cbn [map_m]. unfold bind at 1.
  pose proof (history_item_of_world p w) as Hp.
  destruct (history_item_of p w) as [[it|e] w1]; cbn [snd] in Hp; subst w1;
    [|reflexivity].
  unfold bind at 1.
  destruct (map_m history_item_of ps w) as [[h|e] w2]; cbn [snd] in IH;
    subst w2; reflexivity.
Qed.

(** X5. [get_history] only reads: whatever the folder holds, and whether it
    returns or raises, the host is afterwards as it was before. *)
Theorem get_history_reads_only (w : world) : snd (get_history w) = w.
Proof.
  unfold get_history. pose proof (wav_files_by_mtime_world w) as W.
  unfold bind. destruct (wav_files_by_mtime w) as [[ranked|e] w1];
    cbn [snd] in W; subst w1; [apply history_items_world | reflexivity].
Qed.

Lemma history_wavs (w w' : world) (h : list history_item) :
  get_history w = (Ok h, w') ->
  exists ranked,
    wav_files_by_mtime w = (Ok ranked, w) /\
    map h_wav h = firstn MAX_HISTORY ranked /\
    Forall2 (fun p it => history_item_of p w = (Ok it, w))
            (firstn MAX_HISTORY ranked) h.
Proof.
  intros G. unfold get_history in G. unfold bind at 1 in G.
  destruct (wav_files_by_mtime w) as [[ranked|e] w1] eqn:R; [|discriminate].
  destruct (wav_files_ranked R) as (-> & _).
  exists ranked. split; [reflexivity|].
  destruct (history_items_Ok G) as [_ F]. split; [|exact F].
  clear G. induction F as [|p it ps h Hit _ IH]; [reflexivity|].
  destruct (history_item_of_Ok Hit) as (_ & Hw & _).
  cbn [map]. congruence.
Qed.

Lemma basename_output (name : pystr) :
  existsb (N.eqb slash) name = false ->
  basename (OUTPUT_FOLDER ++ name) = name.
Proof.
  intros H. change OUTPUT_FOLDER with (lit "./static/output" ++ [slash]).
  rewrite <- app_assoc. cbn [app]. apply basename_after_slash. exact H.
Qed.

Lemma audio_paths_names (w : world) (p : pystr) :
  In p (audio_paths w) ->
  exists name,
    p = OUTPUT_FOLDER ++ name /\ fnmatch_mira_wav name = true /\
    In name (output_names (files w)) /\ basename p = name.
Proof.
  unfold audio_paths. destruct (out_listable w); [|intros []].
  intros H. apply in_map_iff in H as (name & <- & Hn).
  apply filter_In in Hn as [Hn F]. exists name.
  pose proof Hn as Hn'.
  apply output_names_In in Hn' as (q & n & _ & Ho).
  destruct (output_name_Some Ho) as (_ & J & _ & X).
  rewrite join_output by (apply startswith_slash_false; exact X).
  repeat split; auto. apply basename_output. exact X.
Qed.

(** X6. The history has at most five items; they are audio files of the
    output folder named [mira_*.wav], each shown under its file name,
    ordered from the newest to the oldest; and no audio file left out is
    newer than a listed one. *)
Theorem get_history_newest_five (w w' : world) (h : list history_item) :
  get_history w = (Ok h, w') ->
  length h <= MAX_HISTORY /\
  newest_first (files w) (map h_wav h) /\
  (forall it, In it h ->
     exists name,
       h_wav it = OUTPUT_FOLDER ++ name /\ h_name it = name /\
       fnmatch_mira_wav name = true /\ In name (output_names (files w))) /\
  (forall p it,
     In p (audio_paths w) -> ~ In p (map h_wav h) -> In it h ->
     (mtime_at (files w) p <= mtime_at (files w) (h_wav it))%Z).
Proof.
  intros G. destruct (history_wavs G) as (ranked & R & Hw & F).
  destruct (wav_files_ranked R) as (_ & P & S).
  unfold newest_first in S.
  rewrite <- (firstn_skipn MAX_HISTORY ranked), map_app in S.
  destruct (descending_app S) as (S1 & _ & S12).
  split; [|split; [|split]].
  - rewrite <- (length_map h_wav), Hw, length_firstn. apply Nat.le_min_l.
  - unfold newest_first. rewrite Hw. exact S1.
  - intros it Hit.
    assert (Hp : In (h_wav it) (audio_paths w)).
    { apply (Permutation_in _ P).
      apply (in_firstn (n := MAX_HISTORY)). rewrite <- Hw.
      apply in_map; exact Hit. }
    destruct (audio_paths_names Hp) as (name & E & Fm & Hn & B).
    exists name. repeat split; auto.
    clear - F Hit B. induction F as [|p it' ps h Hit' _ IH]; [destruct Hit|].
    destruct Hit as [->|Hit]; [|auto].
    destruct (history_item_of_Ok Hit') as (_ & Hwav & Hname & _).
    congruence.
  - intros p it Hp Hnot Hit.
    apply S12.
    + rewrite <- Hw. apply in_map, in_map. exact Hit.
    + apply in_map. apply (Permutation_in _ (Permutation_sym P)) in Hp.
      rewrite <- (firstn_skipn MAX_HISTORY ranked) in Hp.
      apply in_app_or in Hp as [Hp|Hp]; [|exact Hp].
      rewrite <- Hw in Hp. contradiction.
Qed.

Lemma get_history_newest_five_witness :
  exists h,
    get_history cluttered_host = (Ok h, cluttered_host) /\
    length h <= MAX_HISTORY /\
    newest_first (files cluttered_host) (map h_wav h) /\
    (forall it, In it h ->
       exists name,
         h_wav it = OUTPUT_FOLDER ++ name /\ h_name it = name /\
         fnmatch_mira_wav name = true /\
         In name (output_names (files cluttered_host))) /\
    (forall p it,
       In p (audio_paths cluttered_host) -> ~ In p (map h_wav h) ->
       In it h ->
       (mtime_at (files cluttered_host) p
        <= mtime_at (files cluttered_host) (h_wav it))%Z).
Proof.
  eexists. split; [reflexivity|].
  apply (@get_history_newest_five cluttered_host cluttered_host).
  reflexivity.
Defined.

Lemma preview_of_length (full : pystr) : length (preview_of full) <= 63.
Proof.
  unfold preview_of. destruct (Nat.ltb_spec 60 (length full)).
  - rewrite length_app, length_firstn.
    change (length ELLIPSIS) with 3. lia.
  - lia.
Qed.

(** X7. No preview of the history is longer than 63 characters: sixty of the
    transcript and the ellipsis. *)
Theorem get_history_preview_length (w w' : world) (h : list history_item) :
  get_history w = (Ok h, w') ->
  Forall (fun it => length (h_text it) <= 63) h.
Proof.
  intros G. destruct (history_wavs G) as (ranked & _ & _ & F). clear G.
  induction F as [|p it ps h' Hit _ IH]; constructor; [|exact IH].
  clear IH. destruct (history_item_of_Ok Hit) as (_ & _ & _ & Ht).
  destruct (lookup (sidecar_of p) (files w)) as [n|].
  - destruct Ht as (raw & _ & ->). apply preview_of_length.
  - rewrite Ht. change (length NO_TEXT) with 13. lia.
Qed.

Lemma get_history_preview_length_witness :
  exists h,
    get_history (host_with_transcript (repeat 97%N 200))
    = (Ok h, host_with_transcript (repeat 97%N 200)) /\
    Forall (fun it => length (h_text it) <= 63) h.
Proof.
  eexists. split; [reflexivity|].
  apply (@get_history_preview_length
           (host_with_transcript (repeat 97%N 200))
           (host_with_transcript (repeat 97%N 200))).
  reflexivity.
Defined.




Lemma reference_clip_outside : outside_output reference_clip.
Proof. intros p n [E|[]]. inversion E. reflexivity. Qed.

Lemma seven_artifacts_orderly : orderly seven_artifacts.
Proof.
  split; [|split].
  - repeat (apply Forall_cons; [reflexivity|]). apply Forall_nil.
  - cbv. repeat (apply NoDup_cons; [cbn [In]; intuition discriminate|]).
    apply NoDup_nil.
  - cbn [seven_artifacts artifact_at map a_mtime increasing].
    repeat split; repeat (apply Forall_cons; [reflexivity|]);
      apply Forall_nil.
Qed.



(* ================================================================== *)
(** * More on the rotation *)
(* ================================================================== *)

Lemma among_app (a b : list pystr) (p : pystr) :
  among (a ++ b) p = among a p || among b p.
Proof. apply existsb_app. Qed.

Lemma remove_key_as_keys (p : pystr) (st : store) :
  remove_key p st = remove_keys [p] st.
Proof.
  apply filter_ext. intros e. unfold among. cbn [existsb].
  rewrite orb_false_r, str_eqb_sym. reflexivity.
Qed.

Lemma remove_keys_nil (st : store) : remove_keys [] st = st.
Proof. apply filter_all. reflexivity. Qed.

Lemma remove_keys_twice (a b : list pystr) (st : store) :
  remove_keys b (remove_keys a st) = remove_keys (a ++ b) st.
Proof.
  unfold remove_keys. rewrite filter_twice. apply filter_ext.
  intros e. rewrite among_app, negb_orb. reflexivity.
Qed.

Lemma entry_remove_keys (removed : list pystr) (p : pystr) (st : store) :
  entry_at p (remove_keys removed st)
  = if among removed p then None else entry_at p st.
Proof.
  induction st as [|[q n] st IH]; [destruct (among removed p); reflexivity|].
  unfold remove_keys in *. cbn [filter fst].
  destruct (among removed q) eqn:Q; cbn [negb entry_at].
  - rewrite IH. destruct (str_eqb p q) eqn:E; [|reflexivity].
    apply str_eqb_eq in E. subst q. rewrite Q. reflexivity.
  - rewrite IH. destruct (str_eqb p q) eqn:E; [|reflexivity].
    apply str_eqb_eq in E. subst q. rewrite Q. reflexivity.
Qed.

Lemma lookup_remove_keys (removed : list pystr) (p : pystr) (st : store) :
  lookup p (remove_keys removed st)
  = if among removed p then None else lookup p st.
Proof.
  unfold lookup. rewrite entry_remove_keys.
  destruct (among removed p); reflexivity.
Qed.

Lemma can_stat_remove_keys (removed : list pystr) (p : pystr) (st : store) :
  can_stat (remove_keys removed st) p
  = negb (among removed p) && can_stat st p.
Proof.
  unfold can_stat. rewrite lookup_remove_keys.
  destruct (among removed p); reflexivity.
Qed.

Lemma os_remove_cases (p : pystr) (w : world) :
  (removable (files w) p = true /\
   os_remove p w
   = (Ok tt, {| files := remove_key p (files w);
                out_listable := out_listable w;
                stdout := stdout w |})) \/
  (removable (files w) p = false /\
   exists e, os_remove p w = (Raise e, w)).
Proof.
  unfold removable, os_remove. run_os.
  destruct (entry_at p (files w)) as [n|]; [|right; eauto].
  destruct (is_directory n); cbn [negb andb]; [right; eauto|].
  destruct (n_deletable n); [left|right]; eauto.
Qed.

(** One turn of the loop of [rotate_files]: it returns, removes at most the
    audio file and its sidecar, and prints at most one line, an error. *)
Lemma rotate_one_effect (p : pystr) (w : world) :
  exists removed log,
    rotate_one p w
    = (Ok tt, {| files := remove_keys removed (files w);
                 out_listable := out_listable w;
                 stdout := stdout w ++ log |}) /\
    incl removed [p; sidecar_of p] /\
    Forall (fun line => is_rotation_error line = true) log /\
    (removable (files w) p = true ->
     In p removed /\
     (can_stat (remove_key p (files w)) (sidecar_of p) = true ->
      removable (remove_key p (files w)) (sidecar_of p) = true ->
      In (sidecar_of p) removed)).
Proof.
  unfold rotate_one, try_except.
  destruct (os_remove_cases p w) as [[Rp Ep]|[Rp [e Ep]]].
  - rewrite (bind_ok _ Ep). unfold os_path_exists at 1.
    unfold bind at 1. unfold get_files at 1. unfold ret at 1.
    unfold bind at 1. cbn [files].
    fold (can_stat (remove_key p (files w)) (sidecar_of p)).
    set (w1 := {| files := remove_key p (files w);
                  out_listable := out_listable w; stdout := stdout w |}).
    destruct (can_stat (remove_key p (files w)) (sidecar_of p)) eqn:X.
    + destruct (os_remove_cases (sidecar_of p) w1) as [[Rt Et]|[Rt [e Et]]];
        change (files w1) with (remove_key p (files w)) in Rt; rewrite Et.
      * exists [p; sidecar_of p], []. repeat split.
        -- unfold w1. cbn [files out_listable stdout].
           rewrite (remove_key_as_keys p),
             (remove_key_as_keys (sidecar_of p)).
           rewrite remove_keys_twice, app_nil_r. reflexivity.
        -- apply incl_refl.
        -- constructor.
        -- left; reflexivity.
        -- intros _ _. right; left; reflexivity.
      * exists [p], [lit "Error rotating files: " ++ exn_str e].
        repeat split.
        -- unfold print, w1. cbn [files out_listable stdout].
           rewrite remove_key_as_keys. reflexivity.
        -- intros x [<-|[]]. left; reflexivity.
        -- constructor; [|constructor]. unfold is_rotation_error, startswith.
           rewrite drop_prefix_app. reflexivity.
        -- left; reflexivity.
        -- intros _ C. rewrite C in Rt. discriminate.
    + exists [p], []. repeat split.
      * unfold ret, w1. rewrite app_nil_r, remove_key_as_keys. reflexivity.
      * intros x [<-|[]]. left; reflexivity.
      * constructor.
      * left; reflexivity.
      * intros C. discriminate C.
  - unfold bind at 1. rewrite Ep.
    exists [], [lit "Error rotating files: " ++ exn_str e]. repeat split.
    + unfold print. rewrite remove_keys_nil. reflexivity.
    + apply incl_nil_l.
    + constructor; [|constructor]. unfold is_rotation_error, startswith.
      rewrite drop_prefix_app. reflexivity.
    + rewrite Rp in H. discriminate.
    + rewrite Rp in H. discriminate.
Qed.

Lemma removable_remove_keys (removed : list pystr) (p : pystr) (st : store) :
  removable (remove_keys removed st) p
  = negb (among removed p) && removable st p.
Proof.
  unfold removable. rewrite entry_remove_keys.
  destruct (among removed p); reflexivity.
Qed.

Lemma among_two_false (a b x : pystr) (removed : list pystr) :
  incl removed [a; b] -> x <> a -> x <> b -> among removed x = false.
Proof.
  intros I Ha Hb. destruct (among removed x) eqn:A; [|reflexivity].
  apply among_In in A. destruct (I x A) as [<-|[<-|[]]]; congruence.
Qed.

(** The loop of [rotate_files] over any list of paths: it returns, removes
    only victims and sidecars of victims, prints only errors, removes every
    victim the host lets go and, when the victims are distinct and none is
    the sidecar of one, also each sidecar that exists and that the host
    lets go. *)
Lemma rotate_loop_effect (victims : list pystr) :
  forall w : world,
  exists removed log,
    for_each victims rotate_one w
    = (Ok tt, {| files := remove_keys removed (files w);
                 out_listable := out_listable w;
                 stdout := stdout w ++ log |}) /\
    (forall r, In r removed ->
       exists v, In v victims /\ (r = v \/ r = sidecar_of v)) /\
    Forall (fun line => is_rotation_error line = true) log /\
    (forall v, In v victims -> removable (files w) v = true ->
               In v removed) /\
    (NoDup victims ->
     (forall v v', In v victims -> In v' victims -> v <> sidecar_of v') ->
     forall v, In v victims -> removable (files w) v = true ->
       can_stat (files w) (sidecar_of v) = true ->
       removable (files w) (sidecar_of v) = true ->
       In (sidecar_of v) removed).
Proof.
  induction victims as [|v victims IH]; intros w.
  - exists [], []. cbn [for_each]. unfold ret.
    rewrite remove_keys_nil, app_nil_r.
    split; [destruct w; reflexivity|].
    split; [intros r []|]. split; [constructor|].
    split; [intros v []|]. intros _ _ v [].
  - destruct (rotate_one_effect v w) as (R1 & log1 & E1 & I1 & F1 & D1).
    set (w1 := {| files := remove_keys R1 (files w);
                  out_listable := out_listable w;
                  stdout := stdout w ++ log1 |}) in *.
    destruct (IH w1) as (R2 & log2 & E2 & I2 & F2 & D2 & S2).
    exists (R1 ++ R2), (log1 ++ log2). cbn [for_each].
    rewrite (bind_ok _ E1), E2. unfold w1. cbn [files out_listable stdout].
    rewrite remove_keys_twice, app_assoc.
    split; [reflexivity|]. split; [|split; [|split]].
    + intros r Hr. apply in_app_or in Hr as [Hr|Hr].
      * exists v. split; [left; reflexivity|].
        destruct (I1 r Hr) as [<-|[<-|[]]]; auto.
      * destruct (I2 r Hr) as (v' & Hv' & C). exists v'.
        split; [right; exact Hv' | exact C].
    + apply Forall_app; split; assumption.
    + intros x [<-|Hx] Rx.
      * apply in_or_app. left. apply (D1 Rx).
      * apply in_or_app.
        destruct (among R1 x) eqn:A; [left; apply among_In; exact A|].
        right. apply D2; [exact Hx|]. unfold w1. cbn [files].
        rewrite removable_remove_keys, A, Rx. reflexivity.
    + intros N Hs x Hx Rx Cx Sx. apply in_or_app.
      inversion N as [|? ? Hv N']; subst.
      destruct Hx as [<-|Hx].
      * left. apply (D1 Rx).
        -- assert (A : among [v] (sidecar_of v) = false).
           { cbn [among existsb]. rewrite orb_false_r.
             apply str_eqb_neq. intros C.
             exact (Hs v v (or_introl eq_refl) (or_introl eq_refl)
                       (eq_sym C)). }
           rewrite remove_key_as_keys, can_stat_remove_keys, A. exact Cx.
        -- assert (A : among [v] (sidecar_of v) = false).
           { cbn [among existsb]. rewrite orb_false_r.
             apply str_eqb_neq. intros C.
             exact (Hs v v (or_introl eq_refl) (or_introl eq_refl)
                       (eq_sym C)). }
           rewrite remove_key_as_keys, removable_remove_keys, A. exact Sx.
      * destruct (among R1 (sidecar_of x)) eqn:A;
          [left; apply among_In; exact A|].
        right.
        assert (Ax : among R1 x = false).
        { apply (among_two_false I1).
          - intros ->. contradiction.
          - apply Hs; [right; exact Hx | left; reflexivity]. }
        apply S2; auto.
        -- intros a b Ha Hb. apply Hs; right; assumption.
        -- unfold w1. cbn [files].
           rewrite removable_remove_keys, Ax, Rx. reflexivity.
        -- unfold w1. cbn [files].
           rewrite can_stat_remove_keys, A, Cx. reflexivity.
        -- unfold w1. cbn [files].
           rewrite removable_remove_keys, A, Sx. reflexivity.
Qed.

(** [rotate_files] once the ranking has returned: it returns, removes only
    listed audio files beyond the five newest and their sidecars, and
    prints only errors. *)
Lemma rotate_files_effect (w : world) (ranked : list pystr) :
  wav_files_by_mtime w = (Ok ranked, w) ->
  exists removed log,
    rotate_files w
    = (Ok tt, {| files := remove_keys removed (files w);
                 out_listable := out_listable w;
                 stdout := stdout w ++ log |}) /\
    (forall r, In r removed ->
       exists v, In v (skipn MAX_HISTORY ranked) /\
                 (r = v \/ r = sidecar_of v)) /\
    Forall (fun line => is_rotation_error line = true) log /\
    (forall v, In v (skipn MAX_HISTORY ranked) ->
               removable (files w) v = true -> In v removed) /\
    (NoDup (skipn MAX_HISTORY ranked) ->
     (forall v v', In v (skipn MAX_HISTORY ranked) ->
                   In v' (skipn MAX_HISTORY ranked) -> v <> sidecar_of v') ->
     forall v, In v (skipn MAX_HISTORY ranked) ->
       removable (files w) v = true ->
       can_stat (files w) (sidecar_of v) = true ->
       removable (files w) (sidecar_of v) = true ->
       In (sidecar_of v) removed).
Proof.
  intros R. unfold rotate_files. rewrite (bind_ok _ R).
  destruct (Nat.ltb_spec MAX_HISTORY (length ranked)) as [Lt|Ge].
  - exact (rotate_loop_effect (skipn MAX_HISTORY ranked) w).
  - exists [], []. unfold ret. rewrite remove_keys_nil, app_nil_r.
    split; [destruct w; reflexivity|].
    rewrite skipn_all2 by exact Ge.
    split; [intros r []|]. split; [constructor|].
    split; [intros v []|]. intros _ _ v [].
Qed.

(** When [os.stat] fails on a listed audio file, [rotate_files] raises while
    ranking, before its [try]. *)
Lemma rotate_files_raises (w : world) :
  rankable w = false ->
  exists e,
    rotate_files w = (Raise e, w) /\ exn_class_of e = FileNotFoundError.
Proof.
  intros H. pose proof (wav_files_by_mtime_outcome w) as O. rewrite H in O.
  destruct O as (e & E & C). exists e. unfold rotate_files.
  rewrite (bind_raise _ E). auto.
Qed.

(** X9. With at most five audio files in the output folder, each of them
    one that [os.stat] finds, [rotate_files] changes nothing and prints
    nothing. *)
Theorem rotate_files_small_folder (w : world) :
  length (audio_paths w) <= MAX_HISTORY ->
  (forall p, In p (audio_paths w) -> lookup p (files w) <> None) ->
  rotate_files w = (Ok tt, w).
Proof.
  intros H S. apply rankable_forall in S.
  pose proof (wav_files_by_mtime_outcome w) as R. rewrite S in R.
  destruct (wav_files_ranked R) as (_ & P & _).
  unfold rotate_files. rewrite (bind_ok _ R).
  rewrite (Permutation_length P).
  destruct (Nat.ltb_spec MAX_HISTORY (length (audio_paths w))); [lia|].
  reflexivity.
Qed.

Lemma rotate_files_small_folder_witness :
  length (audio_paths cluttered_host) <= MAX_HISTORY /\
  rotate_files cluttered_host = (Ok tt, cluttered_host).
Proof.
  assert (H : length (audio_paths cluttered_host) <= MAX_HISTORY)
    by (vm_compute; lia).
  split; [exact H|].
  apply (@rotate_files_small_folder cluttered_host H).
  intros p [<-|[]]. vm_compute. discriminate.
Defined.

(** With a symbolic link named like an audio file whose target is gone,
    [rotate_files] raises although the folder holds two audio entries
    only. *)
Example rotate_files_raises_on_a_dangling_link :
  length (audio_paths dangling_host) = 2 /\
  exists e,
    rotate_files dangling_host = (Raise e, dangling_host) /\
    exn_class_of e = FileNotFoundError.
Proof. split; [reflexivity|]. eexists. split; reflexivity. Qed.

Lemma replace_from_no_slash (old new : pystr) (s : pystr) :
  existsb (N.eqb slash) new = false ->
  existsb (N.eqb slash) s = false ->
  forall skip, existsb (N.eqb slash) (replace_from old new skip s) = false.
Proof.
  intros Hn. induction s as [|c s IH]; intros Hs skip; [reflexivity|].
  cbn [existsb] in Hs. apply orb_false_iff in Hs as [Hc Hs].
  cbn [replace_from]. destruct skip as [|k]; [|auto].
  destruct (startswith old (c :: s)).
  - apply existsb_app_false; auto.
  - cbn [existsb]. rewrite Hc. cbn [orb]. auto.
Qed.

Lemma sidecar_of_output (name : pystr) :
  sidecar_of (OUTPUT_FOLDER ++ name)
  = OUTPUT_FOLDER ++ str_replace (lit ".wav") (lit ".txt") name.
Proof.
  unfold sidecar_of, str_replace.
  change (OUTPUT_FOLDER ++ name)
    with (dot :: lit "/static/output/" ++ name).
  rewrite replace_from_no_match by reflexivity.
  change (lit ".wav") with (dot :: lit "wav").
  rewrite replace_from_no_dot by reflexivity. reflexivity.
Qed.

Lemma sidecar_in_output (p name : pystr) :
  output_name p = Some name -> output_name (sidecar_of p) <> None.
Proof.
  intros H. destruct (output_name_Some H) as (-> & _ & Hne & Hs).
  rewrite sidecar_of_output, output_name_join; [discriminate| |].
  - destruct name as [|c name]; [congruence|].
    unfold str_replace. cbn [replace_from].
    destruct (startswith (lit ".wav") (c :: name)); discriminate.
  - apply replace_from_no_slash; [reflexivity | exact Hs].
Qed.

Lemma audio_paths_in_output (w : world) (p : pystr) :
  In p (audio_paths w) -> exists name, output_name p = Some name.
Proof.
  intros H. destruct (audio_paths_names H) as (name & -> & _ & Hn & _).
  apply output_names_In in Hn as (q & n & _ & Ho).
  destruct (output_name_Some Ho) as (-> & _). eauto.
Qed.

Lemma ranked_are_audio_paths (w : world) (ranked : list pystr) (v : pystr) :
  wav_files_by_mtime w = (Ok ranked, w) ->
  In v (skipn MAX_HISTORY ranked) -> In v (audio_paths w).
Proof.
  intros R H. destruct (wav_files_ranked R) as (_ & P & _).
  apply (Permutation_in _ P).
  rewrite <- (firstn_skipn MAX_HISTORY ranked). apply in_or_app. auto.
Qed.

(** What [rotate_files] removes lies in the output folder. *)
Lemma removed_in_output (w : world) (ranked removed : list pystr) :
  wav_files_by_mtime w = (Ok ranked, w) ->
  (forall r, In r removed ->
     exists v, In v (skipn MAX_HISTORY ranked) /\
               (r = v \/ r = sidecar_of v)) ->
  forall p, output_name p = None -> among removed p = false.
Proof.
  intros R I p Hp. destruct (among removed p) eqn:A; [|reflexivity].
  exfalso. apply among_In in A. destruct (I p A) as (v & Hv & C).
  destruct (audio_paths_in_output (ranked_are_audio_paths R Hv))
    as (name & Hn).
  destruct C as [->| ->]; [congruence|].
  exact (sidecar_in_output Hn Hp).
Qed.

Lemma same_outside_refl (w : world) : same_outside w w.
Proof. split; auto. Qed.

(** [rotate_files] leaves alone what is outside the output folder, whether
    it returns or raises. *)
Lemma keeps_rotate_files : keeps (fun w => w) rotate_files.
Proof.
  intros w. destruct (rankable w) eqn:K.
  - pose proof (wav_files_by_mtime_outcome w) as R. rewrite K in R.
    destruct (rotate_files_effect R) as (removed & log & E & I & _).
    rewrite E. cbn [snd]. split; [reflexivity|]. cbn [files].
    intros p Hp. rewrite entry_remove_keys, (removed_in_output R I Hp).
    reflexivity.
  - destruct (rotate_files_raises K) as (e & -> & _).
    apply same_outside_refl.
Qed.

(** X10. [rotate_files] raises only while ranking the audio files, which it
    does outside its [try]: exactly when [os.stat] fails on a listed audio
    file (a symbolic link whose target is gone), and then with
    [FileNotFoundError] and nothing changed; otherwise it returns.  In
    both cases it creates and changes no file, prints nothing but lines
    that start with "Error rotating files: ", and leaves alone every path
    that is not a direct entry of the output folder, the reference clips
    among them. *)
Theorem rotate_files_only_deletes (w : world) :
  exists r w' log,
    rotate_files w = (r, w') /\
    (r = Ok tt \/
     exists e, r = Raise e /\ exn_class_of e = FileNotFoundError /\ w' = w) /\
    (r = Ok tt <->
     forall p, In p (audio_paths w) -> lookup p (files w) <> None) /\
    out_listable w' = out_listable w /\
    stdout w' = stdout w ++ log /\
    Forall (fun line => is_rotation_error line = true) log /\
    (forall p, lookup p (files w') = None \/
               lookup p (files w') = lookup p (files w)) /\
    (forall p, output_name p = None ->
               lookup p (files w') = lookup p (files w)).
Proof.
  destruct (rankable w) eqn:K.
  - pose proof (wav_files_by_mtime_outcome w) as R. rewrite K in R.
    destruct (rotate_files_effect R) as (removed & log & E & I & F & _).
    eexists. eexists. exists log. split; [exact E|].
    cbn [files out_listable stdout].
    split; [left; reflexivity|].
    split; [split; [intros _; apply rankable_forall; exact K
                   | reflexivity]|].
    repeat split; auto.
    + intros p. rewrite lookup_remove_keys. destruct (among removed p); auto.
    + intros p Hp. rewrite lookup_remove_keys, (removed_in_output R I Hp).
      reflexivity.
  - destruct (rotate_files_raises K) as (e & E & C).
    exists (Raise e), w, []. split; [exact E|].
    split; [right; exists e; auto|].
    split; [split; [discriminate|]|].
    { intros H. apply rankable_forall in H. congruence. }
    rewrite app_nil_r. repeat split; auto.
Qed.

(** X11. The audio files [rotate_files] ranks beyond the five newest are
    gone afterwards, each one the host lets it unlink. *)
Theorem rotate_files_deletes_old (w w' : world) (ranked : list pystr)
        (v : pystr) :
  wav_files_by_mtime w = (Ok ranked, w) ->
  rotate_files w = (Ok tt, w') ->
  In v (skipn MAX_HISTORY ranked) ->
  removable (files w) v = true ->
  lookup v (files w') = None.
Proof.
  intros R E Hv Rv.
  destruct (rotate_files_effect R) as (removed & log & E' & _ & _ & D & _).
  rewrite E in E'. injection E' as ->. cbn [files].
  rewrite lookup_remove_keys.
  replace (among removed v) with true; [reflexivity|].
  symmetry. apply among_In. auto.
Qed.

Lemma rotate_files_deletes_old_witness :
  wav_files_by_mtime (archive_host seven_artifacts)
  = (Ok (rev (map wav_of seven_artifacts)), archive_host seven_artifacts) /\
  In (wav_path_of (lit "20240101-120000"))
     (skipn MAX_HISTORY (rev (map wav_of seven_artifacts))) /\
  lookup (wav_path_of (lit "20240101-120000"))
         (files (snd (rotate_files (archive_host seven_artifacts)))) = None.
Proof.
  assert (R : wav_files_by_mtime (archive_host seven_artifacts)
              = (Ok (rev (map wav_of seven_artifacts)),
                 archive_host seven_artifacts)) by (vm_compute; reflexivity).
  assert (V : In (wav_path_of (lit "20240101-120000"))
                 (skipn MAX_HISTORY (rev (map wav_of seven_artifacts))))
    by (right; left; reflexivity).
  split; [exact R|]. split; [exact V|].
  apply (@rotate_files_deletes_old (archive_host seven_artifacts)
           (snd (rotate_files (archive_host seven_artifacts)))
           (rev (map wav_of seven_artifacts))
           (wav_path_of (lit "20240101-120000")) R).
  - vm_compute. reflexivity.
  - exact V.
  - vm_compute. reflexivity.
Defined.

Lemma output_names_NoDup (st : store) :
  unique_paths st -> NoDup (output_names st).
Proof.
  unfold unique_paths. induction st as [|[p n] st IH]; [constructor|].
  cbn [map fst output_names]. intros U. inversion U as [|? ? Hp U']; subst.
  destruct (output_name p) as [name|] eqn:O; [|auto].
  constructor; [|auto]. intros Hin.
  apply output_names_In in Hin as (q & m & Hq & Oq).
  destruct (output_name_Some O) as (-> & _).
  destruct (output_name_Some Oq) as (-> & _).
  apply Hp. change (OUTPUT_FOLDER ++ name) with (fst (OUTPUT_FOLDER ++ name, m)).
  apply in_map. exact Hq.
Qed.

Lemma NoDup_map_output (names : list pystr) :
  NoDup names -> NoDup (map (app OUTPUT_FOLDER) names).
Proof.
  induction 1 as [|x l Hx _ IH]; cbn [map]; constructor; [|exact IH].
  intros Hin. apply in_map_iff in Hin as (y & E & Hy).
  apply app_inv_head in E. subst y. contradiction.
Qed.

Lemma audio_paths_NoDup (w : world) :
  unique_paths (files w) -> NoDup (audio_paths w).
Proof.
  intros U. unfold audio_paths. destruct (out_listable w); [|constructor].
  rewrite (@map_ext_in _ _ (os_path_join OUTPUT_FOLDER) (app OUTPUT_FOLDER)).
  - apply NoDup_map_output, NoDup_filter, output_names_NoDup. exact U.
  - intros name Hn. apply filter_In in Hn as [Hn _].
    apply output_names_In in Hn as (q & n & _ & Ho).
    destruct (output_name_Some Ho) as (_ & _ & _ & X).
    apply join_output, startswith_slash_false. exact X.
Qed.

Lemma NoDup_app_apart {A : Type} (a b : list A) (x : A) :
  NoDup (a ++ b) -> In x a -> In x b -> False.
Proof.
  induction a as [|y a IH]; [intros _ []|].
  cbn [app]. intros N [<-|Ha] Hb; inversion N as [|? ? Hy N']; subst.
  - apply Hy. apply in_or_app. auto.
  - eauto.
Qed.

Lemma startswith_wav_app (s : pystr) :
  s <> [] ->
  startswith (lit ".wav") (s ++ lit ".wav") = true ->
  startswith (lit ".wav") s = true /\ 4 <= length s.
Proof.
  intros Hs. unfold startswith.
  change (lit ".wav") with [46; 119; 97; 118]%N.
  destruct s as [|c1 [|c2 [|c3 [|c4 s]]]]; [congruence| | | |];
    cbn [app drop_prefix length];
    repeat match goal with
           | |- context [N.eqb ?a ?b] => destruct (N.eqb_spec a b); subst
           end; try discriminate; intros _; split; auto; lia.
Qed.

Lemma replace_from_wav_suffix (a : pystr) :
  forall skip, skip <= length a ->
  replace_from (lit ".wav") (lit ".txt") skip (a ++ lit ".wav")
  = replace_from (lit ".wav") (lit ".txt") skip a ++ lit ".txt".
Proof.
  induction a as [|c a IH]; intros skip Hk.
  - cbn [length] in Hk. replace skip with 0 by lia. reflexivity.
  - cbn [length] in Hk. cbn [app replace_from]. destruct skip as [|k].
    + change (c :: a ++ lit ".wav") with ((c :: a) ++ lit ".wav").
      destruct (startswith (lit ".wav") ((c :: a) ++ lit ".wav")) eqn:S.
      * destruct (startswith_wav_app (s := c :: a)) as [S' L];
          [discriminate | exact S |].
        rewrite S'. cbn [length] in L.
        rewrite IH by (change (length (lit ".wav")) with 4; lia).
        rewrite app_assoc. reflexivity.
      * replace (startswith (lit ".wav") (c :: a)) with false.
        -- rewrite IH by lia. reflexivity.
        -- symmetry. unfold startswith in *.
           destruct (drop_prefix (lit ".wav") (c :: a)) as [r|] eqn:D;
             [|reflexivity].
           apply drop_prefix_Some in D. rewrite D, <- app_assoc in S.
           rewrite drop_prefix_app in S. discriminate.
    + apply IH. lia.
Qed.

Lemma sidecar_of_wav_suffix (a : pystr) :
  sidecar_of (a ++ lit ".wav") = sidecar_of a ++ lit ".txt".
Proof. apply replace_from_wav_suffix. lia. Qed.

Lemma audio_path_wav_suffix (w : world) (p : pystr) :
  In p (audio_paths w) -> exists a, p = a ++ lit ".wav".
Proof.
  intros H. destruct (audio_paths_names H) as (name & -> & F & _).
  unfold fnmatch_mira_wav in F.
  destruct (drop_prefix (lit "mira_") name) as [r|] eqn:D; [|discriminate].
  apply drop_prefix_Some in D. subst name.
  unfold endswith, startswith in F.
  destruct (drop_prefix (rev (lit ".wav")) (rev r)) as [x|] eqn:E;
    [|discriminate].
  apply drop_prefix_Some in E. apply (f_equal (@rev N)) in E.
  rewrite rev_involutive, rev_app_distr, rev_involutive in E. subst r.
  exists (OUTPUT_FOLDER ++ lit "mira_" ++ rev x).
  rewrite <- !app_assoc. reflexivity.
Qed.

Lemma audio_path_not_sidecar (w : world) (p v : pystr) :
  In p (audio_paths w) -> In v (audio_paths w) -> p <> sidecar_of v.
Proof.
  intros Hp Hv E.
  destruct (audio_path_wav_suffix Hp) as (a & ->).
  destruct (audio_path_wav_suffix Hv) as (b & ->).
  rewrite sidecar_of_wav_suffix in E. apply (f_equal (@rev N)) in E.
  rewrite !rev_app_distr in E. discriminate E.
Qed.

(** X12. [rotate_files] keeps the five newest audio files of the output
    folder as they are. *)
Theorem rotate_files_keeps_newest (w w' : world) (ranked : list pystr)
        (p : pystr) :
  unique_paths (files w) ->
  wav_files_by_mtime w = (Ok ranked, w) ->
  rotate_files w = (Ok tt, w') ->
  In p (firstn MAX_HISTORY ranked) ->
  lookup p (files w') = lookup p (files w).
Proof.
  intros U R E Hp.
  destruct (rotate_files_effect R) as (removed & log & E' & I & _).
  rewrite E in E'. injection E' as ->. cbn [files].
  rewrite lookup_remove_keys.
  destruct (among removed p) eqn:A; [|reflexivity].
  exfalso. apply among_In in A. destruct (I p A) as (v & Hv & C).
  destruct (wav_files_ranked R) as (_ & P & _).
  assert (N : NoDup ranked).
  { apply (Permutation_NoDup (Permutation_sym P)).
    apply audio_paths_NoDup. exact U. }
  destruct C as [->|C].
  - rewrite <- (firstn_skipn MAX_HISTORY ranked) in N.
    exact (NoDup_app_apart N Hp Hv).
  - refine (@audio_path_not_sidecar w p v _ _ C).
    + apply (Permutation_in _ P). apply (in_firstn Hp).
    + exact (ranked_are_audio_paths R Hv).
Qed.

Lemma distinct_NoDup (l : list pystr) : distinct l = true -> NoDup l.
Proof.
  induction l as [|x l IH]; [constructor|].
  cbn [distinct]. rewrite andb_true_iff, negb_true_iff. intros [A D].
  constructor; [|auto]. intros Hin. apply among_In in Hin. congruence.
Qed.

Lemma archive_unique : unique_paths (files (archive_host seven_artifacts)).
Proof. apply distinct_NoDup. vm_compute. reflexivity. Qed.

Lemma rotate_files_keeps_newest_witness :
  In (wav_path_of (lit "20240101-120002"))
     (firstn MAX_HISTORY (rev (map wav_of seven_artifacts))) /\
  lookup (wav_path_of (lit "20240101-120002"))
         (files (snd (rotate_files (archive_host seven_artifacts))))
  = lookup (wav_path_of (lit "20240101-120002"))
           (files (archive_host seven_artifacts)).
Proof.
  assert (H : In (wav_path_of (lit "20240101-120002"))
                 (firstn MAX_HISTORY (rev (map wav_of seven_artifacts))))
    by (do 4 right; left; reflexivity).
  split; [exact H|].
  apply (@rotate_files_keeps_newest (archive_host seven_artifacts)
           (snd (rotate_files (archive_host seven_artifacts)))
           (rev (map wav_of seven_artifacts))
           (wav_path_of (lit "20240101-120002"))).
  - exact archive_unique.
  - vm_compute. reflexivity.
  - vm_compute. reflexivity.
  - exact H.
Defined.

Lemma lastn_lastn {A : Type} (n : nat) (l : list A) :
  lastn n (lastn n l) = lastn n l.
Proof. apply lastn_all. rewrite lastn_length. apply Nat.le_min_r. Qed.

(** X13. Rotating twice is rotating once: on an output folder that holds
    generations only, a second [rotate_files] finds nothing to do. *)
Theorem rotate_files_idempotent (w : world) (st0 : store)
        (gs : list artifact) :
  files w = st0 ++ flat_map artifact_nodes gs ->
  out_listable w = true ->
  outside_output st0 ->
  orderly gs ->
  exists w1,
    rotate_files w = (Ok tt, w1) /\
    length (audio_paths w1) <= MAX_HISTORY /\
    rotate_files w1 = (Ok tt, w1).
Proof.
  intros Hf Hl Ho Hg. eexists. split;
    [exact (rotate_files_artifacts Hf Hl Ho Hg)|].
  set (w1 := {| files := st0 ++ flat_map artifact_nodes (lastn MAX_HISTORY gs);
                out_listable := true; stdout := stdout w |}).
  assert (R : wav_files_by_mtime w1
              = (Ok (rev (map wav_of (lastn MAX_HISTORY gs))), w1)).
  { apply (@wav_files_artifacts w1 st0 (lastn MAX_HISTORY gs));
      auto using orderly_lastn. }
  destruct (wav_files_ranked R) as (_ & P & _).
  assert (L : length (audio_paths w1) <= MAX_HISTORY).
  { rewrite <- (Permutation_length P), length_rev, length_map, lastn_length.
    apply Nat.le_min_r. }
  split; [exact L|].
  unfold rotate_files. rewrite (bind_ok _ R).
  rewrite (Permutation_length P).
  destruct (Nat.ltb_spec MAX_HISTORY (length (audio_paths w1))); [lia|].
  reflexivity.
Qed.

Lemma rotate_files_idempotent_witness :
  exists w1,
    rotate_files (archive_host seven_artifacts) = (Ok tt, w1) /\
    length (audio_paths w1) <= MAX_HISTORY /\
    rotate_files w1 = (Ok tt, w1).
Proof.
  apply (@rotate_files_idempotent (archive_host seven_artifacts)
           reference_clip seven_artifacts).
  - reflexivity.
  - reflexivity.
  - exact reference_clip_outside.
  - exact seven_artifacts_orderly.
Defined.



Section Rotation.

Context {style tensor array : Type}.
Variable ext : collaborators style tensor array.


End Rotation.


(** On [crowded_host], whose eight audio files were not written in the
    order of their names and are not all paired, [rotate_files] keeps the
    five most recently modified ones and removes the three others with the
    one sidecar among them. *)
Example rotate_files_on_a_crowded_folder :
  map fst (files crowded_host)
  = [in_output "mira_a.wav"; in_output "mira_a.txt";
     in_output "mira_b.wav"; in_output "mira_c.wav";
     in_output "mira_d.wav"; in_output "mira_d.txt";
     in_output "mira_e.wav"; in_output "mira_f.wav";
     in_output "mira_g.wav"; in_output "mira_h.wav";
     in_output "notes.md"] /\
  wav_files_by_mtime crowded_host
  = (Ok [in_output "mira_c.wav"; in_output "mira_h.wav";
         in_output "mira_a.wav"; in_output "mira_f.wav";
         in_output "mira_e.wav"; in_output "mira_g.wav";
         in_output "mira_d.wav"; in_output "mira_b.wav"],
     crowded_host) /\
  map fst (files (snd (rotate_files crowded_host)))
  = [in_output "mira_a.wav"; in_output "mira_a.txt";
     in_output "mira_c.wav"; in_output "mira_e.wav";
     in_output "mira_f.wav"; in_output "mira_h.wav";
     in_output "notes.md"].
Proof. repeat split; vm_compute; reflexivity. Qed.


(* ================================================================== *)
(** * More on the startup cleanup *)
(* ================================================================== *)

Lemma artifact_entry_not_stray (gs : list artifact) (e : pystr * node) :
  Forall (fun a => is_stamp (a_stamp a) = true) gs ->
  In e (flat_map artifact_nodes gs) -> stray e = false.
Proof.
  intros S H. apply in_flat_map in H as (g & Hg & He).
  rewrite Forall_forall in S. specialize (S g Hg).
  destruct (pattern_match_artifact S) as [Pw Pt].
  unfold artifact_nodes, sidecar_nodes in He. unfold stray.
  destruct He as [<-|He].
  - cbn [fst snd]. unfold wav_of. rewrite (output_name_wav S), Pw.
    rewrite andb_false_r. reflexivity.
  - destruct (a_text g) as [text|]; [|destruct He].
    destruct He as [<-|[]]. cbn [fst snd]. unfold txt_of.
    rewrite (output_name_txt S), Pt. rewrite andb_false_r. reflexivity.
Qed.

(** X14. The startup cleanup keeps what the application wrote: in an output
    folder that holds generations only, [cleanup_on_launch] removes no
    file, there or anywhere else; it only prints its notice. *)
Theorem cleanup_on_launch_keeps_generations (w : world) (st0 : store)
        (gs : list artifact) :
  files w = st0 ++ flat_map artifact_nodes gs ->
  out_listable w = true ->
  unique_paths (files w) ->
  outside_output st0 ->
  Forall (fun a => is_stamp (a_stamp a) = true) gs ->
  cleanup_on_launch w
  = (Ok tt, {| files := files w;
               out_listable := true;
               stdout := stdout w ++ [lit "Performing startup cleanup..."] |}).
Proof.
  intros Hf Hl U Ho S. rewrite (cleanup_on_launch_effect Hl U).
  rewrite filter_all; [reflexivity|].
  intros e He. rewrite Hf in He. apply in_app_or in He as [He|He].
  - destruct e as [p n]. unfold stray. cbn [fst].
    rewrite (Ho p n He). reflexivity.
  - rewrite (artifact_entry_not_stray S He). reflexivity.
Qed.

Lemma cleanup_on_launch_keeps_generations_witness :
  cleanup_on_launch (archive_host seven_artifacts)
  = (Ok tt, {| files := files (archive_host seven_artifacts);
               out_listable := true;
               stdout := stdout (archive_host seven_artifacts)
                         ++ [lit "Performing startup cleanup..."] |}).
Proof.
  apply (@cleanup_on_launch_keeps_generations (archive_host seven_artifacts)
           reference_clip seven_artifacts).
  - reflexivity.
  - reflexivity.
  - exact archive_unique.
  - exact reference_clip_outside.
  - exact (proj1 seven_artifacts_orderly).
Defined.

Lemma entry_outside_strays (p : pystr) (st : store) :
  output_name p = None ->
  entry_at p (filter (fun e => negb (stray e)) st) = entry_at p st.
Proof.
  intros Hp. induction st as [|[q n] st IH]; [reflexivity|].
  cbn [filter entry_at]. destruct (str_eqb p q) eqn:E.
  - apply str_eqb_eq in E. subst q. unfold stray. cbn [fst].
    rewrite Hp. cbn [negb entry_at]. rewrite str_eqb_refl. reflexivity.
  - destruct (negb (stray (q, n))); cbn [entry_at]; rewrite ?E; exact IH.
Qed.

(** X15. Cleaning twice is cleaning once: a second [cleanup_on_launch]
    removes nothing more, and none of them touches a path outside the
    output folder. *)
Theorem cleanup_on_launch_idempotent (w : world) :
  unique_paths (files w) ->
  files (snd (cleanup_on_launch (snd (cleanup_on_launch w))))
  = files (snd (cleanup_on_launch w)) /\
  (forall p, output_name p = None ->
     lookup p (files (snd (cleanup_on_launch w))) = lookup p (files w)).
Proof.
  intros U. destruct (out_listable w) eqn:Hl.
  - rewrite (cleanup_on_launch_effect Hl U). cbn [snd]. split.
    + rewrite cleanup_on_launch_effect;
        [|reflexivity | cbn [files]; apply filter_unique; exact U].
      cbn [snd files]. rewrite filter_twice. apply filter_ext.
      intros e. destruct (stray e); reflexivity.
    + intros p Hp. cbn [files]. unfold lookup.
      rewrite entry_outside_strays by exact Hp. reflexivity.
  - split.
    + assert (Hl' : out_listable (snd (cleanup_on_launch w)) = false).
      { unfold cleanup_on_launch, listdir_output. run_os.
        cbn [out_listable]. rewrite Hl. reflexivity. }
      rewrite (cleanup_on_launch_unlistable Hl'). reflexivity.
    + intros p _. rewrite (cleanup_on_launch_unlistable Hl). reflexivity.
Qed.

Lemma cleanup_on_launch_idempotent_witness :
  files (snd (cleanup_on_launch (snd (cleanup_on_launch cluttered_host))))
  = files (snd (cleanup_on_launch cluttered_host)) /\
  (forall p, output_name p = None ->
     lookup p (files (snd (cleanup_on_launch cluttered_host)))
     = lookup p (files cluttered_host)).
Proof.
  apply (@cleanup_on_launch_idempotent cluttered_host).
  apply distinct_NoDup. vm_compute. reflexivity.
Defined.

(* ================================================================== *)
(** * The start of the script *)
(* ================================================================== *)

(** X16. When the output folder cannot be enumerated, the script stops at
    its start with "Failed to load engine: [Errno 13] Permission denied:
    './static/output/'": the cleanup raises inside [load_engine], so the
    engine is never constructed, whatever its constructor would do, the
    line "Loading MiraTTS Model..." is not printed and no file is
    removed. *)
Theorem startup_stops_when_unlistable {engine : Type}
        (construct : outcome engine) (w : world) :
  out_listable w = false ->
  startup construct w
  = (ScriptStopped
       (lit "Failed to load engine: [Errno 13] Permission denied: './static/output/'"),
     {| files := files w;
        out_listable := false;
        stdout := stdout w ++ [lit "Performing startup cleanup..."] |}).
Proof.
  intros Hl. unfold startup, load_engine, cleanup_on_launch, listdir_output.
  run_os. cbn [out_listable files stdout]. rewrite Hl. reflexivity.
Qed.

Lemma startup_stops_when_unlistable_witness :
  startup (Ok tt) sealed_host
  = (ScriptStopped
       (lit "Failed to load engine: [Errno 13] Permission denied: './static/output/'"),
     {| files := files sealed_host;
        out_listable := false;
        stdout := [lit "Performing startup cleanup..."] |}).
Proof.
  apply (@startup_stops_when_unlistable unit (Ok tt) sealed_host).
  reflexivity.
Defined.

(** X17. When the output folder can be enumerated, the start of the script
    cleans it and then constructs the engine: it ends with the engine the
    constructor returns, or stops with "Failed to load engine: " followed
    by the constructor's message; in both cases the strays are already
    gone and both notices are printed. *)
Theorem startup_after_cleanup {engine : Type} (construct : outcome engine)
        (w : world) :
  out_listable w = true ->
  unique_paths (files w) ->
  startup construct w
  = (match construct with
     | Ok m => EngineLoaded m
     | Raise e => ScriptStopped (lit "Failed to load engine: " ++ exn_str e)
     end,
     {| files := filter (fun e => negb (stray e)) (files w);
        out_listable := true;
        stdout := stdout w ++ [lit "Performing startup cleanup...";
                               lit "Loading MiraTTS Model..."] |}).
Proof.
  intros Hl U. unfold startup, load_engine.
  rewrite (bind_ok _ (cleanup_on_launch_effect Hl U)).
  unfold bind, print, lift_outcome. cbn [files out_listable stdout].
  rewrite <- app_assoc. destruct construct; reflexivity.
Qed.

Lemma startup_after_cleanup_witness :
  startup (Raise out_of_memory : outcome unit) cluttered_host
  = (ScriptStopped (lit "Failed to load engine: CUDA out of memory"),
     {| files := filter (fun e => negb (stray e)) (files cluttered_host);
        out_listable := true;
        stdout := [lit "Performing startup cleanup...";
                   lit "Loading MiraTTS Model..."] |}).
Proof.
  apply (@startup_after_cleanup unit (Raise out_of_memory) cluttered_host).
  - reflexivity.
  - apply distinct_NoDup. vm_compute. reflexivity.
Defined.

(* ================================================================== *)
(** * The reference store and the voice tab *)
(* ================================================================== *)

Lemma join_reference (name : pystr) :
  startswith [slash] name = false ->
  os_path_join REFERENCE_FOLDER name = REFERENCE_FOLDER ++ name.
Proof. unfold os_path_join. intros ->. reflexivity. Qed.

Lemma reference_name_join (name : pystr) :
  name <> [] -> existsb (N.eqb slash) name = false ->
  reference_name (REFERENCE_FOLDER ++ name) = Some name.
Proof.
  intros Hne Hs. unfold reference_name. rewrite drop_prefix_app.
  rewrite (proj2 (truthy_true name) Hne), Hs. reflexivity.
Qed.

Lemma reference_names_In (name : pystr) (st : store) (p : pystr) (n : node) :
  In (p, n) st -> reference_name p = Some name ->
  In name (reference_names st).
Proof.
  intros H R. induction st as [|[q m] st IH]; [destruct H|].
  cbn [reference_names]. destruct H as [E|H].
  - injection E as -> ->. rewrite R. left; reflexivity.
  - destruct (reference_name q); [right|]; auto.
Qed.

Lemma entry_In (p : pystr) (n : node) (st : store) :
  entry_at p st = Some n -> In (p, n) st.
Proof.
  induction st as [|[q m] st IH]; [discriminate|].
  cbn [entry_at]. destruct (str_eqb p q) eqn:E.
  - apply str_eqb_eq in E. intros [= ->]. left. congruence.
  - auto using in_cons.
Qed.

Lemma entry_replace_node (p q : pystr) (n : node) (st : store) :
  entry_at q (replace_node p n st)
  = if str_eqb q p
    then match entry_at p st with Some _ => Some n | None => None end
    else entry_at q st.
Proof.
  induction st as [|[r m] st IH].
  - cbn. destruct (str_eqb q p); reflexivity.
  - cbn [replace_node entry_at]. destruct (str_eqb p r) eqn:E.
    + apply str_eqb_eq in E. subst r. cbn [entry_at].
      destruct (str_eqb q p); reflexivity.
    + cbn [entry_at]. rewrite IH. destruct (str_eqb q r) eqn:F; [|reflexivity].
      apply str_eqb_eq in F. subst r.
      rewrite (str_eqb_sym q p), E. reflexivity.
Qed.

Lemma entry_snoc (p q : pystr) (n : node) (st : store) :
  entry_at q (st ++ [(p, n)])
  = match entry_at q st with
    | Some m => Some m
    | None => if str_eqb q p then Some n else None
    end.
Proof. rewrite entry_app. reflexivity. Qed.

(** Whatever [write_file] does at [p], it leaves every other path alone. *)
Lemma write_file_frame (p : pystr) (data : list N) (now : Z) (w : world)
      (q : pystr) :
  q <> p ->
  entry_at q (files (snd (write_file p data now w))) = entry_at q (files w).
Proof.
  intros Hq. apply str_eqb_neq in Hq. unfold write_file. run_os.
  destruct (entry_at p (files w)) as [n|] eqn:L.
  - destruct (n_kind n); try reflexivity;
      (destruct (n_writable n); [|reflexivity]);
      cbn [snd files]; rewrite entry_replace_node, Hq; reflexivity.
  - cbn [snd files]. rewrite entry_snoc, Hq.
    destruct (entry_at q (files w)); reflexivity.
Qed.

(** Writing where the host allows it: the file then holds the data. *)
Lemma write_file_effect (p : pystr) (data : list N) (now : Z) (w : world) :
  writable_or_new (files w) p = true ->
  exists w' n,
    write_file p data now w = (Ok tt, w') /\
    out_listable w' = out_listable w /\ stdout w' = stdout w /\
    entry_at p (files w') = Some n /\
    n_kind n = RegularFile /\ n_data n = data /\ n_mtime n = now /\
    n_readable n = match lookup p (files w) with
                   | Some m => n_readable m
                   | None => true
                   end.
Proof.
  unfold writable_or_new, write_file, lookup. run_os.
  destruct (entry_at p (files w)) as [n|] eqn:L.
  - destruct (n_kind n); try discriminate; intros ->;
      do 2 eexists; (split; [reflexivity|]);
      cbn [files out_listable stdout];
      rewrite entry_replace_node, str_eqb_refl, L;
      repeat split; reflexivity.
  - intros _. do 2 eexists. split; [reflexivity|].
    cbn [files out_listable stdout].
    rewrite entry_snoc, L, str_eqb_refl.
    repeat split; reflexivity.
Qed.

Lemma write_file_Ok (p : pystr) (data : list N) (now : Z) (w w' : world) :
  write_file p data now w = (Ok tt, w') ->
  writable_or_new (files w) p = true.
Proof.
  unfold writable_or_new, write_file. run_os.
  destruct (entry_at p (files w)) as [n|]; [|reflexivity].
  destruct (n_kind n); try discriminate;
    (destruct (n_writable n); [reflexivity | discriminate]).
Qed.

Lemma write_file_listable (p : pystr) (data : list N) (now : Z) (w : world) :
  out_listable (snd (write_file p data now w)) = out_listable w.
Proof.
  unfold write_file. run_os.
  destruct (entry_at p (files w)) as [n|]; [|reflexivity].
  destruct (n_kind n); try reflexivity; destruct (n_writable n); reflexivity.
Qed.



(** X19. After an upload, the voice tab offers the clip exactly when its
    name ends with [.wav], [.mp3] or [.ogg], in lower case; and choosing
    it selects the very path [save_reference] wrote. *)
Theorem saved_voice_is_offered (name : pystr) (data : list N) (now : Z)
        (w w' : world) (path : pystr) :
  name <> [] ->
  existsb (N.eqb slash) name = false ->
  save_reference name data now w = (Ok path, w') ->
  exists refs,
    list_voices true w' = (Ok refs, w') /\
    (In name refs <-> is_voice_name name = true) /\
    (is_voice_name name = true ->
     exists pick, select_voice true pick w' = (Ok (Some path), w')).
Proof.
  intros Hne Hs. unfold save_reference.
  rewrite (join_reference (startswith_slash_false Hs)).
  pose proof (reference_name_join Hne Hs) as Rn.
  remember (REFERENCE_FOLDER ++ name) as p eqn:Hp.
  unfold bind at 1.
  destruct (write_file p data now w) as [[[]|e] w1] eqn:E; [|discriminate].
  unfold ret. intros H. injection H as <- <-.
  assert (L : exists n, entry_at p (files w1) = Some n).
  { destruct (write_file_effect data now (write_file_Ok E))
      as (w2 & n & E2 & _ & _ & L & _).
    rewrite E in E2. injection E2 as <-. eauto. }
  destruct L as (n & L).
  assert (Hin : In name (reference_names (files w1))).
  { exact (reference_names_In (entry_In L) Rn). }
  eexists. split; [reflexivity|]. split.
  - rewrite filter_In. split; [tauto|]. auto.
  - intros V. unfold select_voice. unfold bind, list_voices.
    assert (Hf : In name (filter is_voice_name (reference_names (files w1))))
      by (apply filter_In; auto).
    destruct (filter is_voice_name (reference_names (files w1)))
      as [|first refs] eqn:F; [destruct Hf|].
    destruct (In_nth _ _ first Hf) as (pick & _ & Hn).
    exists pick. unfold ret. rewrite Hn.
    rewrite (join_reference (startswith_slash_false Hs)), Hp. reflexivity.
Qed.

Lemma saved_voice_is_offered_witness :
  exists refs,
    list_voices true
      (snd (save_reference (lit "anna.wav") [82; 73; 70; 70]%N 7
              cluttered_host))
    = (Ok refs,
       snd (save_reference (lit "anna.wav") [82; 73; 70; 70]%N 7
              cluttered_host)) /\
    (In (lit "anna.wav") refs <-> is_voice_name (lit "anna.wav") = true) /\
    (is_voice_name (lit "anna.wav") = true ->
     exists pick,
       select_voice true pick
         (snd (save_reference (lit "anna.wav") [82; 73; 70; 70]%N 7
                 cluttered_host))
       = (Ok (Some (REFERENCE_FOLDER ++ lit "anna.wav")),
          snd (save_reference (lit "anna.wav") [82; 73; 70; 70]%N 7
                 cluttered_host))).
Proof.
  apply (@saved_voice_is_offered (lit "anna.wav") [82; 73; 70; 70]%N 7%Z
           cluttered_host).
  - discriminate.
  - reflexivity.
  - reflexivity.
Defined.

(* ================================================================== *)
(** * The transcript on disk *)
(* ================================================================== *)

Lemma Some_eq {A : Type} (x y : A) : Some x = Some y -> x = y.
Proof. congruence. Qed.

Lemma split64 (c : N) :
  (c = 64 * (c / 64) + c mod 64 /\ c mod 64 < 64)%N.
Proof.
  split; [apply N.div_mod'|]. apply N.mod_upper_bound. discriminate.
Qed.

Lemma div_4096 (c : N) : (c / 4096 = c / 64 / 64)%N.
Proof. rewrite N.Div0.div_div. reflexivity. Qed.

Lemma div_262144 (c : N) : (c / 262144 = c / 64 / 64 / 64)%N.
Proof. rewrite !N.Div0.div_div. reflexivity. Qed.

Lemma utf8_decode_encoded_char (c : N) (b : list N) (r : list N) :
  utf8_encode_char c = Some b ->
  utf8_decode (b ++ r) = option_map (cons c) (utf8_decode r).
Proof.
  unfold utf8_encode_char.
  destruct (N.ltb_spec c 128) as [H1|H1].
  { intros H; apply Some_eq in H; subst b. cbn [app utf8_decode].
    replace (N.ltb c 128) with true by (symmetry; apply N.ltb_lt; exact H1).
    reflexivity. }
  destruct (split64 c) as [E0 M0].
  destruct (split64 (c / 64)) as [E1 M1].
  destruct (split64 (c / 64 / 64)) as [E2 M2].
  destruct (N.ltb_spec c 2048) as [H2|H2].
  { intros H; apply Some_eq in H; subst b. cbn [app utf8_decode].
    set (q := (c / 64)%N) in *. set (m := (c mod 64)%N) in *.
    replace (N.ltb (192 + q) 128) with false by (symmetry; bool_true).
    replace (in_range 194 223 (192 + q)) with true by (symmetry; bool_true).
    replace (is_cont (128 + m)) with true by (symmetry; bool_true).
    replace ((192 + q - 192) * 64 + (128 + m - 128))%N with c by lia.
    reflexivity. }
  destruct (N.ltb_spec c 65536) as [H3|H3].
  { destruct (in_range 55296 57343 c) eqn:Sur; [discriminate|].
    intros H; apply Some_eq in H; subst b. cbn [app utf8_decode]. rewrite div_4096.
    set (q := (c / 64)%N) in *. set (m := (c mod 64)%N) in *.
    set (q1 := (q / 64)%N) in *. set (m1 := (q mod 64)%N) in *.
    replace (N.ltb (224 + q1) 128) with false by (symmetry; bool_true).
    replace (in_range 194 223 (224 + q1)) with false by (symmetry; bool_true).
    replace (in_range 224 239 (224 + q1)) with true by (symmetry; bool_true).
    replace ((224 + q1 - 224) * 4096 + (128 + m1 - 128) * 64 + (128 + m - 128))%N
      with c by lia.
    rewrite Sur.
    replace (is_cont (128 + m1)) with true by (symmetry; bool_true).
    replace (is_cont (128 + m)) with true by (symmetry; bool_true).
    replace (N.ltb c 2048) with false by (symmetry; bool_true).
    reflexivity. }
  destruct (N.leb_spec c 1114111) as [H4|H4]; [|discriminate].
  intros H; apply Some_eq in H; subst b. cbn [app utf8_decode]. rewrite div_262144, div_4096.
  set (q := (c / 64)%N) in *. set (m := (c mod 64)%N) in *.
  set (q1 := (q / 64)%N) in *. set (m1 := (q mod 64)%N) in *.
  set (q2 := (q1 / 64)%N) in *. set (m2 := (q1 mod 64)%N) in *.
  replace (N.ltb (240 + q2) 128) with false by (symmetry; bool_true).
  replace (in_range 194 223 (240 + q2)) with false by (symmetry; bool_true).
  replace (in_range 224 239 (240 + q2)) with false by (symmetry; bool_true).
  replace (in_range 240 244 (240 + q2)) with true by (symmetry; bool_true).
  replace ((240 + q2 - 240) * 262144 + (128 + m2 - 128) * 4096
           + (128 + m1 - 128) * 64 + (128 + m - 128))%N with c by lia.
  replace (is_cont (128 + m2)) with true by (symmetry; bool_true).
  replace (is_cont (128 + m1)) with true by (symmetry; bool_true).
  replace (is_cont (128 + m)) with true by (symmetry; bool_true).
  replace (N.ltb c 65536) with false by (symmetry; bool_true).
  replace (N.leb c 1114111) with true by (symmetry; bool_true).
  reflexivity.
Qed.

Lemma utf8_round_trip (s : list N) (b : list N) :
  utf8_encode s = Some b -> utf8_decode b = Some s.
Proof.
  revert b. induction s as [|c s IH]; intros b.
  - intros [= <-]. reflexivity.
  - cbn [utf8_encode].
    destruct (utf8_encode_char c) as [bc|] eqn:C; [|discriminate].
    destruct (utf8_encode s) as [bs|]; [|discriminate].
    intros [= <-]. rewrite (utf8_decode_encoded_char bs C).
    rewrite (IH bs eq_refl). reflexivity.
Qed.

(** X20. What the handler writes as the transcript, [get_history] reads
    back: after [write_text] has returned, [read_text] on the same path
    returns the text, its [\r\n] and [\r] read as [\n] (in a UTF-8 locale,
    and unless the path was that of a file the process may not read). *)
Theorem transcript_round_trip (p : pystr) (text : pystr) (now : Z)
        (w w' : world) :
  write_text p text now w = (Ok tt, w') ->
  (forall m, lookup p (files w) = Some m -> n_readable m = true) ->
  read_text p w' = (Ok (universal_newlines text), w').
Proof.
  unfold write_text. destruct (utf8_encode text) as [data|] eqn:U.
  - intros E Hr.
    destruct (write_file_effect data now (write_file_Ok E))
      as (w1 & n & E1 & _ & _ & L & K & D & _ & R).
    rewrite E in E1. apply (f_equal snd) in E1. cbn [snd] in E1. subst w1.
    unfold read_text. run_os.
    rewrite (lookup_of_entry L) by congruence. rewrite K.
    replace (n_readable n) with true.
    + rewrite D, (utf8_round_trip U). reflexivity.
    + rewrite R. destruct (lookup p (files w)) as [m|] eqn:Lm; [|reflexivity].
      symmetry. exact (Hr m eq_refl).
  - unfold bind, raise.
    destruct (write_file p [] now w) as [[[]|e] w1]; discriminate.
Qed.

Lemma transcript_round_trip_witness :
  read_text (in_output "mira_20240101-120000.txt")
    (snd (write_text (in_output "mira_20240101-120000.txt")
            [72; 105; 46; 13; 10; 66; 121; 101; 46]%N 7 empty_host))
  = (Ok [72; 105; 46; 10; 66; 121; 101; 46]%N,
     snd (write_text (in_output "mira_20240101-120000.txt")
            [72; 105; 46; 13; 10; 66; 121; 101; 46]%N 7 empty_host)).
Proof.
  apply (@transcript_round_trip (in_output "mira_20240101-120000.txt")
           [72; 105; 46; 13; 10; 66; 121; 101; 46]%N 7%Z empty_host).
  - reflexivity.
  - intros m H. discriminate H.
Defined.

(* ================================================================== *)
(** * More on the generate handler *)
(* ================================================================== *)

Lemma same_outside_trans (a b c : world) :
  same_outside a b -> same_outside b c -> same_outside a c.
Proof.
  intros [L1 F1] [L2 F2]. split; [congruence|].
  intros p Hp. rewrite (F2 p Hp). auto.
Qed.

Lemma keeps_ret {S A : Type} (view : S -> world) (a : A) :
  keeps view (ret a).
Proof. intros s. apply same_outside_refl. Qed.

Lemma keeps_lift {S A : Type} (view : S -> world) (o : outcome A) :
  keeps view (lift_outcome o).
Proof. intros s. apply same_outside_refl. Qed.

Lemma keeps_bind {S A B : Type} (view : S -> world) (m : M S A)
      (k : A -> M S B) :
  keeps view m -> (forall a, keeps view (k a)) -> keeps view (bind m k).
Proof.
  intros Hm Hk s. unfold bind. specialize (Hm s).
  destruct (m s) as [[a|e] s1]; cbn [snd] in *; [|exact Hm].
  exact (same_outside_trans Hm (Hk a s1)).
Qed.

Lemma keeps_try {S A : Type} (view : S -> world) (m : M S A)
      (h : exn -> M S A) :
  keeps view m -> (forall e, keeps view (h e)) -> keeps view (try_except m h).
Proof.
  intros Hm Hh s. unfold try_except. specialize (Hm s).
  destruct (m s) as [[a|e] s1]; cbn [snd] in *; [exact Hm|].
  exact (same_outside_trans Hm (Hh e s1)).
Qed.

Lemma keeps_write_file (p : pystr) (data : list N) (now : Z) :
  output_name p <> None -> keeps (fun w => w) (write_file p data now).
Proof.
  intros Hp w. split; [apply write_file_listable|].
  intros q Hq. apply write_file_frame. congruence.
Qed.

Lemma keeps_write_text (p : pystr) (text : pystr) (now : Z) :
  output_name p <> None -> keeps (fun w => w) (write_text p text now).
Proof.
  intros Hp. unfold write_text. destruct (utf8_encode text).
  - apply keeps_write_file. exact Hp.
  - apply keeps_bind; [apply keeps_write_file; exact Hp|].
    intros _ w. apply same_outside_refl.
Qed.

Section HandlerFrame.

Context {style tensor array : Type}.
Variable ext : collaborators style tensor array.

Lemma keeps_emit (e : event style) : keeps (@host style) (emit e).
Proof. intros s. apply same_outside_refl. Qed.

Lemma keeps_on_host {A : Type} (m : M world A) :
  keeps (fun w => w) m -> keeps (@host style) (on_host m).
Proof.
  intros Hm s. unfold on_host. specialize (Hm (host s)).
  destruct (m (host s)) as [r w]. exact Hm.
Qed.

Lemma generate_clicked_keeps (user_text : pystr)
      (selected_ref_path : option pystr) (clk : clock) :
  is_stamp (stamp clk) = true ->
  keeps (@host style)
        (generate_clicked ext user_text selected_ref_path clk).
Proof.
  intros S. unfold generate_clicked.
  assert (Hw : output_name (wav_path_of (stamp clk)) <> None)
    by (rewrite (output_name_wav S); discriminate).
  assert (Ht : output_name (txt_path_of (stamp clk)) <> None)
    by (rewrite (output_name_txt S); discriminate).
  destruct (negb (truthy user_text) || negb (truthy_path selected_ref_path));
    [apply keeps_emit|].
  apply keeps_bind; [apply keeps_emit|]. intros _.
  apply keeps_try; [|intros e; apply keeps_emit].
  apply keeps_bind; [apply keeps_emit|]. intros _.
  apply keeps_bind; [apply keeps_emit|]. intros _.
  apply keeps_bind; [apply keeps_lift|]. intros ctx.
  cbv zeta.
  destruct (Nat.ltb 0 (length (split_text user_text))); [|apply keeps_ret].
  repeat first
    [ apply keeps_emit
    | apply keeps_lift
    | apply keeps_on_host
    | apply keeps_rotate_files
    | apply keeps_write_file; exact Hw
    | apply keeps_write_text; exact Ht
    | apply keeps_bind; [|intro] ].
Qed.

Lemma generate_clicked_returns (user_text : pystr)
      (selected_ref_path : option pystr) (clk : clock) (s : session style) :
  exists s',
    generate_clicked ext user_text selected_ref_path clk s = (Ok tt, s').
Proof.
  unfold generate_clicked.
  destruct (negb (truthy user_text) || negb (truthy_path selected_ref_path));
    [unfold emit; eauto|].
  unfold bind at 1. unfold emit at 1. unfold try_except.
  match goal with
  | |- exists s', match ?m ?s0 with _ => _ end = _ =>
      destruct (m s0) as [[[]|e] s1]
  end; unfold emit; eauto.
Qed.

(** X21. The generate handler never raises, whatever the engine and the
    host do: it returns, and what was raised inside is shown as an error.
    And it never touches a file outside the output folder: every path that
    is not a direct entry of it, the reference clips among them, is
    afterwards as it was. *)
Theorem generate_clicked_contained (user_text : pystr)
        (selected_ref_path : option pystr) (clk : clock)
        (s : session style) :
  is_stamp (stamp clk) = true ->
  exists s',
    generate_clicked ext user_text selected_ref_path clk s = (Ok tt, s') /\
    out_listable (host s') = out_listable (host s) /\
    forall p, output_name p = None ->
              lookup p (files (host s')) = lookup p (files (host s)).
Proof.
  intros S.
  destruct (generate_clicked_returns user_text selected_ref_path clk s)
    as (s' & E).
  exists s'. split; [exact E|].
  pose proof (@generate_clicked_keeps user_text selected_ref_path clk S s)
    as K.
  rewrite E in K. destruct K as [Kl Kf]. split; [exact Kl|].
  intros p Hp. apply lookup_same. exact (Kf p Hp).
Qed.

(** X22. When the engine fails, the handler shows "Error: " followed by the
    engine's message and leaves the host as it was: whether [encode_audio],
    [batch_generate] or the conversion of its result raises, nothing has
    been written or rotated, and the script does not rerun. *)
Theorem engine_failure_shows_error (user_text path : pystr) (clk : clock)
        (s : session style) (e : exn) :
  user_text <> [] -> path <> [] ->
  (encode_audio ext path = Raise e \/
   exists ctx,
     encode_audio ext path = Ok ctx /\ split_text user_text <> [] /\
     (batch_generate ext (split_text user_text)
        (repeat ctx (length (split_text user_text))) = Raise e \/
      exists audio,
        batch_generate ext (split_text user_text)
          (repeat ctx (length (split_text user_text))) = Ok audio /\
        to_float32 ext audio = Raise e)) ->
  exists evs,
    generate_clicked ext user_text (Some path) clk s
    = (Ok tt, {| host := host s;
                 trace := trace s ++ evs
                          ++ [StError (lit "Error: " ++ exn_str e)] |}) /\
    forallb (fun ev => negb (writes_or_reruns ev)) evs = true.
Proof.
  intros Ht Hp H. apply truthy_true in Ht. apply truthy_true in Hp.
  destruct s as [w t]. unfold generate_clicked.
  rewrite Ht. cbn [truthy_path path_or_empty]. rewrite Hp. cbn [negb orb].
  run_ui.
  destruct H as [He|(ctx & He & Hs & H)]; rewrite He; run_ui.
  - exists [Progress 0;
            StatusInfo (lit "Encoding reference voice...");
            EncodeAudio path].
    split; [rewrite <- !app_assoc; reflexivity | reflexivity].
  - assert (Hlt : Nat.ltb 0 (length (split_text user_text)) = true).
    { apply Nat.ltb_lt. destruct (split_text user_text);
        [congruence | cbn; lia]. }
    rewrite Hlt.
    exists [Progress 0;
            StatusInfo (lit "Encoding reference voice...");
            EncodeAudio path;
            StatusInfo (lit "Synthesizing "
                        ++ str_of_nat (length (split_text user_text))
                        ++ lit " sentences...");
            BatchGenerate (split_text user_text)
              (repeat ctx (length (split_text user_text)))].
    destruct H as [Hg|(audio & Hg & Hf)]; rewrite Hg; run_ui.
    + split; [rewrite <- !app_assoc; reflexivity | reflexivity].
    + rewrite Hf.
      split; [rewrite <- !app_assoc; reflexivity | reflexivity].
Qed.

End HandlerFrame.

Lemma generate_clicked_contained_witness :
  exists s',
    generate_clicked toy (lit "Hi. Bye.") (Some a_reference) later_clock
      used_session = (Ok tt, s') /\
    out_listable (host s') = out_listable (host used_session) /\
    forall p, output_name p = None ->
              lookup p (files (host s'))
              = lookup p (files (host used_session)).
Proof.
  apply (@generate_clicked_contained _ _ _ toy (lit "Hi. Bye.")
           (Some a_reference) later_clock used_session).
  reflexivity.
Defined.

Lemma engine_failure_shows_error_witness :
  exists evs,
    generate_clicked faulty (lit "Hi. Bye.") (Some a_reference) later_clock
      used_session
    = (Ok tt, {| host := host used_session;
                 trace := trace used_session ++ evs
                          ++ [StError (lit "Error: CUDA out of memory")] |}) /\
    forallb (fun ev => negb (writes_or_reruns ev)) evs = true.
Proof.
  apply (@engine_failure_shows_error _ _ _ faulty (lit "Hi. Bye.")
           a_reference later_clock used_session out_of_memory).
  - discriminate.
  - discriminate.
  - right. exists tt. split; [reflexivity|].
    split; [vm_compute; discriminate|]. left. reflexivity.
Defined.

Section GenerationHistory.

Context {style tensor array : Type}.
Variable ext : collaborators style tensor array.


End GenerationHistory.

